(** * Conversation analytics: business clock, chat metrics, percentiles,
      baseline deltas, redaction and example ranking

    Shallow embedding of [analysis_rules.py] and [behavior_digest.py].

    Conventions of the embedding:
    - a [datetime] is the number of microseconds on the wall clock of the
      configured time zone ([_to_tz] only tags a naive stamp with the zone,
      and after it every comparison and subtraction in the code is between
      stamps that carry the same [tzinfo], hence wall-clock arithmetic);
    - a [time] of day is a number of microseconds since midnight;
    - a Python [dict] is a [gmap], a list is a [list], [None] is [None];
    - a raised exception is an explicit outcome;
    - floats are IEEE binary64 values, through the standard library's
      [SpecFloat] operations. *)

From Stdlib Require Import ZArith List Bool Lia Permutation String Ascii.
From Stdlib Require Import Floats.SpecFloat.
From stdpp Require Import base option list gmap strings sorting.

Local Open Scope Z_scope.

(* ===================================================================== *)
(** * Python run-time pieces the two modules rely on *)
(* ===================================================================== *)

Module Py.

Inductive exn : Type :=
| ValueError (msg : string)
| OverflowError
| IndexError.

(** A [str] is a sequence of code points. *)
Definition char : Type := N.
Definition text : Type := list char.

(** A literal whose characters are all ASCII. *)
Definition lit (s : string) : text :=
  (λ a, N_of_ascii a) <$> list_ascii_of_string s.

(** Outcome of a call that may raise. *)
Inductive outcome (A : Type) : Type :=
| Returned (a : A)
| Raised (e : exn).
Arguments Returned {A} a.
Arguments Raised {A} e.

Definition bind {A B} (c : outcome A) (k : A → outcome B) : outcome B :=
  match c with
  | Returned a => k a
  | Raised e => Raised e
  end.

Section Sorting.
Context {A : Type} (key : A → Z).

(** [sorted(l, key=key)] is stable: an element goes in front of the
    first element that is not smaller. *)
Fixpoint insert_asc (x : A) (l : list A) : list A :=
  match l with
  | [] => [x]
  | y :: l' => if key y <? key x then y :: insert_asc x l' else x :: l
  end.

(** [sorted(l, key=key, reverse=True)] is stable too: equal keys keep
    their encounter order. *)
Fixpoint insert_desc (x : A) (l : list A) : list A :=
  match l with
  | [] => [x]
  | y :: l' => if key x <? key y then y :: insert_desc x l' else x :: l
  end.

Definition sorted_by (reverse : bool) (l : list A) : list A :=
  foldr (if reverse then insert_desc else insert_asc) [] l.

(** The order of the keys, ascending and descending. *)
Definition by_key_le : relation A := λ a b, key a <= key b.
Definition by_key_ge : relation A := λ a b, key b <= key a.
End Sorting.

(** [sorted(values)] on integers. *)
Definition sorted (l : list Z) : list Z := sorted_by (λ z, z) false l.

(** [min(l) if l else None], [max(l) if l else None]. *)
Definition min_opt (l : list Z) : option Z :=
  match l with
  | [] => None
  | x :: l' => Some (foldl Z.min x l')
  end.

Definition max_opt (l : list Z) : option Z :=
  match l with
  | [] => None
  | x :: l' => Some (foldl Z.max x l')
  end.

(** [sep.join(parts)]. *)
Fixpoint join (sep : text) (parts : list text) : text :=
  match parts with
  | [] => []
  | [t] => t
  | t :: rest => t ++ sep ++ join sep rest
  end.

(** [l[i]] for a non-negative index: [IndexError] out of range. *)
Definition index {A} (l : list A) (i : Z) : outcome A :=
  if i <? 0 then Raised IndexError
  else match l !! Z.to_nat i with
       | Some a => Returned a
       | None => Raised IndexError
       end.

End Py.

(** ** Binary64 arithmetic as Python performs it *)

Module PyFloat.

Definition prec : Z := 53.
Definition emax : Z := 1024.

(** [float(z)] for an integer. *)
Definition of_int (z : Z) : spec_float := binary_normalize prec emax z 0 false.

Definition mul : spec_float → spec_float → spec_float := SFmul prec emax.
Definition div : spec_float → spec_float → spec_float := SFdiv prec emax.

(** The literals [0.5] and [0.9]: the doubles nearest to 1/2 and 9/10. *)
Definition lit_0_5 : spec_float := Eval vm_compute in div (of_int 1) (of_int 2).
Definition lit_0_9 : spec_float := Eval vm_compute in div (of_int 9) (of_int 10).

(** Integer part and "is there a fraction, and how does it compare to one
    half" of a finite double [m * 2^e]. *)
Definition split (m : positive) (e : Z) : Z * comparison * bool :=
  match e with
  | Zneg p =>
      let d := 2 ^ Zpos p in
      let q := Zpos m / d in
      let r := Zpos m mod d in
      (q, Z.compare (2 * r) d, r =? 0)
  | _ => (Zpos m * 2 ^ e, Lt, true)
  end.

(** [int(x)]: truncation toward zero. *)
Definition to_int (x : spec_float) : option Z :=
  match x with
  | S754_zero _ => Some 0
  | S754_finite s m e => let '(q, _, _) := split m e in Some (if s then - q else q)
  | _ => None
  end.

(** [round(x)]: nearest integer, ties to the even one. *)
Definition round (x : spec_float) : option Z :=
  match x with
  | S754_zero _ => Some 0
  | S754_finite s m e =>
      let '(q, c, exact) := split m e in
      let q' :=
        if exact then q
        else match c with
             | Lt => q
             | Gt => q + 1
             | Eq => if Z.even q then q else q + 1
             end in
      Some (if s then - q' else q')
  | _ => None
  end.

End PyFloat.

(* ===================================================================== *)
(** * analysis_rules.py *)
(* ===================================================================== *)

Module analysis_rules.
Import Py.

(** Stamps and times of day are integers (microseconds). *)
Abbreviation datetime := Z (only parsing).
Abbreviation time := Z (only parsing).

Definition us_per_sec : Z := 1000000.
Definition us_per_day : Z := 86400 * us_per_sec.

(** [dt.date()], as a day number. *)
Definition date_of (dt : datetime) : Z := dt / us_per_day.

(** [datetime.combine(day, t, tzinfo=tz)]. *)
Definition combine (day : Z) (t : time) : datetime := day * us_per_day + t.

(** [int(td.total_seconds())]: whole seconds, truncated toward zero.  The
    float quotient by 10^6 is exact enough for the truncation to agree
    with integer division on every span shorter than centuries. *)
Definition total_seconds_int (td : Z) : Z := Z.quot td us_per_sec.

(** Body of the [while cur_day <= last_day] loop; [fuel] bounds the number
    of iterations, the loop leaves by its own test. *)
Fixpoint walk_days (fuel : nat) (s e : datetime) (work_start work_end : time)
    (cur_day last_day : Z) (total : Z) : Z :=
  match fuel with
  | O => total
  | S fuel' =>
      if cur_day <=? last_day then
        let window_start := combine cur_day work_start in
        let window_end := combine cur_day work_end in
        let seg_start := Z.max s window_start in
        let seg_end := Z.min e window_end in
        let total' :=
          if seg_end >? seg_start
          then total + total_seconds_int (seg_end - seg_start)
          else total in
        walk_days fuel' s e work_start work_end (cur_day + 1) last_day total'
      else total
  end.

Definition days_fuel (cur_day last_day : Z) : nat :=
  Z.to_nat (last_day - cur_day + 1).

Definition _business_seconds_between
    (start_dt end_dt : datetime) (work_start work_end : time)
  : outcome (option Z) :=
  if end_dt <? start_dt then Returned None
  else
    let s := start_dt in
    let e := end_dt in
    if work_end <=? work_start then
      Raised (ValueError "work hours that cross midnight are not supported")
    else
      let cur_day := date_of s in
      let last_day := date_of e in
      Returned (Some (walk_days (days_fuel cur_day last_day) s e
                        work_start work_end cur_day last_day 0)).

(** ** Per-chat metrics *)

(** A message dict: [direction], [sentAt] already through [_dt] ([None]
    when absent or unparsable), and [str(m.get("text") or "")]. *)
Record message : Type := {
  direction : string;
  sentAt : option datetime;
  text : Py.text;
}.

(** The five advice sentences; they are pairwise different strings, so
    equality of constructors is equality of the strings. *)
Inductive advice_msg : Type :=
| AdviceNoReply
| AdviceSlowFirstReply
| AdviceUnanswered
| AdviceFewQuestions
| AdviceNoNextStep.

#[global] Instance advice_msg_eq_dec : EqDecision advice_msg.
Proof. solve_decision. Defined.

Record ChatMetrics : Type := {
  inbound_count : Z;
  outbound_count : Z;
  first_inbound_at : option datetime;
  first_outbound_at : option datetime;
  first_response_sec : option Z;
  last_inbound_at : option datetime;
  last_outbound_at : option datetime;
  unanswered_inbound : Z;
  advice : list advice_msg;
}.

(** [[a for a in advice if not (a in seen or seen.add(a))]]. *)
Fixpoint dedup_seen (seen : list advice_msg) (l : list advice_msg) : list advice_msg :=
  match l with
  | [] => []
  | a :: l' =>
      if bool_decide (a ∈ seen) then dedup_seen seen l'
      else a :: dedup_seen (a :: seen) l'
  end.

(** [for t in sorted(outbound_times): if t >= first_inbound_at: ...; break]. *)
Definition first_at_or_after (first_inbound : datetime) (outbound_times : list datetime)
  : option datetime :=
  List.find (λ t, t >=? first_inbound) (sorted outbound_times).

(** The counting loop over [inbound_times] with [cutoff = last_outbound_at]. *)
Definition count_after (cutoff : option datetime) (inbound_times : list datetime) : Z :=
  foldl (λ n t,
           match cutoff with
           | None => n + 1
           | Some c => if t >? c then n + 1 else n
           end) 0 inbound_times.

(** The [unanswered_inbound] block: the loop runs when there is an inbound
    stamp and no outbound stamp at or after the last one. *)
Definition unanswered_block (inbound_times outbound_times : list datetime) : Z :=
  let last_inbound_at := max_opt inbound_times in
  let last_outbound_at := max_opt outbound_times in
  match last_inbound_at with
  | Some li =>
      if match last_outbound_at with
         | None => true
         | Some lo => li >? lo
         end
      then count_after last_outbound_at inbound_times
      else 0
  | None => 0
  end.

Section Detectors.
(** [pattern.search(text) is not None] for the five compiled patterns. *)
Variables (_RE_HAS_QUESTION _RE_PRICE_INTENT _RE_BUY_INTENT
           _RE_AVAIL_INTENT _RE_NEXT_STEP : Py.text → bool).

Definition content_advice (inbound_count outbound_count : Z)
    (text_out text_in : Py.text) (advice : list advice_msg) : list advice_msg :=
  if (inbound_count >? 0) && (outbound_count >? 0) then
    let advice :=
      if negb (_RE_HAS_QUESTION text_out) then advice ++ [AdviceFewQuestions]
      else advice in
    let intent :=
      _RE_PRICE_INTENT text_in || _RE_BUY_INTENT text_in || _RE_AVAIL_INTENT text_in in
    if intent && negb (_RE_NEXT_STEP text_out) then advice ++ [AdviceNoNextStep]
    else advice
  else advice.

Definition compute_chat_metrics (messages : list message)
    (work_start work_end : time) (slow_first_reply_sec : Z)
  : outcome ChatMetrics :=
  let inbound := filter (λ m, direction m = "in"%string) messages in
  let outbound := filter (λ m, direction m = "out"%string) messages in
  let inbound_count := Z.of_nat (length inbound) in
  let outbound_count := Z.of_nat (length outbound) in
  let inbound_times := omap sentAt inbound in
  let outbound_times := omap sentAt outbound in
  let first_inbound_at := min_opt inbound_times in
  let first_outbound_at :=
    match first_inbound_at with
    | Some fi => first_at_or_after fi outbound_times
    | None => None
    end in
  let last_inbound_at := max_opt inbound_times in
  let last_outbound_at := max_opt outbound_times in
  bind (match first_inbound_at, first_outbound_at with
        | Some fi, Some fo => _business_seconds_between fi fo work_start work_end
        | _, _ => Returned None
        end)
  (λ first_response_sec,
    let unanswered_inbound := unanswered_block inbound_times outbound_times in
    let advice := [] in
    let advice :=
      if (inbound_count >? 0) && (outbound_count =? 0)
      then advice ++ [AdviceNoReply] else advice in
    let advice :=
      match first_response_sec with
      | Some frs =>
          if frs >? slow_first_reply_sec
          then advice ++ [AdviceSlowFirstReply] else advice
      | None => advice
      end in
    let advice :=
      if unanswered_inbound >? 0 then advice ++ [AdviceUnanswered] else advice in
    let text_out := join (lit " " ++ [10%N]) (take 6 (text <$> outbound)) in
    let text_in := join (lit " " ++ [10%N]) (take 6 (text <$> inbound)) in
    let advice := content_advice inbound_count outbound_count text_out text_in advice in
    let advice := dedup_seen [] advice in
    Returned {|
      inbound_count := inbound_count;
      outbound_count := outbound_count;
      first_inbound_at := first_inbound_at;
      first_outbound_at := first_outbound_at;
      first_response_sec := first_response_sec;
      last_inbound_at := last_inbound_at;
      last_outbound_at := last_outbound_at;
      unanswered_inbound := unanswered_inbound;
      advice := advice;
    |}).
End Detectors.

(** ** Percentile of the summaries *)

(** The nested [_pct] of [aggregate_manager_summary] and of
    [aggregate_channel_summary] (the two bodies are the same). *)
Definition _pct (values : list Z) (p : spec_float) : outcome (option Z) :=
  match values with
  | [] => Returned None
  | _ =>
      let vals := sorted values in
      let n := Z.of_nat (length vals) in
      match PyFloat.round (PyFloat.mul (PyFloat.of_int (n - 1)) p) with
      | None => Raised OverflowError
      | Some r =>
          let k := Z.max 0 (Z.min (n - 1) r) in
          bind (index vals k) (λ v, Returned (Some v))
      end
  end.

(** A cell of an output row: a number or the empty string. *)
Inductive cell : Type :=
| CEmpty
| CInt (z : Z).

(** [median if median is not None else ""] (manager summary). *)
Definition manager_cell (values : list Z) (p : spec_float) : outcome cell :=
  bind (_pct values p)
    (λ r, Returned match r with Some v => CInt v | None => CEmpty end).

(** [_pct(vals, p) or ""] (channel summary): a falsy result, so [None]
    and also [0], gives the empty string. *)
Definition channel_cell (values : list Z) (p : spec_float) : outcome cell :=
  bind (_pct values p)
    (λ r, Returned match r with
                   | Some v => if v =? 0 then CEmpty else CInt v
                   | None => CEmpty
                   end).

End analysis_rules.

(* ===================================================================== *)
(** * The part of [re] that the redaction patterns use *)
(* ===================================================================== *)

Module Re.
Import Py.

(** The character classes of a [str] pattern.  They are Unicode classes in
    Python; the tables below are exact on ASCII and on the Cyrillic block,
    and classify every other code point as neither letter nor digit. *)
Definition in_range (lo hi c : N) : bool := ((lo <=? c) && (c <=? hi))%N.

Definition is_digit (c : char) : bool := in_range 48 57 c.

Definition is_alpha (c : char) : bool :=
  in_range 65 90 c || in_range 97 122 c
  || in_range 1024 1153 c || in_range 1162 1279 c.

Definition is_word (c : char) : bool := is_alpha c || is_digit c || (c =? 95)%N.

Definition is_space (c : char) : bool :=
  in_range 9 13 c || in_range 28 32 c || (c =? 133)%N || (c =? 160)%N
  || (c =? 5760)%N || in_range 8192 8202 c || in_range 8232 8233 c
  || (c =? 8239)%N || (c =? 8287)%N || (c =? 12288)%N.

(** One code point, written as its ASCII character. *)
Definition chr (a : ascii) : char := N_of_ascii a.
Definition is_chr (a : ascii) (c : char) : bool := (c =? chr a)%N.

(** A pattern is a sequence of atoms; every repetition in the patterns of
    this program is a greedy repetition of a one-character class. *)
Inductive atom : Type :=
| Cls (p : char → bool)
| Rep (p : char → bool) (lo : nat) (hi : option nat)
| Bnd.

Definition pattern : Type := list atom.

(** [\b]: exactly one side is a word character; the two ends of the
    string count as non-word. *)
Definition word_opt (c : option char) : bool :=
  match c with
  | Some c => is_word c
  | None => false
  end.

Definition boundary (prev next : option char) : bool :=
  xorb (word_opt prev) (word_opt next).

Definition hi_allows (hi : option nat) : bool :=
  match hi with
  | Some O => false
  | _ => true
  end.

Definition hi_pred (hi : option nat) : option nat := Nat.pred <$> hi.

(** Greedy [p{lo,hi}] followed by the continuation [k]: take one more
    character when possible, give it back when the rest fails.  The result
    is the number of characters matched. *)
Fixpoint rep_greedy (p : char → bool) (k : option char → text → option nat)
    (lo : nat) (hi : option nat) (prev : option char) (s : text) : option nat :=
  let stop := match lo with O => k prev s | S _ => None end in
  match s with
  | c :: s' =>
      if p c && hi_allows hi then
        match rep_greedy p k (Nat.pred lo) (hi_pred hi) (Some c) s' with
        | Some n => Some (S n)
        | None => stop
        end
      else stop
  | [] => stop
  end.

(** Match the pattern at the start of [s]; [prev] is the character before. *)
Fixpoint match_here (pat : pattern) (prev : option char) (s : text) : option nat :=
  match pat with
  | [] => Some O
  | Cls p :: rest =>
      match s with
      | c :: s' => if p c then S <$> match_here rest (Some c) s' else None
      | [] => None
      end
  | Rep p lo hi :: rest => rep_greedy p (match_here rest) lo hi prev s
  | Bnd :: rest =>
      if boundary prev (head s) then match_here rest prev s else None
  end.

(** [pattern.sub(repl, s)]: leftmost matches, left to right, not
    overlapping.  [skip] counts the characters of the current match still
    to be dropped.  None of the patterns below matches the empty string. *)
Fixpoint sub_go (pat : pattern) (repl : text) (prev : option char) (skip : nat)
    (s : text) : text :=
  match s with
  | [] => []
  | c :: s' =>
      match skip with
      | S n => sub_go pat repl (Some c) n s'
      | O =>
          match match_here pat prev s with
          | Some (S n) => repl ++ sub_go pat repl (Some c) n s'
          | _ => c :: sub_go pat repl (Some c) O s'
          end
      end
  end.

Definition sub (pat : pattern) (repl : text) (s : text) : text :=
  sub_go pat repl None O s.

(** [s.strip()]. *)
Fixpoint lstrip (s : text) : text :=
  match s with
  | c :: s' => if is_space c then lstrip s' else s
  | [] => []
  end.
Definition strip (s : text) : text := reverse (lstrip (reverse (lstrip s))).

(** [s.replace("\n", " ")]. *)
Definition replace_nl (s : text) : text :=
  (λ c, if (c =? 10)%N then 32%N else c) <$> s.

(** [pattern.search(s) is not None], scanning from the left. *)
Fixpoint search_go (pat : pattern) (prev : option char) (s : text) : bool :=
  match match_here pat prev s with
  | Some _ => true
  | None =>
      match s with
      | [] => false
      | c :: s' => search_go pat (Some c) s'
      end
  end.

Definition search (pat : pattern) (s : text) : bool := search_go pat None s.

(** ** What a match is, without the search order *)

(** The character before the position reached after reading [l]. *)
Definition prev_after (prev : option char) (l : text) : option char :=
  match last l with
  | Some c => Some c
  | None => prev
  end.

Definition hi_ok (hi : option nat) (j : nat) : Prop :=
  match hi with
  | Some h => (j ≤ h)%nat
  | None => True
  end.

(** [matches pat prev s n]: the pattern matches the first [n] characters of
    [s], where [prev] is the character before [s]. *)
Fixpoint matches (pat : pattern) (prev : option char) (s : text) (n : nat) : Prop :=
  match pat with
  | [] => n = O
  | Cls p :: rest =>
      ∃ c s' n', s = c :: s' ∧ p c = true ∧ n = S n' ∧ matches rest (Some c) s' n'
  | Rep p lo hi :: rest =>
      ∃ j n', n = (j + n')%nat ∧ (lo ≤ j)%nat ∧ hi_ok hi j ∧ (j ≤ length s)%nat
              ∧ Forall (λ c, p c = true) (take j s)
              ∧ matches rest (prev_after prev (take j s)) (drop j s) n'
  | Bnd :: rest => boundary prev (head s) = true ∧ matches rest prev s n
  end.

(** The classes of a pattern. *)
Definition atom_class (a : atom) : option (char → bool) :=
  match a with
  | Cls p => Some p
  | Rep p _ _ => Some p
  | Bnd => None
  end.

(** No class of the pattern accepts the character [c]. *)
Definition rejects (pat : pattern) (c : char) : Prop :=
  Forall (λ a, match atom_class a with Some p => p c = false | None => True end) pat.

(** The pattern reads a character before it tests any word boundary. *)
Fixpoint reads_first (pat : pattern) : Prop :=
  match pat with
  | [] => False
  | Cls _ :: _ => True
  | Rep _ (S _) _ :: _ => True
  | Rep _ O _ :: rest => reads_first rest
  | Bnd :: _ => False
  end.

(** How [sub] cuts its input: characters copied where the pattern does not
    match, and matched chunks replaced by [repl].  [prev] is the character
    before the input. *)
Inductive pieces (R : pattern) (repl : text) : option char → text → text → Prop :=
| pieces_nil prev : pieces R repl prev [] []
| pieces_copy prev c s t :
    (∀ n, match_here R prev (c :: s) ≠ Some (S n)) →
    pieces R repl (Some c) s t →
    pieces R repl prev (c :: s) (c :: t)
| pieces_chunk prev m c s t :
    match_here R prev ((m ++ [c]) ++ s) = Some (length (m ++ [c])) →
    pieces R repl (Some c) s t →
    pieces R repl prev ((m ++ [c]) ++ s) (repl ++ t).

(** The non-empty suffixes of a text. *)
Fixpoint tails (l : text) : list text :=
  match l with
  | [] => []
  | _ :: l' => l :: tails l'
  end.

(** The contexts of a position of the input and of the same position of
    the output of [sub]: the same character before, or the output position
    follows a replacement and the input position follows a chunk that ends
    at a word boundary. *)
Definition ctx (prev_s prev_t : option char) (s : text) : Prop :=
  prev_s = prev_t ∨ (word_opt prev_t = false ∧ boundary prev_s (head s) = true).

(** Every class of the pattern gives the same answer on [c] and [f c]. *)
Definition class_inv (f : char → char) (pat : pattern) : Prop :=
  Forall (λ a, match atom_class a with
               | Some p => ∀ c, p (f c) = p c
               | None => True
               end) pat.

(** The pattern has no word-boundary test. *)
Definition no_bnd (pat : pattern) : Prop :=
  Forall (λ a, match a with Bnd => False | _ => True end) pat.

End Re.

(* ===================================================================== *)
(** * behavior_digest.py *)
(* ===================================================================== *)

Module behavior_digest.
Import Py Re.

Abbreviation datetime := Z (only parsing).

(** ** Redaction *)

(** A letter of a pattern compiled with [re.IGNORECASE]. *)
Definition ci (lower upper : ascii) (c : char) : bool :=
  is_chr lower c || is_chr upper c.

(** Under [re.IGNORECASE] the letter s also matches U+017F. *)
Definition ci_s (c : char) : bool := ci "s" "S" c || (c =? 383)%N.

Definition phone_cls (c : char) : bool :=
  is_digit c || is_space c || is_chr "-" c || is_chr "(" c || is_chr ")" c.

Definition email_local_cls (c : char) : bool :=
  is_word c || is_chr "." c || is_chr "-" c || is_chr "+" c.

Definition email_domain_cls (c : char) : bool :=
  is_word c || is_chr "." c || is_chr "-" c.

(** [\b\+?\d[\d\s\-()]{7,}\b] *)
Definition _RE_PHONE : pattern :=
  [Bnd; Rep (is_chr "+") 0 (Some 1%nat); Cls is_digit; Rep phone_cls 7 None; Bnd].

(** [\b\d{5,}\b] *)
Definition _RE_LONG_DIGITS : pattern := [Bnd; Rep is_digit 5 None; Bnd].

(** [\b[\w.\-+]+@[\w.\-]+\.\w+\b] *)
Definition _RE_EMAIL : pattern :=
  [Bnd; Rep email_local_cls 1 None; Cls (is_chr "@");
   Rep email_domain_cls 1 None; Cls (is_chr "."); Rep is_word 1 None; Bnd].

(** [\S] *)
Definition not_space (c : char) : bool := negb (is_space c).

(** [https?://] *)
Definition url_prefix : pattern :=
  [Cls (ci "h" "H"); Cls (ci "t" "T"); Cls (ci "t" "T"); Cls (ci "p" "P");
   Rep ci_s 0 (Some 1%nat); Cls (is_chr ":"); Cls (is_chr "/"); Cls (is_chr "/")].

(** [https?://\S+] *)
Definition _RE_URL : pattern := url_prefix ++ [Rep not_space 1 None].

Definition max_len : nat := 220.

Definition _redact_text (s : text) : text :=
  let s := sub _RE_URL (lit "[link]") s in
  let s := sub _RE_EMAIL (lit "[email]") s in
  let s := sub _RE_LONG_DIGITS (lit "***") s in
  let s := sub _RE_PHONE (lit "***") s in
  let s := strip (replace_nl s) in
  take max_len s.

(** ** Messages of the digest *)

Record Msg : Type := {
  chat_id : string;
  sent_at : option datetime;
  direction : string;
  manager_id : string;
  message_type : string;
  author_type : string;
  text : Py.text;
}.

Definition ascii_upper (a : ascii) : ascii :=
  let n := nat_of_ascii a in
  if ((97 <=? n) && (n <=? 122))%nat then ascii_of_nat (n - 32) else a.

Definition ascii_lower (a : ascii) : ascii :=
  let n := nat_of_ascii a in
  if ((65 <=? n) && (n <=? 90))%nat then ascii_of_nat (n + 32) else a.

(** [s.upper()], [s.lower()] on the ASCII type and role names. *)
Fixpoint upper (s : string) : string :=
  match s with
  | EmptyString => EmptyString
  | String a s' => String (ascii_upper a) (upper s')
  end.

Fixpoint lower (s : string) : string :=
  match s with
  | EmptyString => EmptyString
  | String a s' => String (ascii_lower a) (lower s')
  end.

Definition _is_manager_msg (m : Msg) : bool :=
  bool_decide (direction m = "out"%string).

Definition _is_customer_msg (m : Msg) : bool :=
  bool_decide (direction m = "in"%string)
  && bool_decide (lower (author_type m) = "customer"%string).

Definition _is_textish (m : Msg) : bool :=
  bool_decide (upper (message_type m) ∈
    ["TEXT"; "COMMAND"; "ORDER"; "PRODUCT"; "FILE"; "AUDIO"; "IMAGE"; ""]%string).

(** Truth value of a [str]. *)
Definition nonempty (t : Py.text) : bool :=
  match t with
  | [] => false
  | _ => true
  end.

(** The [for m in msgs] loop of [_chat_snippet], with its [break]. *)
Fixpoint snippet_loop (msgs : list Msg) (inbound outbound : Py.text) : Py.text * Py.text :=
  match msgs with
  | [] => (inbound, outbound)
  | m :: rest =>
      let inbound :=
        if negb (nonempty inbound) && _is_customer_msg m && _is_textish m && nonempty (text m)
        then _redact_text (text m) else inbound in
      let outbound :=
        if negb (nonempty outbound) && _is_manager_msg m && _is_textish m && nonempty (text m)
        then _redact_text (text m) else outbound in
      if nonempty inbound && nonempty outbound then (inbound, outbound)
      else snippet_loop rest inbound outbound
  end.

Definition _chat_snippet (msgs : list Msg) : Py.text * Py.text :=
  snippet_loop msgs [] [].

(** ** Tables read from [chats_raw] *)

(** A row of [chats_raw], its numeric cells already through [_to_int]. *)
Record chat_row : Type := {
  r_chat_id : string;
  r_manager_id : string;
  r_manager_name : string;
  r_first_response_sec : option Z;
  r_unanswered_inbound : option Z;
  r_inbound_count : option Z;
  r_outbound_count : option Z;
}.

Record chat_tables : Type := {
  mgr_name_by_id : gmap string string;
  chat_mgr_id : gmap string string;
  chat_mgr_name : gmap string string;
  chat_first_reply_sec : gmap string (option Z);
  chat_no_reply : gmap string Z;
  chat_unanswered : gmap string (option Z);
}.

Definition empty_tables : chat_tables :=
  {| mgr_name_by_id := ∅; chat_mgr_id := ∅; chat_mgr_name := ∅;
     chat_first_reply_sec := ∅; chat_no_reply := ∅; chat_unanswered := ∅ |}.

(** [x or 0]. *)
Definition or_zero (x : option Z) : Z := default 0 x.

Definition read_chat (t : chat_tables) (r : chat_row) : chat_tables :=
  let cid := r_chat_id r in
  let mid := r_manager_id r in
  let mname := r_manager_name r in
  let t :=
    if bool_decide (cid ≠ ""%string) then
      let inb := or_zero (r_inbound_count r) in
      let outb := or_zero (r_outbound_count r) in
      {| mgr_name_by_id := mgr_name_by_id t;
         chat_mgr_id := <[cid := mid]> (chat_mgr_id t);
         chat_mgr_name := <[cid := mname]> (chat_mgr_name t);
         chat_first_reply_sec := <[cid := r_first_response_sec r]> (chat_first_reply_sec t);
         chat_no_reply := <[cid := if (inb >? 0) && (outb =? 0) then 1 else 0]> (chat_no_reply t);
         chat_unanswered := <[cid := r_unanswered_inbound r]> (chat_unanswered t) |}
    else t in
  if bool_decide (mid ≠ ""%string) && bool_decide (mname ≠ ""%string) then
    {| mgr_name_by_id := <[mid := mname]> (mgr_name_by_id t);
       chat_mgr_id := chat_mgr_id t;
       chat_mgr_name := chat_mgr_name t;
       chat_first_reply_sec := chat_first_reply_sec t;
       chat_no_reply := chat_no_reply t;
       chat_unanswered := chat_unanswered t |}
  else t.

Definition read_chats (chats : list chat_row) : chat_tables :=
  foldl read_chat empty_tables chats.

(** ** The per-chat pass *)

(** A candidate: [(cid, score, sn_in, sn_out)]. *)
Definition cand : Type := string * Z * Py.text * Py.text.

Definition cand_chat (c : cand) : string := c.1.1.1.
Definition cand_score (c : cand) : Z := c.1.1.2.
Definition cand_sn_in (c : cand) : Py.text := c.1.2.
Definition cand_sn_out (c : cand) : Py.text := c.2.

Record digest_state : Type := {
  first_reply_values_by_mgr : gmap string (list Z);
  cand_no_reply : gmap string (list cand);
  cand_slow : gmap string (list cand);
  cand_no_next : gmap string (list cand);
  cand_good : gmap string (list cand);
}.

Definition empty_state : digest_state :=
  {| first_reply_values_by_mgr := ∅; cand_no_reply := ∅; cand_slow := ∅;
     cand_no_next := ∅; cand_good := ∅ |}.

(** [d.setdefault(k, []).append(x)]. *)
Definition setdefault_append {A} (d : gmap string (list A)) (k : string) (x : A)
  : gmap string (list A) :=
  <[k := default [] (d !! k) ++ [x]]> d.

(** [text.count("?")]. *)
Definition count_qmarks (t : Py.text) : Z :=
  Z.of_nat (length (filter (λ c, c = chr "?") t)).

Section Detectors.
(** [pattern.search(text) is not None] for the keyword patterns, and for
    the interrogative-word pattern inside [_count_questions]. *)
Variables (_KW_INTENT _KW_NEXTSTEP _RE_INTERROGATIVE : Py.text → bool).

Definition _count_questions (t : Py.text) : Z :=
  if negb (nonempty t) then 0
  else
    let q := count_qmarks t in
    if _RE_INTERROGATIVE t then q + 1 else q.

(** [mid], with the fall-back on the first outbound message that names a
    manager.  (The manager's display name is resolved next to it in the
    source; the key of every accumulator is [mid] alone.) *)
Definition resolve_mid (t : chat_tables) (cid : string) (ms : list Msg) : string :=
  let mid := default ""%string (chat_mgr_id t !! cid) in
  if bool_decide (mid = ""%string) then
    match List.find (λ m, _is_manager_msg m && bool_decide (manager_id m ≠ ""%string)) ms with
    | Some m => manager_id m
    | None => mid
    end
  else mid.

Definition responded_of (ms : list Msg) : bool :=
  existsb (λ m, _is_manager_msg m && _is_textish m) ms.

Definition manager_texts (ms : list Msg) : list Py.text :=
  text <$> List.filter (λ m, _is_manager_msg m && _is_textish m && nonempty (text m)) ms.

Definition customer_texts (ms : list Msg) : list Py.text :=
  text <$> List.filter (λ m, _is_customer_msg m && _is_textish m && nonempty (text m)) ms.

Definition questions_of (ms : list Msg) : Z :=
  foldr Z.add 0 (_count_questions <$> manager_texts ms).

(** The [for m in reversed(ms)] search of the last outbound text. *)
Definition last_out_of (ms : list Msg) : Py.text :=
  match List.find (λ m, _is_manager_msg m && _is_textish m && nonempty (text m)) (reverse ms) with
  | Some m => text m
  | None => []
  end.

Definition next_step_of (ms : list Msg) : bool :=
  let last_out := last_out_of ms in
  nonempty last_out && _KW_NEXTSTEP last_out.

Definition high_intent_of (ms : list Msg) : bool :=
  existsb _KW_INTENT (customer_texts ms).

(** [fr is not None and fr > 0]. *)
Definition has_first_reply (fr : option Z) : bool :=
  match fr with
  | Some v => v >? 0
  | None => false
  end.

Definition process_chat (t : chat_tables) (st : digest_state)
    (entry : string * list Msg) : digest_state :=
  let '(cid, ms) := entry in
  let mid := resolve_mid t cid ms in
  let no_reply_flag := chat_no_reply t !! cid in
  let responded := responded_of ms in
  let fr := mjoin (chat_first_reply_sec t !! cid) in
  let frv :=
    if has_first_reply fr
    then setdefault_append (first_reply_values_by_mgr st) mid (or_zero fr)
    else first_reply_values_by_mgr st in
  let questions := questions_of ms in
  let next_step := next_step_of ms in
  let high_intent := high_intent_of ms in
  let '(sn_in, sn_out) := _chat_snippet ms in
  let c_no_reply :=
    if match no_reply_flag with Some f => negb (f =? 0) | None => false end
    then setdefault_append (cand_no_reply st) mid (cid, 100, sn_in, sn_out)
    else cand_no_reply st in
  let c_slow :=
    if has_first_reply fr && (or_zero fr >=? 30 * 60)
    then setdefault_append (cand_slow st) mid (cid, or_zero fr, sn_in, sn_out)
    else cand_slow st in
  let c_no_next :=
    if high_intent && responded && negb next_step
    then setdefault_append (cand_no_next st) mid (cid, 50, sn_in, sn_out)
    else cand_no_next st in
  let c_good :=
    if responded && next_step && (questions >=? 1) && has_first_reply fr
       && (or_zero fr <=? 10 * 60)
    then setdefault_append (cand_good st) mid (cid, 10 * 60 - or_zero fr, sn_in, sn_out)
    else cand_good st in
  {| first_reply_values_by_mgr := frv;
     cand_no_reply := c_no_reply;
     cand_slow := c_slow;
     cand_no_next := c_no_next;
     cand_good := c_good |}.

(** [for cid, ms in by_chat.items()]: [by_chat] lists the chats in
    insertion order, each with its messages sorted by [sent_at]. *)
Definition process_chats (t : chat_tables) (by_chat : list (string * list Msg))
  : digest_state :=
  foldl (process_chat t) empty_state by_chat.
End Detectors.

(** ** Median and p90 of the snapshot *)

(** [frs[len(frs) // 2] if frs else None]. *)
Definition digest_median (values : list Z) : outcome (option Z) :=
  let frs := sorted values in
  match frs with
  | [] => Returned None
  | _ => bind (index frs (Z.of_nat (length frs) / 2)) (λ v, Returned (Some v))
  end.

(** [frs[int(len(frs) * 0.9)] if frs else None]. *)
Definition digest_p90 (values : list Z) : outcome (option Z) :=
  let frs := sorted values in
  match frs with
  | [] => Returned None
  | _ =>
      match PyFloat.to_int (PyFloat.mul (PyFloat.of_int (Z.of_nat (length frs))) PyFloat.lit_0_9) with
      | None => Raised OverflowError
      | Some i => bind (index frs i) (λ v, Returned (Some v))
      end
  end.

(** [sorted(first_reply_values_by_mgr.get(mid, []))] feeds both. *)
Definition snapshot_median (st : digest_state) (mid : string) : outcome (option Z) :=
  digest_median (default [] (first_reply_values_by_mgr st !! mid)).

Definition snapshot_p90 (st : digest_state) (mid : string) : outcome (option Z) :=
  digest_p90 (default [] (first_reply_values_by_mgr st !! mid)).

(** ** Top three of a category *)

Definition pick_top (cands : gmap string (list cand)) (reverse : bool)
  : gmap string (list cand) :=
  (λ items, take 3 (sorted_by cand_score reverse items)) <$> cands.

Definition top_good (st : digest_state) : gmap string (list cand) :=
  pick_top (cand_good st) true.
Definition top_slow (st : digest_state) : gmap string (list cand) :=
  pick_top (cand_slow st) true.
Definition top_no_reply (st : digest_state) : gmap string (list cand) :=
  pick_top (cand_no_reply st) true.
Definition top_no_next (st : digest_state) : gmap string (list cand) :=
  pick_top (cand_no_next st) true.

(** An example row, without the constants [run_ts] and [note] and without
    the looked-up display name. *)
Record example_row : Type := {
  ex_manager_id : string;
  ex_category : string;
  ex_chat_id : string;
  snippet_in : Py.text;
  snippet_out : Py.text;
}.

Definition rows_of (category : string) (top : gmap string (list cand)) : list example_row :=
  '(mid, items) ← map_to_list top;
  (λ c, {| ex_manager_id := mid; ex_category := category; ex_chat_id := cand_chat c;
           snippet_in := cand_sn_in c; snippet_out := cand_sn_out c |}) <$> items.

(** The rows of [weekly_examples]; rows of one category come manager by
    manager, in the order of the dict, which a [gmap] does not record. *)
Definition examples (st : digest_state) : list example_row :=
  rows_of "no_reply" (top_no_reply st) ++ rows_of "slow_reply" (top_slow st)
  ++ rows_of "no_next_step_high_intent" (top_no_next st) ++ rows_of "good" (top_good st).

(** ** Baseline and deltas *)

Definition timedelta_days (d : Z) : Z := d * analysis_rules.us_per_day.

Section Deltas.
(** [V]: a cell of a row; [F]: a float; [_to_float] parses a cell;
    [round_sub cur base] is [round(cur - base, 4)]. *)
Context {V F : Type}.
Variable _to_float : V → option F.
Variable round_sub : F → F → F.

(** A row of the history sheet or of [out_rows]: [run_ts] through
    [_parse_dt], [manager_id] through [str(.. or "")]. *)
Record row : Type := {
  run_ts : option datetime;
  row_manager_id : string;
  cells : gmap string V;
}.

Record baseline_state : Type := {
  baseline : gmap string row;
  best_ts : gmap string datetime;
}.

Definition baseline_step (cutoff : datetime) (b : baseline_state) (r : row)
  : baseline_state :=
  match run_ts r with
  | None => b
  | Some ts =>
      if ts >? cutoff then b
      else
        let mid := row_manager_id r in
        if match best_ts b !! mid with
           | None => true
           | Some best => ts >? best
           end
        then {| baseline := <[mid := r]> (baseline b);
                best_ts := <[mid := ts]> (best_ts b) |}
        else b
  end.

Definition select_baseline (now : datetime) (hist_rows : list row) : baseline_state :=
  let cutoff := now - timedelta_days 6 in
  foldl (baseline_step cutoff) {| baseline := ∅; best_ts := ∅ |} hist_rows.

Definition delta_keys : list string :=
  ["response_rate"; "no_reply_rate"; "avg_questions_per_chat"; "next_step_rate";
   "spin_rate"; "upsell_rate"; "follow_up_gap_rate"; "median_first_reply_sec";
   "p90_first_reply_sec"]%string.

(** A [delta_*] cell: the empty string or a number. *)
Inductive delta_cell : Type :=
| DEmpty
| DNum (f : F).

Definition delta_of (b : option row) (r : row) (k : string) : delta_cell :=
  let cur := cells r !! k ≫= _to_float in
  let base_val :=
    match b with
    | Some b => cells b !! k ≫= _to_float
    | None => None
    end in
  match cur, base_val with
  | Some c, Some v => DNum (round_sub c v)
  | _, _ => DEmpty
  end.

(** The [delta_*] columns added to one row of [out_rows]. *)
Definition delta_row (bl : baseline_state) (r : row) : gmap string delta_cell :=
  let b := baseline bl !! row_manager_id r in
  foldl (λ d k, <[("delta_" +:+ k)%string := delta_of b r k]> d) ∅ delta_keys.
End Deltas.

End behavior_digest.

(* ===================================================================== *)
(** * Specification-side definitions *)
(* ===================================================================== *)

Module Spec.
Import Py analysis_rules.

(** The days [a, a+1, ..., b]. *)
Definition days_between (a b : Z) : list Z :=
  (λ i : nat, a + Z.of_nat i) <$> seq 0 (Z.to_nat (b - a + 1)).

(** Whole seconds of the overlap of [[s, e]] with the window of day [d];
    nothing when the overlap is not positive. *)
Definition overlap_secs (s e : datetime) (work_start work_end : time) (d : Z) : Z :=
  let seg := Z.min e (combine d work_end) - Z.max s (combine d work_start) in
  if seg >? 0 then seg / us_per_sec else 0.

(** The spec's words: walk the calendar days from [start.date()] to
    [end.date()] inclusive and add up the overlaps. *)
Definition spec_elapsed (s e : datetime) (work_start work_end : time) : Z :=
  foldr Z.add 0 (overlap_secs s e work_start work_end <$> days_between (date_of s) (date_of e)).

(** The parseable stamps of the inbound and of the outbound messages. *)
Definition inbound_times (messages : list message) : list datetime :=
  omap sentAt (filter (λ m, direction m = "in"%string) messages).
Definition outbound_times (messages : list message) : list datetime :=
  omap sentAt (filter (λ m, direction m = "out"%string) messages).

(** The texts of the inbound and of the outbound messages, in order. *)
Definition inbound_texts (messages : list message) : list Py.text :=
  text <$> filter (λ m, direction m = "in"%string) messages.
Definition outbound_texts (messages : list message) : list Py.text :=
  text <$> filter (λ m, direction m = "out"%string) messages.

(** The spec's words for [unanswered_inbound]: the inbound stamps strictly
    after the last outbound stamp, or all of them without any. *)
Definition spec_unanswered (messages : list message) : Z :=
  match max_opt (outbound_times messages) with
  | None => Z.of_nat (length (inbound_times messages))
  | Some lo => Z.of_nat (length (filter (λ t, lo < t) (inbound_times messages)))
  end.

(** Two message lists that differ at most in the texts of the inbound
    messages after the sixth and of the outbound messages after the sixth. *)
Definition agree_but_late_texts (ms1 ms2 : list message) : Prop :=
  Forall2 (λ a b, direction a = direction b ∧ sentAt a = sentAt b) ms1 ms2
  ∧ take 6 (inbound_texts ms1) = take 6 (inbound_texts ms2)
  ∧ take 6 (outbound_texts ms1) = take 6 (outbound_texts ms2).

(** A time of day [h:m:sec], and the stamp of that time on day [d]. *)
Definition hms (h m sec : Z) : time := ((h * 60 + m) * 60 + sec) * us_per_sec.
Definition on_day (d : Z) (t : time) : datetime := combine d t.

(** Nearest integer to [num / den], ties to the even one, in exact
    arithmetic ([den > 0], [num >= 0]). *)
Definition round_half_even (num den : Z) : Z :=
  let q := num / den in
  let r := num mod den in
  match Z.compare (2 * r) den with
  | Lt => q
  | Gt => q + 1
  | Eq => if Z.even q then q else q + 1
  end.

(** The rank [round((n-1) * p)] clamped to [[0, n-1]], in exact
    arithmetic, for [p = pnum / pden]. *)
Definition nearest_rank (n : Z) (pnum pden : Z) : Z :=
  Z.max 0 (Z.min (n - 1) (round_half_even ((n - 1) * pnum) pden)).

(** The float rank of [_pct] for a sample of [n] values is the exact one. *)
Definition rank_agrees (p : spec_float) (pnum pden : Z) (n : Z) : bool :=
  match PyFloat.round (PyFloat.mul (PyFloat.of_int (n - 1)) p) with
  | Some r => r =? round_half_even ((n - 1) * pnum) pden
  | None => false
  end.

(** The float index [int(n * 0.9)] of the digest is the exact floor. *)
Definition floor_agrees (n : Z) : bool :=
  match PyFloat.to_int (PyFloat.mul (PyFloat.of_int n) PyFloat.lit_0_9) with
  | Some i => i =? 9 * n / 10
  | None => false
  end.

(** Sample sizes on which the float ranks are checked by evaluation. *)
Definition checked_sizes : Z := 10000.

Fixpoint all_from (f : Z → bool) (start : Z) (count : nat) : bool :=
  match count with
  | O => true
  | S c => f start && all_from f (start + 1) c
  end.

(** A history of one manager with snapshots 10, 7, 3 and 1 days before
    day 20, and a fresh row of another manager. *)
Definition sample_row (day : Z) : @behavior_digest.row Z :=
  {| behavior_digest.run_ts := Some (on_day day 0);
     behavior_digest.row_manager_id := "7";
     behavior_digest.cells := ∅ |}.

Definition sample_history : list (@behavior_digest.row Z) :=
  [sample_row 10; sample_row 13; sample_row 17; sample_row 19].

Definition sample_new_row (day : Z) : @behavior_digest.row Z :=
  {| behavior_digest.run_ts := Some (on_day day 0);
     behavior_digest.row_manager_id := "8";
     behavior_digest.cells := {[ "response_rate"%string := 1 ]} |}.

(** The redacted text before the final cut to [max_len] characters. *)
Definition redacted_full (s : Py.text) : Py.text :=
  Re.strip (Re.replace_nl
    (Re.sub behavior_digest._RE_PHONE (lit "***")
       (Re.sub behavior_digest._RE_LONG_DIGITS (lit "***")
          (Re.sub behavior_digest._RE_EMAIL (lit "[email]")
             (Re.sub behavior_digest._RE_URL (lit "[link]") s))))).

(** What the baseline fold has established after the rows of [l]. *)
Definition baseline_inv {V : Type} (cutoff : Z) (l : list (@behavior_digest.row V))
    (b : @behavior_digest.baseline_state V) : Prop :=
  ∀ mid,
    match behavior_digest.baseline b !! mid with
    | Some r =>
        r ∈ l ∧ behavior_digest.row_manager_id r = mid
        ∧ ∃ ts, behavior_digest.run_ts r = Some ts
                ∧ behavior_digest.best_ts b !! mid = Some ts ∧ ts <= cutoff
                ∧ ∀ r' ts', r' ∈ l → behavior_digest.row_manager_id r' = mid →
                            behavior_digest.run_ts r' = Some ts' → ts' <= cutoff → ts' <= ts
    | None =>
        behavior_digest.best_ts b !! mid = None
        ∧ ∀ r' ts', r' ∈ l → behavior_digest.row_manager_id r' = mid →
                    behavior_digest.run_ts r' = Some ts' → cutoff < ts'
    end.

(** What a candidate of [cand_good] stands for. *)
Definition good_chat (kw_nextstep re_interrogative : Py.text → bool)
    (t : behavior_digest.chat_tables) (mid : string) (c : behavior_digest.cand)
    (entry : string * list behavior_digest.Msg) : Prop :=
  behavior_digest.resolve_mid t entry.1 entry.2 = mid
  ∧ behavior_digest.cand_chat c = entry.1
  ∧ behavior_digest.responded_of entry.2 = true
  ∧ behavior_digest.next_step_of kw_nextstep entry.2 = true
  ∧ 1 <= behavior_digest.questions_of re_interrogative entry.2
  ∧ ∃ v, mjoin (behavior_digest.chat_first_reply_sec t !! entry.1) = Some v
         ∧ 0 < v ∧ v <= 10 * 60
         ∧ behavior_digest.cand_score c = 10 * 60 - v.

Definition good_inv (kw_nextstep re_interrogative : Py.text → bool)
    (t : behavior_digest.chat_tables) (l : list (string * list behavior_digest.Msg))
    (st : behavior_digest.digest_state) : Prop :=
  ∀ mid cands c, behavior_digest.cand_good st !! mid = Some cands → c ∈ cands →
                 ∃ entry, entry ∈ l ∧ good_chat kw_nextstep re_interrogative t mid c entry.

(** The three accumulators that read the stored first-reply time. *)
Definition same_first_reply_part (st1 st2 : behavior_digest.digest_state) : Prop :=
  behavior_digest.first_reply_values_by_mgr st1 = behavior_digest.first_reply_values_by_mgr st2
  ∧ behavior_digest.cand_slow st1 = behavior_digest.cand_slow st2
  ∧ behavior_digest.cand_good st1 = behavior_digest.cand_good st2.

(** A snippet: empty, or the redaction of the text of a message. *)
Definition from_redaction (ms : list behavior_digest.Msg) (x : Py.text) : Prop :=
  x = [] ∨ ∃ m, m ∈ ms ∧ x = behavior_digest._redact_text (behavior_digest.text m).

(** A candidate carries the snippets of one of the chats. *)
Definition snip_ok (by_chat : list (string * list behavior_digest.Msg))
    (c : behavior_digest.cand) : Prop :=
  ∃ cid ms, (cid, ms) ∈ by_chat
            ∧ (behavior_digest.cand_sn_in c, behavior_digest.cand_sn_out c)
              = behavior_digest._chat_snippet ms.

Definition all_cands_ok (by_chat : list (string * list behavior_digest.Msg))
    (d : gmap string (list behavior_digest.cand)) : Prop :=
  ∀ mid cands c, d !! mid = Some cands → c ∈ cands → snip_ok by_chat c.

Definition snip_inv (by_chat : list (string * list behavior_digest.Msg))
    (st : behavior_digest.digest_state) : Prop :=
  all_cands_ok by_chat (behavior_digest.cand_no_reply st)
  ∧ all_cands_ok by_chat (behavior_digest.cand_slow st)
  ∧ all_cands_ok by_chat (behavior_digest.cand_no_next st)
  ∧ all_cands_ok by_chat (behavior_digest.cand_good st).

(** The newline-to-space map of [replace_nl]. *)
Definition nl_to_space (c : Py.char) : Py.char := if (c =? 10)%N then 32%N else c.

(** The tables with the stored first-reply time of one chat replaced. *)
Definition with_first_reply (t : behavior_digest.chat_tables) (cid : string)
    (fr : option Z) : behavior_digest.chat_tables :=
  {| behavior_digest.mgr_name_by_id := behavior_digest.mgr_name_by_id t;
     behavior_digest.chat_mgr_id := behavior_digest.chat_mgr_id t;
     behavior_digest.chat_mgr_name := behavior_digest.chat_mgr_name t;
     behavior_digest.chat_first_reply_sec :=
       <[cid := fr]> (behavior_digest.chat_first_reply_sec t);
     behavior_digest.chat_no_reply := behavior_digest.chat_no_reply t;
     behavior_digest.chat_unanswered := behavior_digest.chat_unanswered t |}.

(** Sample detectors and inputs for the runs on concrete chats. *)
Definition quiet : Py.text → bool := λ _, false.
Definition has_qmark : Py.text → bool := λ t, bool_decide (63%N ∈ t).

Definition sample_compute := compute_chat_metrics has_qmark quiet quiet quiet quiet.

(** A chat of manager 7: the customer asks, the manager answers with a
    question.  Its text has a question mark, which both the next-step
    pattern and the question counter of the digest accept, and none of
    the interrogative words. *)
Definition sample_msg (dir role : string) (t : Py.text) : behavior_digest.Msg :=
  {| behavior_digest.chat_id := "c1"; behavior_digest.sent_at := Some 0;
     behavior_digest.direction := dir; behavior_digest.manager_id := "7";
     behavior_digest.message_type := "TEXT"; behavior_digest.author_type := role;
     behavior_digest.text := t |}.

Definition sample_chat : list behavior_digest.Msg :=
  [sample_msg "in" "customer" (lit "hello"); sample_msg "out" "user" (lit "ok?")].

Definition sample_tables (fr : option Z) : behavior_digest.chat_tables :=
  behavior_digest.read_chats
    [ {| behavior_digest.r_chat_id := "c1"; behavior_digest.r_manager_id := "7";
         behavior_digest.r_manager_name := "Ann";
         behavior_digest.r_first_response_sec := fr;
         behavior_digest.r_unanswered_inbound := Some 0;
         behavior_digest.r_inbound_count := Some 1;
         behavior_digest.r_outbound_count := Some 1 |} ].

Definition sample_run (fr : option Z) : behavior_digest.digest_state :=
  behavior_digest.process_chats quiet has_qmark quiet (sample_tables fr)
    [("c1"%string, sample_chat)].

(** One inbound message and seven outbound ones, the last with text [t]. *)
Definition seven_out (t : Py.text) : list message :=
  {| direction := "in"; sentAt := Some 0; text := lit "hi" |}
  :: replicate 6 {| direction := "out"; sentAt := Some 1; text := lit "ok" |}
  ++ [ {| direction := "out"; sentAt := Some 2; text := t |} ].

End Spec.

(* ===================================================================== *)
(** * More of the Python run time: [str] methods, ordered dicts *)
(* ===================================================================== *)

Module PyStr.
Import Py Re.

#[global] Instance outcome_ret : MRet outcome := λ A a, Returned a.
#[global] Instance outcome_bind : MBind outcome := λ A B k c, bind c k.

(** [s.split(sep, 1)] for a one-character [sep]: the part before the first
    [sep], and the part after it when there is one. *)
Fixpoint split_once (sep : char) (s : text) : text * option text :=
  match s with
  | [] => ([], None)
  | c :: s' =>
      if (c =? sep)%N then ([], Some s')
      else let '(a, b) := split_once sep s' in (c :: a, b)
  end.

(** [a, b = parts]: unpacking a list of one part raises. *)
Definition unpack2 (parts : text * option text) : outcome (text * text) :=
  match parts with
  | (a, Some b) => Returned (a, b)
  | (_, None) => Raised (ValueError "not enough values to unpack (expected 2, got 1)")
  end.

Definition digit_val (c : char) : option Z :=
  if is_digit c then Some (Z.of_N c - 48) else None.

(** The digits after the first one of a decimal literal: single
    underscores may sit between digits. *)
Fixpoint int_digits (acc : Z) (s : text) : option Z :=
  match s with
  | [] => Some acc
  | c :: s' =>
      if (c =? 95)%N then
        match s' with
        | d :: s'' =>
            match digit_val d with
            | Some v => int_digits (acc * 10 + v) s''
            | None => None
            end
        | [] => None
        end
      else
        match digit_val c with
        | Some v => int_digits (acc * 10 + v) s'
        | None => None
        end
  end.

(** [s.strip(chars)], [s.lstrip(chars)] for a class of characters. *)
Fixpoint lstrip_by (p : char → bool) (s : text) : text :=
  match s with
  | c :: s' => if p c then lstrip_by p s' else s
  | [] => []
  end.
Definition strip_by (p : char → bool) (s : text) : text :=
  reverse (lstrip_by p (reverse (lstrip_by p s))).

(** The white space [int] skips around a literal: that of [str.strip]
    without the four separators U+001C to U+001F. *)
Definition is_int_space (c : char) : bool := is_space c && negb (in_range 28 31 c).

(** [int(s)] for a [str]: white space around the literal is dropped, a
    sign may come first, then decimal digits.  (The digit class is the
    ASCII one, as for the patterns; the interpreter's limit on the length
    of a literal, 4300 digits unless configured, is not modelled.) *)
Definition int_of_str (s : text) : outcome Z :=
  let s := strip_by is_int_space s in
  let '(neg, body) :=
    match s with
    | c :: r =>
        if is_chr "-" c then (true, r)
        else if is_chr "+" c then (false, r)
        else (false, s)
    | [] => (false, [])
    end in
  match body with
  | d :: r =>
      match digit_val d ≫= (λ v, int_digits v r) with
      | Some n => Returned (if neg : bool then - n else n)
      | None => Raised (ValueError "invalid literal for int() with base 10")
      end
  | [] => Raised (ValueError "invalid literal for int() with base 10")
  end.

(** [s.startswith(c)] for a one-character prefix. *)
Definition startswith (c : char) (s : text) : bool :=
  match s with
  | c' :: _ => (c' =? c)%N
  | [] => false
  end.

(** [s.strip(c)]: every leading and trailing [c] is dropped. *)
Definition strip_chr (c : char) (s : text) : text :=
  strip_by (λ c', (c' =? c)%N) s.

(** [a < b] on [str]: lexicographic on the code points. *)
Fixpoint text_ltb (a b : text) : bool :=
  match a, b with
  | _, [] => false
  | [], _ :: _ => true
  | x :: a', y :: b' => (x <? y)%N || ((x =? y)%N && text_ltb a' b')
  end.

(** ** A [dict] that remembers the order of insertion *)

Section OrderedDict.
Context {K V : Type} `{EqDecision K}.

Definition odict : Type := list (K * V).

(** [d.get(k)]. *)
Fixpoint od_get (d : odict) (k : K) : option V :=
  match d with
  | [] => None
  | (k', v) :: d' => if decide (k' = k) then Some v else od_get d' k
  end.

(** [d[k] = f(d.get(k))]: a new key goes last, a key already there keeps
    its place. *)
Fixpoint od_set (k : K) (f : option V → V) (d : odict) : odict :=
  match d with
  | [] => [(k, f None)]
  | (k', v) :: d' =>
      if decide (k' = k) then (k', f (Some v)) :: d'
      else (k', v) :: od_set k f d'
  end.

(** [s = d.setdefault(k, v0)] followed by updates of [s] in place. *)
Definition od_setdefault_update (k : K) (v0 : V) (f : V → V) (d : odict) : odict :=
  od_set k (λ o, f (default v0 o)) d.
End OrderedDict.
Arguments odict : clear implicits.

(** The accumulation loop
    [for r in rows: s = d.setdefault(key(r), new(r)); add(s, r)]. *)
Definition group_fold {R K V : Type} `{EqDecision K}
    (key : R → K) (new : R → V) (add : V → R → V) (rows : list R) : odict K V :=
  foldl (λ d r, od_setdefault_update (key r) (new r) (λ s, add s r) d) [] rows.

(** A loop that builds a list and stops at the first error. *)
Fixpoint mapM {A B : Type} (f : A → outcome B) (l : list A) : outcome (list B) :=
  match l with
  | [] => Returned []
  | x :: l' => y ← f x; ys ← mapM f l'; mret (y :: ys)
  end.

(** [sorted(l, key=...)] for a key with the strict order [lt]: stable. *)
Section SortedLt.
Context {A : Type} (lt : A → A → bool).

Fixpoint insert_lt (x : A) (l : list A) : list A :=
  match l with
  | [] => [x]
  | y :: l' => if lt y x then y :: insert_lt x l' else x :: l
  end.

Definition sorted_lt (l : list A) : list A := foldr insert_lt [] l.
End SortedLt.

End PyStr.

(* ===================================================================== *)
(** * analysis_rules.py: the work-hours setting *)
(* ===================================================================== *)

Module work_hours.
Import Py Re PyStr analysis_rules.

(** An argument that fits a C [int]. *)
Definition c_int (n : Z) : bool := (- 2 ^ 31 <=? n) && (n <=? 2 ^ 31 - 1).

(** [datetime.time(hour, minute)]: the arguments are converted to C
    [int]s, then checked against their ranges. *)
Definition time_of (hour minute : Z) : outcome time :=
  if negb (c_int hour && c_int minute) then Raised OverflowError
  else if negb ((0 <=? hour) && (hour <=? 23)) then
    Raised (ValueError "hour must be in 0..23")
  else if negb ((0 <=? minute) && (minute <=? 59)) then
    Raised (ValueError "minute must be in 0..59")
  else Returned ((hour * 60 + minute) * 60 * us_per_sec).

Definition _parse_work_hours (work_hours : Py.text) : outcome (time * time) :=
  let s := strip work_hours in
  '(a, b) ← unpack2 (split_once (chr "-") s);
  '(h1, m1) ← unpack2 (split_once (chr ":") (strip a));
  '(h2, m2) ← unpack2 (split_once (chr ":") (strip b));
  h1 ← int_of_str h1;
  m1 ← int_of_str m1;
  start ← time_of h1 m1;
  h2 ← int_of_str h2;
  m2 ← int_of_str m2;
  end_ ← time_of h2 m2;
  mret (start, end_).

Section Detectors.
Variables (_RE_HAS_QUESTION _RE_PRICE_INTENT _RE_BUY_INTENT
           _RE_AVAIL_INTENT _RE_NEXT_STEP : Py.text → bool).

(** [compute_chat_metrics] from its [work_hours] argument: the setting is
    parsed before any stamp is compared. *)
Definition compute_chat_metrics_from (messages : list message) (work_hours : Py.text)
    (slow_first_reply_sec : Z) : outcome ChatMetrics :=
  '(work_start, work_end) ← _parse_work_hours work_hours;
  compute_chat_metrics _RE_HAS_QUESTION _RE_PRICE_INTENT _RE_BUY_INTENT
    _RE_AVAIL_INTENT _RE_NEXT_STEP messages work_start work_end slow_first_reply_sec.
End Detectors.

End work_hours.

(* ===================================================================== *)
(** * analysis_rules.py: the two summaries *)
(* ===================================================================== *)

Module summary.
Import Py PyStr analysis_rules.

(** A [ChatMetrics] with its identification fields, which
    [compute_chat_metrics] copies from the chat. *)
Record metrics_row : Type := {
  channel : Py.text;
  manager_id : option Py.text;
  manager_name : Py.text;
  metrics : ChatMetrics;
}.

(** A number or the empty string. *)
Inductive rate_cell : Type :=
| RateEmpty
| Rate (f : spec_float).

(** [float(a) / float(b)]. *)
Definition ratio (a b : Z) : spec_float :=
  PyFloat.div (PyFloat.of_int a) (PyFloat.of_int b).

(** [1 if cond else 0], added to a counter. *)
Definition bump (cond : bool) (n : Z) : Z := if cond then n + 1 else n.

Definition is_no_reply (r : metrics_row) : bool :=
  (outbound_count (metrics r) =? 0) && (inbound_count (metrics r) >? 0).

Definition is_slow (r : metrics_row) : bool :=
  match first_response_sec (metrics r) with
  | Some v => v >? 10 * 60
  | None => false
  end.

Definition is_responded (r : metrics_row) : bool :=
  match first_response_sec (metrics r) with
  | Some _ => true
  | None => false
  end.

(** ** [aggregate_manager_summary] *)

(** The dict kept per manager. *)
Record mgr_acc : Type := {
  a_manager_id : Py.text;
  a_manager_name : Py.text;
  a_chats : Z;
  a_inbound : Z;
  a_outbound : Z;
  a_unanswered_inbound : Z;
  a_slow_first_reply_chats : Z;
  a_no_reply_chats : Z;
  a_responded_chats : Z;
  a_first_reply_secs : list Z;
}.

(** [(r.manager_id or "", r.manager_name or "")]. *)
Definition mgr_key (r : metrics_row) : Py.text * Py.text :=
  (default [] (manager_id r), manager_name r).

Definition mgr_new (r : metrics_row) : mgr_acc :=
  {| a_manager_id := default [] (manager_id r);
     a_manager_name := manager_name r;
     a_chats := 0; a_inbound := 0; a_outbound := 0; a_unanswered_inbound := 0;
     a_slow_first_reply_chats := 0; a_no_reply_chats := 0; a_responded_chats := 0;
     a_first_reply_secs := [] |}.

Definition mgr_add (s : mgr_acc) (r : metrics_row) : mgr_acc :=
  {| a_manager_id := a_manager_id s;
     a_manager_name := a_manager_name s;
     a_chats := a_chats s + 1;
     a_inbound := a_inbound s + inbound_count (metrics r);
     a_outbound := a_outbound s + outbound_count (metrics r);
     a_unanswered_inbound := a_unanswered_inbound s + unanswered_inbound (metrics r);
     a_slow_first_reply_chats := bump (is_slow r) (a_slow_first_reply_chats s);
     a_no_reply_chats := bump (is_no_reply r) (a_no_reply_chats s);
     a_responded_chats := bump (is_responded r) (a_responded_chats s);
     a_first_reply_secs :=
       match first_response_sec (metrics r) with
       | Some v => a_first_reply_secs s ++ [v]
       | None => a_first_reply_secs s
       end |}.

Definition by_mgr (rows : list metrics_row) : odict (Py.text * Py.text) mgr_acc :=
  group_fold mgr_key mgr_new mgr_add rows.

(** A row of the manager summary. *)
Record mgr_row : Type := {
  m_manager_id : Py.text;
  m_manager_name : Py.text;
  m_chats : Z;
  m_inbound : Z;
  m_outbound : Z;
  m_unanswered_inbound : Z;
  m_slow_first_reply_chats : Z;
  m_no_reply_chats : Z;
  m_responded_chats : Z;
  m_median_first_reply_sec : cell;
  m_p90_first_reply_sec : cell;
  m_response_rate : rate_cell;
}.

Definition mgr_out (s : mgr_acc) : outcome mgr_row :=
  let vals := a_first_reply_secs s in
  median ← manager_cell vals PyFloat.lit_0_5;
  p90 ← manager_cell vals PyFloat.lit_0_9;
  let inbound_chats := a_chats s in
  mret {| m_manager_id := a_manager_id s;
          m_manager_name := a_manager_name s;
          m_chats := a_chats s;
          m_inbound := a_inbound s;
          m_outbound := a_outbound s;
          m_unanswered_inbound := a_unanswered_inbound s;
          m_slow_first_reply_chats := a_slow_first_reply_chats s;
          m_no_reply_chats := a_no_reply_chats s;
          m_responded_chats := a_responded_chats s;
          m_median_first_reply_sec := median;
          m_p90_first_reply_sec := p90;
          m_response_rate :=
            if inbound_chats =? 0 then RateEmpty
            else Rate (ratio (a_responded_chats s) inbound_chats) |}.

(** The order of the key [(-int(x["chats"]), x["manager_name"])]. *)
Definition key_ltb (a b : Z * Py.text) : bool :=
  (fst a <? fst b) || ((fst a =? fst b) && text_ltb (snd a) (snd b)).

Definition mgr_sort_key (x : mgr_row) : Z * Py.text := (- m_chats x, m_manager_name x).

Definition aggregate_manager_summary (rows : list metrics_row) : outcome (list mgr_row) :=
  out ← mapM mgr_out (snd <$> by_mgr rows);
  mret (sorted_lt (λ a b, key_ltb (mgr_sort_key a) (mgr_sort_key b)) out).

(** ** [aggregate_channel_summary] *)

Record ch_acc : Type := {
  c_channel : Py.text;
  c_chats : Z;
  c_inbound : Z;
  c_outbound : Z;
  c_no_reply_chats : Z;
  c_slow_first_reply_chats : Z;
  c_responded_chats : Z;
  c_first_reply_secs : list Z;
}.

Record ch_row : Type := {
  h_channel : Py.text;
  h_chats : Z;
  h_inbound : Z;
  h_outbound : Z;
  h_no_reply_chats : Z;
  h_slow_first_reply_chats : Z;
  h_responded_chats : Z;
  h_median_first_reply_sec : cell;
  h_p90_first_reply_sec : cell;
  h_response_rate : rate_cell;
}.

Section Channel.
(** [str.lower]. *)
Variable str_lower : Py.text → Py.text.

(** [(r.channel or "").lower() or "unknown"]. *)
Definition ch_key (r : metrics_row) : Py.text :=
  match str_lower (channel r) with
  | [] => lit "unknown"
  | ch => ch
  end.

Definition ch_new (r : metrics_row) : ch_acc :=
  {| c_channel := ch_key r;
     c_chats := 0; c_inbound := 0; c_outbound := 0; c_no_reply_chats := 0;
     c_slow_first_reply_chats := 0; c_responded_chats := 0; c_first_reply_secs := [] |}.

Definition ch_add (s : ch_acc) (r : metrics_row) : ch_acc :=
  {| c_channel := c_channel s;
     c_chats := c_chats s + 1;
     c_inbound := c_inbound s + inbound_count (metrics r);
     c_outbound := c_outbound s + outbound_count (metrics r);
     c_no_reply_chats := bump (is_no_reply r) (c_no_reply_chats s);
     c_slow_first_reply_chats := bump (is_slow r) (c_slow_first_reply_chats s);
     c_responded_chats := bump (is_responded r) (c_responded_chats s);
     c_first_reply_secs :=
       match first_response_sec (metrics r) with
       | Some v => c_first_reply_secs s ++ [v]
       | None => c_first_reply_secs s
       end |}.

Definition by_ch (rows : list metrics_row) : odict Py.text ch_acc :=
  group_fold ch_key ch_new ch_add rows.

Definition ch_out (s : ch_acc) : outcome ch_row :=
  let vals := c_first_reply_secs s in
  median ← channel_cell vals PyFloat.lit_0_5;
  p90 ← channel_cell vals PyFloat.lit_0_9;
  mret {| h_channel := c_channel s;
          h_chats := c_chats s;
          h_inbound := c_inbound s;
          h_outbound := c_outbound s;
          h_no_reply_chats := c_no_reply_chats s;
          h_slow_first_reply_chats := c_slow_first_reply_chats s;
          h_responded_chats := c_responded_chats s;
          h_median_first_reply_sec := median;
          h_p90_first_reply_sec := p90;
          h_response_rate :=
            if c_chats s =? 0 then RateEmpty
            else Rate (ratio (c_responded_chats s) (c_chats s)) |}.

Definition ch_sort_key (x : ch_row) : Z * Py.text := (- h_chats x, h_channel x).

Definition aggregate_channel_summary (rows : list metrics_row) : outcome (list ch_row) :=
  out ← mapM ch_out (snd <$> by_ch rows);
  mret (sorted_lt (λ a b, key_ltb (ch_sort_key a) (ch_sort_key b)) out).
End Channel.

End summary.

(* ===================================================================== *)
(** * sheets.py: tables written to a sheet *)
(* ===================================================================== *)

Module sheets.
Import Py.

(** [dicts_to_table]: the header, then one line per dict with the values
    of the header's keys and the empty string for a missing key.  The
    cells are texts, as a sheet gives them back. *)
Definition dicts_to_table (dict_rows : list (gmap Py.text Py.text)) (header : list Py.text)
  : list (list Py.text) :=
  header :: ((λ r, (λ k, default [] (r !! k)) <$> header) <$> dict_rows).

End sheets.

(* ===================================================================== *)
(** * behavior_digest.py: what the run reads *)
(* ===================================================================== *)

Module digest_input.
Import Py Re PyStr behavior_digest.

(** ** [_load_env] *)

(** [c in s]. *)
Definition contains (c : char) (s : Py.text) : bool := bool_decide (c ∈ s).

(** One line of the file: blank lines, comments and lines without ["="]
    are skipped; the value loses the white space around it, then the
    double quotes, then the single quotes at its ends. *)
Definition env_line (env : gmap Py.text Py.text) (line : Py.text)
  : outcome (gmap Py.text Py.text) :=
  let line := strip line in
  if negb (nonempty line) || startswith (chr "#") line || negb (contains (chr "=") line)
  then Returned env
  else
    '(k, v) ← unpack2 (split_once (chr "=") line);
    mret (<[strip k := strip_chr 39%N (strip_chr 34%N (strip v))]> env).

Fixpoint env_lines (env : gmap Py.text Py.text) (lines : list Py.text)
  : outcome (gmap Py.text Py.text) :=
  match lines with
  | [] => Returned env
  | line :: rest => env ← env_line env line; env_lines env rest
  end.

(** [_load_env], from the lines of the file
    ([env_path.read_text().splitlines()]). *)
Definition _load_env (lines : list Py.text) : outcome (gmap Py.text Py.text) :=
  env_lines ∅ lines.

(** ** [_read_table] *)

(** The loop [for i, k in enumerate(header)] over one line of the sheet,
    from column [i] on. *)
Fixpoint fill_row (i : nat) (header : list Py.text) (row : list Py.text)
    (d : gmap Py.text Py.text) : gmap Py.text Py.text :=
  match header with
  | [] => d
  | k :: header' =>
      fill_row (S i) header' row
        (if nonempty k then <[k := default [] (row !! i)]> d else d)
  end.

(** [_read_table], from [ws.get_all_values()]. *)
Definition _read_table (values : list (list Py.text)) : list (gmap Py.text Py.text) :=
  match values with
  | [] => []
  | header :: rows => (λ row, fill_row 0 header row ∅) <$> rows
  end.

(** ** Messages by chat *)

(** The loop that fills [by_chat]: a row without chat id is skipped, the
    others are appended to the list of their chat. *)
Definition group_messages (rows : list Msg) : odict string (list Msg) :=
  foldl (λ d m,
           if bool_decide (chat_id m = ""%string) then d
           else od_setdefault_update (chat_id m) [] (λ ms, ms ++ [m]) d) [] rows.

End digest_input.

(* ===================================================================== *)
(** * behavior_digest.py: the aggregates per manager *)
(* ===================================================================== *)

Module digest_agg.
Import Py PyStr behavior_digest.

(** The counters of [agg[mid]] that the loop over the chats updates. *)
Record agg_entry : Type := {
  g_manager_id : string;
  g_manager_name : string;
  g_chats : Z;
  g_responded_chats : Z;
  g_no_reply_chats : Z;
  g_questions_sum : Z;
  g_next_step_hits : Z;
  g_spin_hits : Z;
  g_upsell_hits : Z;
  g_follow_gap_hits : Z;
  g_high_intent : Z;
}.

(** [a or b] on [str]. *)
Definition or_str (a b : string) : string := if bool_decide (a = ""%string) then b else a.

(** [mid] and [mname] of a chat, as the loop resolves them. *)
Definition resolve_names (t : chat_tables) (cid : string) (ms : list Msg)
  : string * string :=
  let mid := or_str (default ""%string (chat_mgr_id t !! cid)) "" in
  let mname :=
    or_str (or_str (default ""%string (chat_mgr_name t !! cid))
                   (default ""%string (mgr_name_by_id t !! mid))) "" in
  let mid :=
    if bool_decide (mid = ""%string) then
      match List.find (λ m, _is_manager_msg m && bool_decide (manager_id m ≠ ""%string)) ms with
      | Some m => manager_id m
      | None => mid
      end
    else mid in
  let mname :=
    if bool_decide (mname = ""%string) && bool_decide (mid ≠ ""%string)
    then default ""%string (mgr_name_by_id t !! mid) else mname in
  if bool_decide (mid = ""%string) && bool_decide (mname = ""%string)
  then (""%string, "(unassigned)"%string)
  else (mid, mname).

Definition is_some {A} (o : option A) : bool :=
  match o with
  | Some _ => true
  | None => false
  end.

(** The loop [for m in reversed(ms)] that looks for the last customer
    stamp and the last manager stamp, with its [break]. *)
Fixpoint last_stamps (rev_ms : list Msg) (last_cust_dt last_mgr_dt : option Z)
  : option Z * option Z :=
  match rev_ms with
  | [] => (last_cust_dt, last_mgr_dt)
  | m :: rest =>
      let last_cust_dt :=
        if negb (is_some last_cust_dt) && _is_customer_msg m && is_some (sent_at m)
        then sent_at m else last_cust_dt in
      let last_mgr_dt :=
        if negb (is_some last_mgr_dt) && _is_manager_msg m && is_some (sent_at m)
           && _is_textish m
        then sent_at m else last_mgr_dt in
      if is_some last_cust_dt && is_some last_mgr_dt then (last_cust_dt, last_mgr_dt)
      else last_stamps rest last_cust_dt last_mgr_dt
  end.

(** [follow_gap]: a customer stamp exists and no manager message has a
    later stamp.  The stamps of a chat are compared as numbers: they all
    carry an offset, and are instants, or none does, and they are wall
    clock readings. *)
Definition follow_gap_of (ms : list Msg) : bool :=
  match (last_stamps (reverse ms) None None).1 with
  | Some last_cust_dt =>
      negb (existsb (λ m, _is_manager_msg m
                          && match sent_at m with
                             | Some t => t >? last_cust_dt
                             | None => false
                             end) ms)
  | None => false
  end.

Section Detectors.
Variables (_KW_INTENT _KW_NEXTSTEP _RE_INTERROGATIVE _KW_UPSELL _KW_SPIN_SITUATION
           : Py.text → bool).

Definition spin_of (ms : list Msg) : bool :=
  (questions_of _RE_INTERROGATIVE ms >=? 2)
  && existsb _KW_SPIN_SITUATION (manager_texts ms).

Definition upsell_of (ms : list Msg) : bool := existsb _KW_UPSELL (manager_texts ms).

(** [ensure(mid, mname)] for a manager seen for the first time. *)
Definition agg_new (t : chat_tables) (e : string * list Msg) : agg_entry :=
  {| g_manager_id := (resolve_names t e.1 e.2).1;
     g_manager_name := (resolve_names t e.1 e.2).2;
     g_chats := 0; g_responded_chats := 0; g_no_reply_chats := 0; g_questions_sum := 0;
     g_next_step_hits := 0; g_spin_hits := 0; g_upsell_hits := 0;
     g_follow_gap_hits := 0; g_high_intent := 0 |}.

Definition no_reply_of (t : chat_tables) (e : string * list Msg) : bool :=
  match chat_no_reply t !! e.1 with
  | Some f => negb (f =? 0)
  | None => false
  end.

(** The updates of [a = ensure(mid, mname)] for one chat. *)
Definition agg_add (t : chat_tables) (a : agg_entry) (e : string * list Msg) : agg_entry :=
  let ms := e.2 in
  {| g_manager_id := g_manager_id a;
     g_manager_name := g_manager_name a;
     g_chats := g_chats a + 1;
     g_responded_chats := summary.bump (responded_of ms) (g_responded_chats a);
     g_no_reply_chats := summary.bump (no_reply_of t e) (g_no_reply_chats a);
     g_questions_sum := g_questions_sum a + questions_of _RE_INTERROGATIVE ms;
     g_next_step_hits := summary.bump (next_step_of _KW_NEXTSTEP ms) (g_next_step_hits a);
     g_spin_hits := summary.bump (spin_of ms) (g_spin_hits a);
     g_upsell_hits := summary.bump (upsell_of ms) (g_upsell_hits a);
     g_follow_gap_hits := summary.bump (follow_gap_of ms) (g_follow_gap_hits a);
     g_high_intent := summary.bump (high_intent_of _KW_INTENT ms) (g_high_intent a) |}.

(** [agg] after the loop [for cid, ms in by_chat.items()]. *)
Definition aggregate (t : chat_tables) (by_chat : list (string * list Msg))
  : odict string agg_entry :=
  group_fold (λ e, (resolve_names t e.1 e.2).1) (agg_new t) (agg_add t) by_chat.
End Detectors.

End digest_agg.

(* ===================================================================== *)
(** * Specification-side definitions for the remaining code *)
(* ===================================================================== *)

Module SpecMore.
Import Py Re PyStr analysis_rules Spec.

(** The character of a decimal digit, a number on two digits, and the
    setting "HH:MM-HH:MM". *)
Definition dchar (d : Z) : char := Z.to_N (48 + d).
Definition two_digits (n : Z) : Py.text := [dchar (n / 10); dchar (n mod 10)].
Definition hhmm (h m : Z) : Py.text := two_digits h ++ [chr ":"] ++ two_digits m.
Definition format_hours (h1 m1 h2 m2 : Z) : Py.text :=
  hhmm h1 m1 ++ [chr "-"] ++ hhmm h2 m2.

(** White space only. *)
Definition blank (l : Py.text) : Prop := Forall (λ c, is_space c = true) l.

(** Some outbound stamp is at or after some inbound stamp. *)
Definition replied (ms : list message) : Prop :=
  ∃ ti to, ti ∈ inbound_times ms ∧ to ∈ outbound_times ms ∧ ti <= to.

(** The two texts the content rules read. *)
Definition text_out (ms : list message) : Py.text :=
  join (lit " " ++ [10%N]) (take 6 (outbound_texts ms)).
Definition text_in (ms : list message) : Py.text :=
  join (lit " " ++ [10%N]) (take 6 (inbound_texts ms)).

(** The advice sentences in the order the rules are tried. *)
Definition advice_order : list advice_msg :=
  [AdviceNoReply; AdviceSlowFirstReply; AdviceUnanswered; AdviceFewQuestions;
   AdviceNoNextStep].


(** The distinct elements of a list, in the order of their first
    occurrence. *)
Definition first_seen {K : Type} `{EqDecision K} (l : list K) : list K :=
  foldl (λ acc k, if decide (k ∈ acc) then acc else acc ++ [k]) [] l.

(** Sum of a quantity and number of hits of a test over a list. *)
Definition total {A : Type} (f : A → Z) (l : list A) : Z := foldr Z.add 0 (f <$> l).
Definition count {A : Type} (p : A → bool) (l : list A) : Z :=
  Z.of_nat (length (filter (λ x, p x = true) l)).

(** The rows of one manager, of one channel, and the first-reply times
    of a group of rows, in order. *)
Definition rows_of_manager (rows : list summary.metrics_row) (id name : Py.text)
  : list summary.metrics_row :=
  filter (λ r, summary.mgr_key r = (id, name)) rows.

Definition rows_of_channel (str_lower : Py.text → Py.text)
    (rows : list summary.metrics_row) (ch : Py.text) : list summary.metrics_row :=
  filter (λ r, summary.ch_key str_lower r = ch) rows.

Definition first_reply_secs_of (g : list summary.metrics_row) : list Z :=
  omap (λ r, first_response_sec (summary.metrics r)) g.

(** [a <= b] for the sort key [(-chats, name)]. *)
Definition key_le (a b : Z * Py.text) : Prop := summary.key_ltb b a = false.

(** Three computed chats: two of manager 7 on WhatsApp, written with
    different capitals, and one without manager and channel. *)
Definition sample_metrics (ic oc : Z) (frs : option Z) (un : Z) : ChatMetrics :=
  {| inbound_count := ic; outbound_count := oc; first_inbound_at := None;
     first_outbound_at := None; first_response_sec := frs; last_inbound_at := None;
     last_outbound_at := None; unanswered_inbound := un; advice := [] |}.

Definition sample_rows : list summary.metrics_row :=
  [ {| summary.channel := lit "WhatsApp"; summary.manager_id := Some (lit "7");
       summary.manager_name := lit "Ann"; summary.metrics := sample_metrics 2 1 (Some 30) 0 |};
    {| summary.channel := []; summary.manager_id := None;
       summary.manager_name := []; summary.metrics := sample_metrics 1 0 None 1 |};
    {| summary.channel := lit "whatsapp"; summary.manager_id := Some (lit "7");
       summary.manager_name := lit "Ann"; summary.metrics := sample_metrics 3 2 (Some 900) 1 |} ].

(** [str.lower] on ASCII text. *)
Definition ascii_lower_text (s : Py.text) : Py.text :=
  (λ c, if in_range 65 90 c then (c + 32)%N else c) <$> s.


(** The first non-empty redaction among the texts of the messages that
    pass a test. *)
Definition first_redaction (p : behavior_digest.Msg → bool)
    (ms : list behavior_digest.Msg) : Py.text :=
  default []
    (head (filter (λ x, x ≠ [])
             ((λ m, behavior_digest._redact_text (behavior_digest.text m))
                <$> filter (λ m, p m = true) ms))).

(** A customer message, and a manager message, with a text to quote. *)
Definition quotable_in (m : behavior_digest.Msg) : bool :=
  behavior_digest._is_customer_msg m && behavior_digest._is_textish m
  && behavior_digest.nonempty (behavior_digest.text m).
Definition quotable_out (m : behavior_digest.Msg) : bool :=
  behavior_digest._is_manager_msg m && behavior_digest._is_textish m
  && behavior_digest.nonempty (behavior_digest.text m).

(** A text without digit and without ["@"], and without [":"] or without
    ["/"]: none of the four patterns can match in it. *)
Definition plain (s : Py.text) : Prop :=
  (∀ c, c ∈ s → Re.is_digit c = false ∧ c ≠ Re.chr "@")
  ∧ (Re.chr ":" ∉ s ∨ Re.chr "/" ∉ s).


(** The last row of [chats_raw] with a chat id, the last one that names a
    manager, and the no-reply flag a row gives. *)
Definition last_row_of (cid : string) (rows : list behavior_digest.chat_row)
  : option behavior_digest.chat_row :=
  last (filter (λ r, behavior_digest.r_chat_id r = cid) rows).

Definition last_named (mid : string) (rows : list behavior_digest.chat_row)
  : option behavior_digest.chat_row :=
  last (filter (λ r, behavior_digest.r_manager_id r = mid
                     ∧ behavior_digest.r_manager_name r ≠ ""%string) rows).

Definition no_reply_flag (r : behavior_digest.chat_row) : Z :=
  if (behavior_digest.or_zero (behavior_digest.r_inbound_count r) >? 0)
     && (behavior_digest.or_zero (behavior_digest.r_outbound_count r) =? 0)
  then 1 else 0.

(** A list as the value of a dict that only holds non-empty lists. *)
Definition some_if_nonempty {A : Type} (l : list A) : option (list A) :=
  match l with
  | [] => None
  | _ => Some l
  end.

(** The chats of one manager that pass a test, in the order of
    [by_chat], each turned into a value. *)
Definition chats_of {A : Type} (t : behavior_digest.chat_tables) (mid : string)
    (test : string * list behavior_digest.Msg → bool)
    (mk : string * list behavior_digest.Msg → A)
    (by_chat : list (string * list behavior_digest.Msg)) : list A :=
  mk <$> filter (λ e, behavior_digest.resolve_mid t e.1 e.2 = mid ∧ test e = true) by_chat.

(** The candidate of a chat with a given score. *)
Definition cand_of (score : Z) (e : string * list behavior_digest.Msg)
  : behavior_digest.cand :=
  (e.1, score, (behavior_digest._chat_snippet e.2).1, (behavior_digest._chat_snippet e.2).2).

(** The stored first reply time of a chat, and the tests of the
    categories that read the tables only. *)
Definition stored_first_reply (t : behavior_digest.chat_tables) (cid : string) : option Z :=
  mjoin (behavior_digest.chat_first_reply_sec t !! cid).

Definition flagged_no_reply (t : behavior_digest.chat_tables)
    (e : string * list behavior_digest.Msg) : bool :=
  match behavior_digest.chat_no_reply t !! e.1 with
  | Some f => negb (f =? 0)
  | None => false
  end.

Definition is_slow_chat (t : behavior_digest.chat_tables)
    (e : string * list behavior_digest.Msg) : bool :=
  behavior_digest.has_first_reply (stored_first_reply t e.1)
  && (behavior_digest.or_zero (stored_first_reply t e.1) >=? 30 * 60).

Definition has_positive_reply (t : behavior_digest.chat_tables)
    (e : string * list behavior_digest.Msg) : bool :=
  behavior_digest.has_first_reply (stored_first_reply t e.1).

(** The stored first reply time as a number, and the slow candidate of a
    chat, whose score is that time. *)
Definition first_reply_value (t : behavior_digest.chat_tables)
    (e : string * list behavior_digest.Msg) : Z :=
  behavior_digest.or_zero (stored_first_reply t e.1).

Definition slow_cand (t : behavior_digest.chat_tables)
    (e : string * list behavior_digest.Msg) : behavior_digest.cand :=
  cand_of (first_reply_value t e) e.

(** The test of the category "interest without next step". *)
Definition is_no_next_chat (kw_intent kw_nextstep : Py.text → bool)
    (e : string * list behavior_digest.Msg) : bool :=
  behavior_digest.high_intent_of kw_intent e.2 && behavior_digest.responded_of e.2
  && negb (behavior_digest.next_step_of kw_nextstep e.2).


(** A history row that can serve as the baseline of a manager: it has a
    readable stamp at or before the cutoff. *)
Definition eligible {V : Type} (cutoff : Z) (mid : string)
    (r : @behavior_digest.row V) (ts : Z) : Prop :=
  behavior_digest.row_manager_id r = mid ∧ behavior_digest.run_ts r = Some ts ∧ ts <= cutoff.

Definition is_eligible {V : Type} (cutoff : Z) (r : @behavior_digest.row V) : bool :=
  match behavior_digest.run_ts r with
  | Some ts => ts <=? cutoff
  | None => false
  end.

(** What the baseline fold has established after the rows of [l], with
    the place of each selected row. *)
Definition baseline_place_inv {V : Type} (cutoff : Z) (l : list (@behavior_digest.row V))
    (b : @behavior_digest.baseline_state V) : Prop :=
  ∀ mid,
    match behavior_digest.baseline b !! mid with
    | Some r =>
        ∃ l1 l2 ts,
          l = l1 ++ r :: l2 ∧ eligible cutoff mid r ts
          ∧ behavior_digest.best_ts b !! mid = Some ts
          ∧ (∀ r' ts', r' ∈ l1 → eligible cutoff mid r' ts' → ts' < ts)
          ∧ (∀ r' ts', r' ∈ l2 → eligible cutoff mid r' ts' → ts' <= ts)
    | None =>
        behavior_digest.best_ts b !! mid = None
        ∧ ∀ r' ts', r' ∈ l → ¬ eligible cutoff mid r' ts'
    end.


(** The last column of a header with a given name, from column [i] on. *)
Fixpoint last_pos_from (i : nat) (k : Py.text) (header : list Py.text) : option nat :=
  match header with
  | [] => None
  | h :: header' =>
      match last_pos_from (S i) k header' with
      | Some j => Some j
      | None => if decide (h = k) then Some i else None
      end
  end.

Definition last_pos (k : Py.text) (header : list Py.text) : option nat :=
  last_pos_from 0 k header.


(** The stamps of the customer messages of a chat, in order. *)
Definition customer_stamps (ms : list behavior_digest.Msg) : list Z :=
  omap (λ m, if behavior_digest._is_customer_msg m then behavior_digest.sent_at m else None) ms.

(** No manager message of the chat has a stamp after [t]. *)
Definition no_manager_stamp_after (t : Z) (ms : list behavior_digest.Msg) : Prop :=
  ∀ m t', m ∈ ms → behavior_digest._is_manager_msg m = true →
          behavior_digest.sent_at m = Some t' → t' <= t.

(** The chats of a manager, in the order of [by_chat]. *)
Definition chats_of_manager (t : behavior_digest.chat_tables) (mid : string)
    (by_chat : list (string * list behavior_digest.Msg))
  : list (string * list behavior_digest.Msg) :=
  filter (λ e, behavior_digest.resolve_mid t e.1 e.2 = mid) by_chat.

(** Lines of an env file that assign nothing: blank lines, comments, and
    lines without ["="]. *)
Definition ignorable (line : Py.text) : Prop :=
  blank line ∨ (∃ a b, blank a ∧ line = a ++ Re.chr "#" :: b) ∨ Re.chr "=" ∉ line.

(** A text that neither starts nor ends with a character of a class. *)
Definition trimmed (p : Py.char → bool) (s : Py.text) : Prop :=
  (∀ c, head s = Some c → p c = false) ∧ (∀ c, last s = Some c → p c = false).

(** A key of an env file as one writes it: not empty, without ["="],
    not starting with ["#"], and without white space at its ends. *)
Definition env_key (k : Py.text) : Prop :=
  k ≠ [] ∧ (Re.chr "=" ∉ k) ∧ head k ≠ Some (Re.chr "#") ∧ trimmed Re.is_space k.

(** A value without white space or quotes at its ends, and one without
    quotes at its ends. *)
Definition env_value (v : Py.text) : Prop :=
  trimmed (λ c, Re.is_space c || (c =? 34)%N || (c =? 39)%N) v.
Definition quote_free_ends (v : Py.text) : Prop :=
  trimmed (λ c, (c =? 34)%N || (c =? 39)%N) v.

(** The line [K = V] with white space around its parts, and a value
    between double quotes. *)
Definition assignment (a k b c w d : Py.text) : Py.text :=
  a ++ k ++ b ++ Re.chr "=" :: c ++ w ++ d.
Definition double_quoted (v : Py.text) : Py.text := 34%N :: v ++ [34%N].

End SpecMore.

(* ===================================================================== *)
(** * Sorting *)
(* ===================================================================== *)

Section SortingFacts.
Import Py.
Context {A : Type} (key : A → Z).

Lemma insert_asc_perm x l : insert_asc key x l ≡ₚ x :: l.
Proof.
  induction l as [|y l IH]; simpl; [done|].
  destruct (key y <? key x); [|done].
  rewrite IH. apply Permutation_swap.
Qed.

Lemma insert_desc_perm x l : insert_desc key x l ≡ₚ x :: l.
Proof.
  induction l as [|y l IH]; simpl; [done|].
  destruct (key x <? key y); [|done].
  rewrite IH. apply Permutation_swap.
Qed.

Lemma sorted_by_perm reverse l : sorted_by key reverse l ≡ₚ l.
Proof.
  unfold sorted_by. induction l as [|x l IH]; simpl; [done|].
  destruct reverse; [rewrite insert_desc_perm|rewrite insert_asc_perm];
    by rewrite IH.
Qed.

Lemma sorted_by_length reverse l : length (sorted_by key reverse l) = length l.
Proof. by rewrite sorted_by_perm. Qed.

Lemma insert_asc_sorted x l :
  StronglySorted (by_key_le key) l → StronglySorted (by_key_le key) (insert_asc key x l).
Proof.
  induction 1 as [|y l Hs IH Hy]; simpl.
  - repeat constructor.
  - destruct (key y <? key x) eqn:E.
    + apply Z.ltb_lt in E. constructor; [done|].
      rewrite insert_asc_perm. constructor; [unfold by_key_le; lia|done].
    + apply Z.ltb_ge in E. constructor; [by constructor|].
      constructor; [done|].
      eapply Forall_impl; [exact Hy|]. unfold by_key_le. intros; simpl in *; lia.
Qed.

Lemma insert_desc_sorted x l :
  StronglySorted (by_key_ge key) l → StronglySorted (by_key_ge key) (insert_desc key x l).
Proof.
  induction 1 as [|y l Hs IH Hy]; simpl.
  - repeat constructor.
  - destruct (key x <? key y) eqn:E.
    + apply Z.ltb_lt in E. constructor; [done|].
      rewrite insert_desc_perm. constructor; [unfold by_key_ge; lia|done].
    + apply Z.ltb_ge in E. constructor; [by constructor|].
      constructor; [done|].
      eapply Forall_impl; [exact Hy|]. unfold by_key_ge. intros; simpl in *; lia.
Qed.

Lemma sorted_by_asc_sorted l : StronglySorted (by_key_le key) (sorted_by key false l).
Proof.
  unfold sorted_by. induction l; simpl; [constructor|by apply insert_asc_sorted].
Qed.

Lemma sorted_by_desc_sorted l : StronglySorted (by_key_ge key) (sorted_by key true l).
Proof.
  unfold sorted_by. induction l; simpl; [constructor|by apply insert_desc_sorted].
Qed.
End SortingFacts.

Lemma sorted_perm (l : list Z) : Py.sorted l ≡ₚ l.
Proof. apply sorted_by_perm. Qed.

Lemma sorted_length (l : list Z) : length (Py.sorted l) = length l.
Proof. apply sorted_by_length. Qed.

Lemma sorted_ascending (l : list Z) : StronglySorted Z.le (Py.sorted l).
Proof. apply (sorted_by_asc_sorted (λ z, z)). Qed.

Lemma sorted_elem_of (l : list Z) (x : Z) : x ∈ Py.sorted l ↔ x ∈ l.
Proof. by rewrite sorted_perm. Qed.

(* ===================================================================== *)
(** * The business clock *)
(* ===================================================================== *)

Section BusinessClock.
Import Py analysis_rules Spec.

Lemma us_per_day_pos : 0 < us_per_day.
Proof. reflexivity. Qed.

Lemma us_per_sec_pos : 0 < us_per_sec.
Proof. reflexivity. Qed.

Lemma days_between_empty a b : b < a → days_between a b = [].
Proof.
  intros H. unfold days_between.
  replace (Z.to_nat (b - a + 1)) with O by lia. done.
Qed.

Lemma days_between_cons a b : a <= b → days_between a b = a :: days_between (a + 1) b.
Proof.
  intros H. unfold days_between.
  replace (Z.to_nat (b - a + 1)) with (S (Z.to_nat (b - (a + 1) + 1))) by lia.
  simpl. f_equal; [lia|].
  rewrite <- fmap_S_seq, <- list_fmap_compose.
  apply list_fmap_ext. intros _ i _. simpl. lia.
Qed.

Lemma elem_of_days_between a b d : d ∈ days_between a b ↔ a <= d <= b.
Proof.
  unfold days_between. rewrite list_elem_of_fmap. split.
  - intros (i & -> & Hi). apply elem_of_seq in Hi. lia.
  - intros H. exists (Z.to_nat (d - a)). split; [lia|].
    apply elem_of_seq. lia.
Qed.

Lemma overlap_secs_nonneg s e ws we d : 0 <= overlap_secs s e ws we d.
Proof.
  unfold overlap_secs. simpl.
  destruct (_ >? 0) eqn:E; [|lia].
  apply Z.gtb_lt in E. apply Z.div_pos; [lia|apply us_per_sec_pos].
Qed.

(** One turn of the loop adds the overlap of the current day. *)
Lemma walk_days_spec fuel s e ws we cur last total :
  (days_fuel cur last ≤ fuel)%nat →
  walk_days fuel s e ws we cur last total
  = total + foldr Z.add 0 (overlap_secs s e ws we <$> days_between cur last).
Proof.
  revert cur total. induction fuel as [|fuel IH]; intros cur total Hfuel.
  - unfold days_fuel in Hfuel. rewrite days_between_empty by lia. simpl. lia.
  - simpl. destruct (cur <=? last) eqn:E.
    + apply Z.leb_le in E. rewrite days_between_cons by done.
      rewrite IH by (unfold days_fuel in *; lia).
      rewrite fmap_cons. cbn [foldr].
      generalize (foldr Z.add 0 (overlap_secs s e ws we <$> days_between (cur + 1) last)).
      intros rest. unfold overlap_secs. cbv zeta.
      set (seg_end := Z.min e _). set (seg_start := Z.max s _).
      destruct (seg_end >? seg_start) eqn:E1.
      * apply Z.gtb_lt in E1.
        replace (seg_end - seg_start >? 0) with true by (symmetry; apply Z.gtb_lt; lia).
        unfold total_seconds_int.
        rewrite Z.quot_div_nonneg by (try apply us_per_sec_pos; lia). lia.
      * assert (seg_end <= seg_start) by (rewrite Z.gtb_ltb in E1; apply Z.ltb_ge in E1; lia).
        replace (seg_end - seg_start >? 0) with false; [lia|].
        symmetry. rewrite Z.gtb_ltb. apply Z.ltb_ge. lia.
    + apply Z.leb_gt in E. rewrite days_between_empty by lia. simpl. lia.
Qed.

Lemma business_seconds_ok s e ws we :
  s <= e → ws < we →
  _business_seconds_between s e ws we = Returned (Some (spec_elapsed s e ws we)).
Proof.
  intros Hse Hw. unfold _business_seconds_between.
  replace (e <? s) with false by (symmetry; apply Z.ltb_ge; lia).
  replace (we <=? ws) with false by (symmetry; apply Z.leb_gt; lia).
  rewrite walk_days_spec by done. done.
Qed.

Lemma spec_elapsed_nonneg s e ws we : 0 <= spec_elapsed s e ws we.
Proof.
  unfold spec_elapsed. induction (days_between _ _) as [|d l IH]; [simpl; lia|].
  rewrite fmap_cons. cbn [foldr].
  pose proof (overlap_secs_nonneg s e ws we d). lia.
Qed.

Lemma date_of_combine d t : 0 <= t < us_per_day → date_of (combine d t) = d.
Proof.
  intros H. unfold date_of, combine.
  rewrite Z.add_comm, Z.div_add by (pose proof us_per_day_pos; lia).
  rewrite Z.div_small by done. lia.
Qed.

Lemma date_of_mono a b : a <= b → date_of a <= date_of b.
Proof. intros H. apply Z.div_le_mono; [apply us_per_day_pos|done]. Qed.

Lemma date_of_between d ws we x :
  0 <= ws → we < us_per_day → combine d ws <= x <= combine d we → date_of x = d.
Proof.
  intros H1 H2 [Ha Hb]. unfold date_of, combine in *.
  pose proof us_per_day_pos.
  symmetry. apply Z.div_unique with (r := x - d * us_per_day); lia.
Qed.

(** A span without positive overlap on any day of the walk gives zero. *)
Lemma spec_elapsed_outside s e ws we :
  (∀ d, date_of s <= d <= date_of e →
        Z.min e (combine d we) <= Z.max s (combine d ws)) →
  spec_elapsed s e ws we = 0.
Proof.
  intros H. unfold spec_elapsed.
  assert (Hall : ∀ d, d ∈ days_between (date_of s) (date_of e) →
                      overlap_secs s e ws we d = 0).
  { intros d Hd%elem_of_days_between. unfold overlap_secs. simpl.
    specialize (H d Hd).
    replace (_ >? 0) with false; [done|].
    symmetry. rewrite Z.gtb_ltb. apply Z.ltb_ge. lia. }
  induction (days_between _ _) as [|d l IH]; [done|].
  rewrite fmap_cons. cbn [foldr].
  rewrite Hall by left. rewrite IH; [done|].
  intros d' Hd'. apply Hall. by right.
Qed.

Lemma spec_elapsed_same_window s e ws we d :
  0 <= ws → we < us_per_day →
  combine d ws <= s → s <= e → e <= combine d we →
  spec_elapsed s e ws we = (e - s) / us_per_sec.
Proof.
  intros H0 H1 Hs Hse He. unfold spec_elapsed.
  rewrite (date_of_between d ws we s), (date_of_between d ws we e) by lia.
  rewrite days_between_cons, days_between_empty by lia. simpl.
  unfold overlap_secs. simpl.
  rewrite Z.min_l, Z.max_l by lia.
  destruct (e - s >? 0) eqn:E; [lia|].
  rewrite Z.gtb_ltb in E. apply Z.ltb_ge in E.
  replace (e - s) with 0 by lia. done.
Qed.

Lemma spec_elapsed_across_midnight s e ws we d :
  0 <= ws → ws < we → we < us_per_day →
  combine d ws <= s <= combine d we →
  combine (d + 1) ws <= e <= combine (d + 1) we →
  spec_elapsed s e ws we
  = (combine d we - s) / us_per_sec + (e - combine (d + 1) ws) / us_per_sec.
Proof.
  intros H0 Hw H1 Hs He. unfold spec_elapsed.
  rewrite (date_of_between d ws we s), (date_of_between (d + 1) ws we e) by lia.
  rewrite days_between_cons, days_between_cons, days_between_empty by lia. simpl.
  assert (combine d we < combine (d + 1) ws) by (unfold combine in *; lia).
  unfold overlap_secs. simpl.
  rewrite (Z.min_r e (combine d we)), (Z.max_l s (combine d ws)) by lia.
  rewrite (Z.min_l e (combine (d + 1) we)), (Z.max_r s (combine (d + 1) ws)) by lia.
  assert (Hz : ∀ x, 0 <= x → (if x >? 0 then x / us_per_sec else 0) = x / us_per_sec).
  { intros x Hx. destruct (x >? 0) eqn:E; [done|].
    rewrite Z.gtb_ltb in E. apply Z.ltb_ge in E.
    by replace x with 0 by lia. }
  rewrite !Hz by lia. lia.
Qed.

(** Closes a goal on closed integers by evaluation. *)
Ltac by_eval := vm_compute; first [reflexivity | discriminate | congruence].





End BusinessClock.

(* ===================================================================== *)
(** * Per-chat metrics *)
(* ===================================================================== *)

Section MinMax.
Import Py.

Lemma foldl_min_spec (l : list Z) (x : Z) :
  (foldl Z.min x l = x ∨ foldl Z.min x l ∈ l)
  ∧ foldl Z.min x l <= x ∧ ∀ y, y ∈ l → foldl Z.min x l <= y.
Proof.
  revert x. induction l as [|a l IH]; intros x; simpl.
  - split; [by left|]. split; [lia|]. intros y Hy. by apply elem_of_nil in Hy.
  - destruct (IH (Z.min x a)) as (Hin & Hle & Hall).
    split; [|split].
    + destruct Hin as [Heq|Hin]; [|right; by right].
      rewrite Heq. destruct (Z.min_spec x a) as [[_ ->]|[_ ->]]; [by left|right; by left].
    + lia.
    + intros y [->|Hy]%elem_of_cons; [lia|by apply Hall].
Qed.

Lemma foldl_max_spec (l : list Z) (x : Z) :
  (foldl Z.max x l = x ∨ foldl Z.max x l ∈ l)
  ∧ x <= foldl Z.max x l ∧ ∀ y, y ∈ l → y <= foldl Z.max x l.
Proof.
  revert x. induction l as [|a l IH]; intros x; simpl.
  - split; [by left|]. split; [lia|]. intros y Hy. by apply elem_of_nil in Hy.
  - destruct (IH (Z.max x a)) as (Hin & Hle & Hall).
    split; [|split].
    + destruct Hin as [Heq|Hin]; [|right; by right].
      rewrite Heq. destruct (Z.max_spec x a) as [[_ ->]|[_ ->]]; [right; by left|by left].
    + lia.
    + intros y [->|Hy]%elem_of_cons; [lia|by apply Hall].
Qed.

Lemma min_opt_Some l m :
  min_opt l = Some m ↔ m ∈ l ∧ ∀ y, y ∈ l → m <= y.
Proof.
  destruct l as [|x l]; simpl.
  - split; [done|]. intros [H _]. by apply elem_of_nil in H.
  - destruct (foldl_min_spec l x) as (Hin & Hle & Hall). split.
    + intros [= <-]. split.
      * destruct Hin as [->|Hin]; [by left|by right].
      * intros y [->|Hy]%elem_of_cons; [done|by apply Hall].
    + intros [Hm Hmin]. f_equal.
      assert (foldl Z.min x l ∈ x :: l) as Hf
        by (destruct Hin as [->|Hin]; [by left|by right]).
      specialize (Hmin _ Hf).
      apply elem_of_cons in Hm as [->|Hm]; [lia|]. specialize (Hall _ Hm). lia.
Qed.

Lemma max_opt_Some l m :
  max_opt l = Some m ↔ m ∈ l ∧ ∀ y, y ∈ l → y <= m.
Proof.
  destruct l as [|x l]; simpl.
  - split; [done|]. intros [H _]. by apply elem_of_nil in H.
  - destruct (foldl_max_spec l x) as (Hin & Hle & Hall). split.
    + intros [= <-]. split.
      * destruct Hin as [->|Hin]; [by left|by right].
      * intros y [->|Hy]%elem_of_cons; [done|by apply Hall].
    + intros [Hm Hmax]. f_equal.
      assert (foldl Z.max x l ∈ x :: l) as Hf
        by (destruct Hin as [->|Hin]; [by left|by right]).
      specialize (Hmax _ Hf).
      apply elem_of_cons in Hm as [->|Hm]; [lia|]. specialize (Hall _ Hm). lia.
Qed.

Lemma min_opt_None l : min_opt l = None ↔ l = [].
Proof. by destruct l. Qed.

Lemma max_opt_None l : max_opt l = None ↔ l = [].
Proof. by destruct l. Qed.
End MinMax.

Section ChatMetricsFacts.
Import Py analysis_rules Spec.

(** The first element of an ascending list that is at or above a bound is
    the least such element. *)
Lemma find_ge_sorted (bound : Z) (l : list Z) :
  StronglySorted Z.le l →
  match List.find (λ t, t >=? bound) l with
  | Some t => t ∈ l ∧ bound <= t ∧ ∀ t', t' ∈ l → bound <= t' → t <= t'
  | None => ∀ t', t' ∈ l → t' < bound
  end.
Proof.
  induction 1 as [|x l Hs IH Hx]; simpl.
  - intros t' Ht'. by apply elem_of_nil in Ht'.
  - destruct (x >=? bound) eqn:E.
    + rewrite Z.geb_leb in E. apply Z.leb_le in E.
      split; [by left|]. split; [done|].
      intros t' [->|Ht']%elem_of_cons _; [done|].
      rewrite Forall_forall in Hx. by apply Hx.
    + rewrite Z.geb_leb in E. apply Z.leb_gt in E.
      destruct (List.find _ l) as [t|].
      * destruct IH as (Hin & Hb & Hmin). split; [by right|]. split; [done|].
        intros t' [->|Ht']%elem_of_cons Hb'; [lia|by apply Hmin].
      * intros t' [->|Ht']%elem_of_cons; [done|by apply IH].
Qed.

Lemma first_at_or_after_Some fi l t :
  first_at_or_after fi l = Some t ↔
  t ∈ l ∧ fi <= t ∧ ∀ t', t' ∈ l → fi <= t' → t <= t'.
Proof.
  unfold first_at_or_after.
  pose proof (find_ge_sorted fi (sorted l) (sorted_ascending l)) as H.
  destruct (List.find _ (sorted l)) as [t0|].
  - destruct H as (Hin & Hb & Hmin). rewrite sorted_elem_of in Hin.
    split.
    + intros [= <-]. split; [done|]. split; [done|].
      intros t' Ht'. apply Hmin. by rewrite sorted_elem_of.
    + intros (Hin' & Hb' & Hmin'). f_equal.
      assert (t0 <= t) by (apply Hmin; [by rewrite sorted_elem_of|done]).
      assert (t <= t0) by by apply Hmin'.
      lia.
  - split; [done|]. intros (Hin & Hb & _).
    assert (t < fi) by (apply H; by rewrite sorted_elem_of). lia.
Qed.

Lemma first_at_or_after_None fi l :
  first_at_or_after fi l = None ↔ ∀ t', t' ∈ l → t' < fi.
Proof.
  unfold first_at_or_after.
  pose proof (find_ge_sorted fi (sorted l) (sorted_ascending l)) as H.
  destruct (List.find _ (sorted l)) as [t0|].
  - destruct H as (Hin & Hb & Hmin). rewrite sorted_elem_of in Hin.
    split; [done|]. intros Hall. specialize (Hall _ Hin). lia.
  - split; [|done]. intros _ t' Ht'. apply H. by rewrite sorted_elem_of.
Qed.

Lemma count_after_acc cutoff l n :
  foldl (λ n t, match cutoff with
                | None => n + 1
                | Some c => if t >? c then n + 1 else n
                end) n l
  = n + match cutoff with
        | None => Z.of_nat (length l)
        | Some c => Z.of_nat (length (filter (λ t, c < t) l))
        end.
Proof.
  revert n. induction l as [|t l IH]; intros n; simpl.
  - destruct cutoff; simpl; lia.
  - rewrite IH. destruct cutoff as [c|].
    + rewrite filter_cons. destruct (t >? c) eqn:E.
      * rewrite Z.gtb_ltb in E. apply Z.ltb_lt in E.
        rewrite decide_True by done. simpl length. lia.
      * rewrite Z.gtb_ltb in E. apply Z.ltb_ge in E.
        rewrite decide_False by lia. lia.
    + lia.
Qed.

Lemma count_after_spec cutoff l :
  count_after cutoff l
  = match cutoff with
    | None => Z.of_nat (length l)
    | Some c => Z.of_nat (length (filter (λ t, c < t) l))
    end.
Proof. unfold count_after. by rewrite count_after_acc. Qed.

Lemma filter_none {A} (P : A → Prop) `{∀ x, Decision (P x)} (l : list A) :
  (∀ x, x ∈ l → ¬ P x) → filter P l = [].
Proof.
  induction l as [|a l IH]; intros Hall; [done|].
  rewrite filter_cons_False by (apply Hall; by left).
  apply IH. intros x Hx. apply Hall. by right.
Qed.

Lemma unanswered_block_spec ms :
  unanswered_block (inbound_times ms) (outbound_times ms) = spec_unanswered ms.
Proof.
  unfold unanswered_block, spec_unanswered. cbv zeta.
  destruct (max_opt (inbound_times ms)) as [li|] eqn:Hli.
  - destruct (max_opt (outbound_times ms)) as [lo|] eqn:Hlo.
    + destruct (li >? lo) eqn:E; [by rewrite count_after_spec|].
      rewrite Z.gtb_ltb in E. apply Z.ltb_ge in E.
      apply max_opt_Some in Hli as [_ Hmax].
      rewrite filter_none; [done|].
      intros t Ht. specialize (Hmax t Ht). lia.
    + by rewrite count_after_spec.
  - apply max_opt_None in Hli. rewrite Hli.
    by destruct (max_opt (outbound_times ms)).
Qed.

Section WithDetectors.
Variables (has_question price_intent buy_intent avail_intent next_step : Py.text → bool).

Local Abbreviation compute :=
  (compute_chat_metrics has_question price_intent buy_intent avail_intent next_step).

(** With a well-formed window the call returns, and its timestamp
    fields are the ones of the source, one by one. *)
Lemma compute_chat_metrics_returns ms ws we slow :
  ws < we →
  ∃ m, compute ms ws we slow = Returned m
       ∧ first_inbound_at m = min_opt (inbound_times ms)
       ∧ first_outbound_at m =
           match min_opt (inbound_times ms) with
           | Some fi => first_at_or_after fi (outbound_times ms)
           | None => None
           end
       ∧ last_inbound_at m = max_opt (inbound_times ms)
       ∧ last_outbound_at m = max_opt (outbound_times ms)
       ∧ unanswered_inbound m = unanswered_block (inbound_times ms) (outbound_times ms).
Proof.
  intros Hw. unfold compute_chat_metrics.
  fold (inbound_times ms). fold (outbound_times ms).
  set (bsb := match min_opt (inbound_times ms) with Some _ => _ | None => _ end).
  assert (∃ r, bsb = Returned r) as [r ->].
  { subst bsb. destruct (min_opt (inbound_times ms)) as [fi|]; [|by eexists].
    destruct (first_at_or_after fi (outbound_times ms)) as [fo|]; [|by eexists].
    unfold _business_seconds_between.
    destruct (fo <? fi); [by eexists|].
    replace (we <=? ws) with false by (symmetry; apply Z.leb_gt; lia).
    by eexists. }
  simpl. eexists. split; [reflexivity|]. simpl. done.
Qed.

(** C5: [first_inbound_at] is the least parseable inbound stamp, and
    [first_outbound_at] is the least outbound stamp at or after it: an
    outbound stamp before the first inbound one is never selected, and
    the field is [None] exactly when there is no inbound stamp or no
    outbound stamp at or after the first inbound one. *)
Theorem first_outbound_precedence ms ws we slow :
  ws < we →
  ∃ m, compute ms ws we slow = Returned m
    ∧ (∀ fi, first_inbound_at m = Some fi ↔
             fi ∈ inbound_times ms ∧ ∀ t, t ∈ inbound_times ms → fi <= t)
    ∧ (∀ fo, first_outbound_at m = Some fo ↔
             ∃ fi, first_inbound_at m = Some fi
                   ∧ fo ∈ outbound_times ms ∧ fi <= fo
                   ∧ ∀ t, t ∈ outbound_times ms → fi <= t → fo <= t)
    ∧ (∀ fi t, first_inbound_at m = Some fi → t < fi → first_outbound_at m ≠ Some t)
    ∧ (first_outbound_at m = None ↔
         inbound_times ms = []
         ∨ ∃ fi, first_inbound_at m = Some fi
                 ∧ ∀ t, t ∈ outbound_times ms → t < fi).
Proof.
  intros Hw.
  destruct (compute_chat_metrics_returns ms ws we slow Hw)
    as (m & Hret & Hfi & Hfo & _).
  exists m. split; [done|]. rewrite Hfi, Hfo.
  split; [intros fi; apply min_opt_Some|].
  destruct (min_opt (inbound_times ms)) as [fi|] eqn:Hmin.
  - split; [|split].
    + intros fo. rewrite first_at_or_after_Some. split.
      * intros H. by exists fi.
      * by intros (fi' & [= <-] & H).
    + intros fi' t [= <-] Hlt Hsel.
      apply first_at_or_after_Some in Hsel. lia.
    + rewrite first_at_or_after_None. split.
      * intros H. right. by exists fi.
      * intros [Hnil|(fi' & [= <-] & H)]; [|done].
        apply min_opt_None in Hnil. congruence.
  - split; [|split].
    + intros fo. split; [done|]. by intros (fi & ? & _).
    + by intros fi t ?.
    + split; [|done]. intros _. left. by apply min_opt_None.
Qed.

(** C6: [unanswered_inbound] is the number of inbound messages with a
    parseable stamp strictly after [last_outbound_at], or the number of
    all inbound messages with a parseable stamp when no outbound message
    has one; with inbound stamps t1, t2, t3 and one outbound stamp
    between t2 and t3 it is 1. *)
Theorem unanswered_inbound_count ms ws we slow :
  ws < we →
  ∃ m, compute ms ws we slow = Returned m
    ∧ unanswered_inbound m = spec_unanswered ms
    ∧ (∀ lo, last_outbound_at m = Some lo →
             unanswered_inbound m
             = Z.of_nat (length (filter (λ t, lo < t) (inbound_times ms))))
    ∧ (outbound_times ms = [] →
       unanswered_inbound m = Z.of_nat (length (inbound_times ms)))
    ∧ (∀ t1 t2 t3 mid txt,
         ms = [ {| direction := "in"; sentAt := Some t1; text := txt |};
                {| direction := "in"; sentAt := Some t2; text := txt |};
                {| direction := "out"; sentAt := Some mid; text := txt |};
                {| direction := "in"; sentAt := Some t3; text := txt |} ] →
         t1 < t2 → t2 < mid → mid < t3 →
         unanswered_inbound m = 1).
Proof.
  intros Hw.
  destruct (compute_chat_metrics_returns ms ws we slow Hw)
    as (m & Hret & _ & _ & _ & Hlo & Hun).
  exists m. split; [done|]. rewrite Hun, unanswered_block_spec, Hlo.
  split; [done|]. split; [|split].
  - intros lo Hmax. unfold spec_unanswered. by rewrite Hmax.
  - intros Hnil. unfold spec_unanswered. by rewrite Hnil.
  - intros t1 t2 t3 mid txt -> H12 H2m Hm3.
    unfold spec_unanswered, outbound_times, inbound_times.
    rewrite !filter_cons, filter_nil. simpl.
    rewrite !filter_cons, filter_nil.
    rewrite (decide_False (P := mid < t1)) by lia.
    rewrite (decide_False (P := mid < t2)) by lia.
    by rewrite (decide_True (P := mid < t3)) by lia.
Qed.

Lemma agree_filter (d : string) ms1 ms2 :
  Forall2 (λ a b, direction a = direction b ∧ sentAt a = sentAt b) ms1 ms2 →
  length (filter (λ m, direction m = d) ms1) = length (filter (λ m, direction m = d) ms2)
  ∧ omap sentAt (filter (λ m, direction m = d) ms1)
    = omap sentAt (filter (λ m, direction m = d) ms2).
Proof.
  induction 1 as [|a b l1 l2 [Hd Ht] _ [IH1 IH2]]; [done|].
  rewrite !filter_cons. rewrite <- Hd.
  destruct (decide (direction a = d)); [|done].
  split; [simpl; by rewrite IH1|].
  simpl. rewrite Ht. destruct (sentAt b); [f_equal|]; exact IH2.
Qed.

(** C9: two inputs that agree on every direction and stamp, on the texts
    of the first six inbound messages and on the texts of the first six
    outbound messages give the same outcome, so the same advice list:
    the content rules read no text after the sixth of either direction. *)
Theorem advice_reads_first_six_texts ms1 ms2 ws we slow :
  agree_but_late_texts ms1 ms2 →
  compute ms1 ws we slow = compute ms2 ws we slow
  ∧ ∀ m1 m2, compute ms1 ws we slow = Returned m1 →
             compute ms2 ws we slow = Returned m2 →
             advice m1 = advice m2.
Proof.
  intros (Hall & Hin & Hout).
  assert (compute ms1 ws we slow = compute ms2 ws we slow) as Heq.
  { destruct (agree_filter "in" ms1 ms2 Hall) as [Hl1 Ht1].
    destruct (agree_filter "out" ms1 ms2 Hall) as [Hl2 Ht2].
    unfold inbound_texts in Hin. unfold outbound_texts in Hout.
    unfold compute_chat_metrics. cbv zeta.
    rewrite Hl1, Hl2, Ht1, Ht2, Hin, Hout. reflexivity. }
  split; [done|]. intros m1 m2 H1 H2. congruence.
Qed.
End WithDetectors.
End ChatMetricsFacts.

Section ChatMetricsWitnesses.
Import Py analysis_rules Spec.

Lemma first_outbound_precedence_witness :
  ∃ m, sample_compute [ {| direction := "out"; sentAt := Some 5; text := [] |};
                 {| direction := "in"; sentAt := Some 10; text := [] |};
                 {| direction := "out"; sentAt := Some 30; text := [] |};
                 {| direction := "out"; sentAt := Some 20; text := [] |} ]
         (hms 10 0 0) (hms 23 0 0) 600 = Returned m
       ∧ first_inbound_at m = Some 10 ∧ first_outbound_at m = Some 20.
Proof.
  destruct (first_outbound_precedence has_qmark quiet quiet quiet quiet
              [ {| direction := "out"; sentAt := Some 5; text := [] |};
                {| direction := "in"; sentAt := Some 10; text := [] |};
                {| direction := "out"; sentAt := Some 30; text := [] |};
                {| direction := "out"; sentAt := Some 20; text := [] |} ]
              (hms 10 0 0) (hms 23 0 0) 600) as (m & Hret & _);
    [reflexivity|].
  exists m. split; [exact Hret|].
  vm_compute in Hret. injection Hret as <-. split; reflexivity.
Defined.

Lemma unanswered_inbound_count_witness :
  ∃ m, sample_compute [ {| direction := "in"; sentAt := Some 1000000; text := [] |};
                 {| direction := "in"; sentAt := Some 2000000; text := [] |};
                 {| direction := "out"; sentAt := Some 2500000; text := [] |};
                 {| direction := "in"; sentAt := Some 3000000; text := [] |} ]
         (hms 10 0 0) (hms 23 0 0) 600 = Returned m
       ∧ unanswered_inbound m = 1.
Proof.
  destruct (unanswered_inbound_count has_qmark quiet quiet quiet quiet
              [ {| direction := "in"; sentAt := Some 1000000; text := [] |};
                {| direction := "in"; sentAt := Some 2000000; text := [] |};
                {| direction := "out"; sentAt := Some 2500000; text := [] |};
                {| direction := "in"; sentAt := Some 3000000; text := [] |} ]
              (hms 10 0 0) (hms 23 0 0) 600) as (m & Hret & _ & _ & _ & Hex);
    [reflexivity|].
  exists m. split; [exact Hret|].
  apply (Hex 1000000 2000000 3000000 2500000 []); reflexivity.
Defined.

Lemma advice_reads_first_six_texts_witness :
  sample_compute (seven_out (lit "?")) (hms 10 0 0) (hms 23 0 0) 600
  = sample_compute (seven_out (lit "no")) (hms 10 0 0) (hms 23 0 0) 600.
Proof.
  apply (advice_reads_first_six_texts has_qmark quiet quiet quiet quiet
           (seven_out (lit "?")) (seven_out (lit "no")) (hms 10 0 0) (hms 23 0 0) 600).
  split; [|split; reflexivity].
  unfold seven_out. repeat (constructor; [split; reflexivity|]). constructor.
Defined.
End ChatMetricsWitnesses.

(* ===================================================================== *)
(** * Percentiles *)
(* ===================================================================== *)

Section Percentiles.
Import Py analysis_rules behavior_digest Spec.

Lemma all_from_spec f start count :
  all_from f start count = true →
  ∀ n, start <= n < start + Z.of_nat count → f n = true.
Proof.
  revert start. induction count as [|c IH]; intros start H n Hn; [lia|].
  simpl in H. apply andb_true_iff in H as [H1 H2].
  destruct (decide (n = start)) as [->|]; [done|].
  apply (IH (start + 1)); [done|lia].
Qed.

Lemma ranks_checked :
  all_from (λ n, rank_agrees PyFloat.lit_0_5 1 2 n
                 && rank_agrees PyFloat.lit_0_9 9 10 n
                 && floor_agrees n) 1 (Z.to_nat checked_sizes) = true.
Proof. vm_compute. reflexivity. Qed.

Lemma ranks_agree (n : Z) :
  1 <= n <= checked_sizes →
  rank_agrees PyFloat.lit_0_5 1 2 n = true
  ∧ rank_agrees PyFloat.lit_0_9 9 10 n = true
  ∧ floor_agrees n = true.
Proof.
  intros Hn. pose proof (all_from_spec _ _ _ ranks_checked n) as H.
  rewrite !andb_true_iff in H. apply and_assoc. apply H.
  rewrite Z2Nat.id by done. lia.
Qed.

Lemma index_Some {A} (l : list A) (k : Z) :
  0 <= k < Z.of_nat (length l) →
  ∃ v, l !! Z.to_nat k = Some v ∧ index l k = Returned v.
Proof.
  intros Hk. destruct (lookup_lt_is_Some_2 l (Z.to_nat k)) as [v Hv]; [lia|].
  exists v. split; [done|]. unfold index.
  replace (k <? 0) with false by (symmetry; apply Z.ltb_ge; lia).
  by rewrite Hv.
Qed.

Lemma round_half_even_bounds num den :
  0 <= num → 0 < den → num / den <= round_half_even num den <= num / den + 1.
Proof.
  intros. unfold round_half_even.
  destruct (2 * (num mod den) ?= den); [destruct (Z.even _)|..]; lia.
Qed.

Lemma nearest_rank_bounds n pnum pden :
  1 <= n → 0 <= nearest_rank n pnum pden < n.
Proof. intros. unfold nearest_rank. lia. Qed.

(** [_pct] on a non-empty sample: the element at the clamped float rank. *)
Lemma pct_at_float_rank (values : list Z) p r :
  values ≠ [] →
  PyFloat.round (PyFloat.mul (PyFloat.of_int (Z.of_nat (length values) - 1)) p) = Some r →
  ∃ v, sorted values
         !! Z.to_nat (Z.max 0 (Z.min (Z.of_nat (length values) - 1) r)) = Some v
       ∧ _pct values p = Returned (Some v).
Proof.
  intros Hne Hround.
  destruct (index_Some (sorted values)
              (Z.max 0 (Z.min (Z.of_nat (length values) - 1) r))) as (v & Hv & Hi).
  { rewrite sorted_length. destruct values; [done|]. simpl length. lia. }
  exists v. split; [done|].
  unfold _pct. destruct values as [|x l]; [done|].
  rewrite sorted_length, Hround. cbv zeta. by rewrite Hi.
Qed.

(** [_pct] on a non-empty sample whose float rank is the exact one. *)
Lemma pct_at_rank (values : list Z) p pnum pden :
  values ≠ [] →
  rank_agrees p pnum pden (Z.of_nat (length values)) = true →
  ∃ v, sorted values !! Z.to_nat (nearest_rank (Z.of_nat (length values)) pnum pden) = Some v
       ∧ _pct values p = Returned (Some v).
Proof.
  intros Hne Hr. unfold rank_agrees in Hr.
  destruct (PyFloat.round _) as [r|] eqn:Hround; [|done].
  apply Z.eqb_eq in Hr.
  destruct (pct_at_float_rank values p r Hne Hround) as (v & Hv & Hp).
  exists v. unfold nearest_rank. by rewrite <- Hr.
Qed.

Lemma pct_cells (values : list Z) p v :
  _pct values p = Returned (Some v) →
  manager_cell values p = Returned (CInt v)
  ∧ (v ≠ 0 → channel_cell values p = Returned (CInt v)).
Proof.
  intros H. unfold manager_cell, channel_cell. rewrite H. simpl.
  split; [done|]. intros Hv.
  by replace (v =? 0) with false by (symmetry; apply Z.eqb_neq; lia).
Qed.

Lemma digest_median_at (values : list Z) :
  values ≠ [] →
  ∃ v, sorted values !! Z.to_nat (Z.of_nat (length values) / 2) = Some v
       ∧ digest_median values = Returned (Some v).
Proof.
  intros Hne.
  assert (1 <= Z.of_nat (length values)) by (destruct values; [done|simpl length; lia]).
  assert (digest_median values
          = bind (index (sorted values) (Z.of_nat (length values) / 2))
              (λ v, Returned (Some v))) as ->.
  { unfold digest_median. destruct (sorted values) as [|y l] eqn:E.
    - apply (f_equal length) in E. rewrite sorted_length in E. simpl in E. lia.
    - by rewrite <- E, sorted_length. }
  destruct (index_Some (sorted values) (Z.of_nat (length values) / 2)) as (v & Hv & Hi).
  { rewrite sorted_length. split; [apply Z.div_pos; lia|].
    apply Z.div_lt_upper_bound; lia. }
  exists v. split; [done|]. by rewrite Hi.
Qed.

Lemma digest_p90_at_index (values : list Z) i :
  values ≠ [] →
  PyFloat.to_int (PyFloat.mul (PyFloat.of_int (Z.of_nat (length values))) PyFloat.lit_0_9)
  = Some i →
  0 <= i < Z.of_nat (length values) →
  ∃ v, sorted values !! Z.to_nat i = Some v ∧ digest_p90 values = Returned (Some v).
Proof.
  intros Hne Hint Hi.
  assert (digest_p90 values
          = bind (index (sorted values) i) (λ v, Returned (Some v))) as ->.
  { unfold digest_p90. destruct (sorted values) as [|y l] eqn:E.
    - apply (f_equal length) in E. rewrite sorted_length in E. simpl in E. lia.
    - by rewrite <- E, sorted_length, Hint. }
  destruct (index_Some (sorted values) i) as (v & Hv & Hidx);
    [by rewrite sorted_length|].
  exists v. split; [done|]. by rewrite Hidx.
Qed.

Lemma digest_p90_at (values : list Z) :
  values ≠ [] →
  floor_agrees (Z.of_nat (length values)) = true →
  ∃ v, sorted values !! Z.to_nat (9 * Z.of_nat (length values) / 10) = Some v
       ∧ digest_p90 values = Returned (Some v).
Proof.
  intros Hne Hf.
  assert (1 <= Z.of_nat (length values)) by (destruct values; [done|simpl length; lia]).
  unfold floor_agrees in Hf.
  destruct (PyFloat.to_int _) as [i|] eqn:Hint; [|done]. apply Z.eqb_eq in Hf. subst i.
  apply digest_p90_at_index; [done|done|].
  split; [apply Z.div_pos; lia|apply Z.div_lt_upper_bound; lia].
Qed.

Lemma lookup_sorted_elem_of (values : list Z) i v :
  sorted values !! i = Some v → v ∈ values.
Proof. intros H. apply sorted_elem_of. by eapply list_elem_of_lookup_2. Qed.

(** C1, as the code has it: on a non-empty sample, [_pct], the percentile
    of the manager summary and of the channel summary, returns the element
    of the ascending-sorted sample at the rank [round((n-1) * p)] clamped
    to [[0, n-1]], an element of the sample; the manager summary writes
    that element and the channel summary writes it when it is not zero.
    For [p = 0.5] and [p = 0.9] and up to [checked_sizes] values the float
    rank is the nearest integer to [(n-1) * p], ties to even.  The digest
    snapshot takes the element at index [n // 2] for the median and at
    index [int(n * 0.9)], which is [floor(0.9 * n)], for p90.  All three
    give 30 and 50 on the sample 10, 20, 30, 40, 50. *)
Theorem percentile_nearest_rank (values : list Z) :
  values ≠ [] →
  let n := Z.of_nat (length values) in
  StronglySorted Z.le (sorted values) ∧ sorted values ≡ₚ values
  ∧ (∀ p r,
       PyFloat.round (PyFloat.mul (PyFloat.of_int (n - 1)) p) = Some r →
       ∃ v, sorted values !! Z.to_nat (Z.max 0 (Z.min (n - 1) r)) = Some v
            ∧ v ∈ values
            ∧ _pct values p = Returned (Some v)
            ∧ manager_cell values p = Returned (CInt v)
            ∧ (v ≠ 0 → channel_cell values p = Returned (CInt v)))
  ∧ (n <= checked_sizes →
     PyFloat.round (PyFloat.mul (PyFloat.of_int (n - 1)) PyFloat.lit_0_5)
     = Some (round_half_even ((n - 1) * 1) 2)
     ∧ PyFloat.round (PyFloat.mul (PyFloat.of_int (n - 1)) PyFloat.lit_0_9)
       = Some (round_half_even ((n - 1) * 9) 10)
     ∧ PyFloat.to_int (PyFloat.mul (PyFloat.of_int n) PyFloat.lit_0_9)
       = Some (9 * n / 10)
     ∧ ∀ p pnum pden,
         (p = PyFloat.lit_0_5 ∧ pnum = 1 ∧ pden = 2)
         ∨ (p = PyFloat.lit_0_9 ∧ pnum = 9 ∧ pden = 10) →
         ∃ v, sorted values !! Z.to_nat (nearest_rank n pnum pden) = Some v
              ∧ v ∈ values
              ∧ _pct values p = Returned (Some v))
  ∧ (∃ v, sorted values !! Z.to_nat (n / 2) = Some v
          ∧ v ∈ values ∧ digest_median values = Returned (Some v))
  ∧ (∀ i, PyFloat.to_int (PyFloat.mul (PyFloat.of_int n) PyFloat.lit_0_9) = Some i →
          0 <= i < n →
          ∃ v, sorted values !! Z.to_nat i = Some v
               ∧ v ∈ values ∧ digest_p90 values = Returned (Some v))
  ∧ _pct [10; 20; 30; 40; 50] PyFloat.lit_0_5 = Returned (Some 30)
  ∧ _pct [10; 20; 30; 40; 50] PyFloat.lit_0_9 = Returned (Some 50)
  ∧ digest_median [10; 20; 30; 40; 50] = Returned (Some 30)
  ∧ digest_p90 [10; 20; 30; 40; 50] = Returned (Some 50).
Proof.
  intros Hne n.
  assert (1 <= n) by (subst n; destruct values; [done|simpl length; lia]).
  split; [apply sorted_ascending|]. split; [apply sorted_perm|].
  split; [|split; [|split; [|split; [|by vm_compute]]]].
  - intros p r Hr.
    destruct (pct_at_float_rank values p r Hne Hr) as (v & Hv & Hp).
    exists v. split; [done|]. split; [by eapply lookup_sorted_elem_of|].
    split; [done|]. by apply pct_cells.
  - intros Hlen. destruct (ranks_agree n) as (H5 & H9 & Hfl); [lia|].
    assert (Hround : ∀ p pnum pden, rank_agrees p pnum pden n = true →
              PyFloat.round (PyFloat.mul (PyFloat.of_int (n - 1)) p)
              = Some (round_half_even ((n - 1) * pnum) pden)).
    { intros p pnum pden Hr. unfold rank_agrees in Hr.
      destruct (PyFloat.round _) as [r|]; [|done]. apply Z.eqb_eq in Hr. by subst. }
    split; [by apply Hround|]. split; [by apply Hround|]. split.
    { unfold floor_agrees in Hfl. destruct (PyFloat.to_int _) as [i|]; [|done].
      apply Z.eqb_eq in Hfl. by subst. }
    intros p pnum pden [(-> & -> & ->)|(-> & -> & ->)].
    + destruct (pct_at_rank values _ 1 2 Hne H5) as (v & Hv & Hp).
      exists v. split; [done|]. split; [by eapply lookup_sorted_elem_of|done].
    + destruct (pct_at_rank values _ 9 10 Hne H9) as (v & Hv & Hp).
      exists v. split; [done|]. split; [by eapply lookup_sorted_elem_of|done].
  - destruct (digest_median_at values Hne) as (v & Hv & Hd).
    exists v. split; [done|]. split; [by eapply lookup_sorted_elem_of|done].
  - intros i Hi Hrange.
    destruct (digest_p90_at_index values i Hne Hi Hrange) as (v & Hv & Hd).
    exists v. split; [done|]. split; [by eapply lookup_sorted_elem_of|done].
Qed.

Lemma percentile_nearest_rank_witness :
  _pct [7; 3; 9; 1] PyFloat.lit_0_5 = Returned (Some 7)
  ∧ _pct [7; 3; 9; 1] PyFloat.lit_0_9 = Returned (Some 9)
  ∧ digest_p90 [7; 3; 9; 1] = Returned (Some 9).
Proof.
  destruct (percentile_nearest_rank [7; 3; 9; 1]) as (_ & _ & _ & Hpct & _ & Hp90 & _);
    [discriminate|].
  destruct (Hpct ltac:(vm_compute; discriminate)) as (_ & _ & _ & Hrank).
  split; [|split].
  - destruct (Hrank PyFloat.lit_0_5 1 2) as (v & Hv & _ & Hp);
      [left; repeat split|].
    vm_compute in Hv. injection Hv as <-. exact Hp.
  - destruct (Hrank PyFloat.lit_0_9 9 10) as (v & Hv & _ & Hp);
      [right; repeat split|].
    vm_compute in Hv. injection Hv as <-. exact Hp.
  - destruct (Hp90 3) as (v & Hv & _ & Hd);
      [reflexivity|split; [discriminate|reflexivity]|].
    vm_compute in Hv. injection Hv as <-. exact Hd.
Defined.

(** C1 as stated fails in the digest snapshot: on the sample 1..10 its p90
    is 10, the element at index [int(10 * 0.9) = 9], while the element at
    the nearest rank [round(9 * 0.9) = 8] is 9, which is what [_pct]
    returns. *)
Lemma percentile_digest_counterexample :
  digest_p90 [1; 2; 3; 4; 5; 6; 7; 8; 9; 10] = Returned (Some 10)
  ∧ sorted [1; 2; 3; 4; 5; 6; 7; 8; 9; 10] !! Z.to_nat (nearest_rank 10 9 10) = Some 9
  ∧ _pct [1; 2; 3; 4; 5; 6; 7; 8; 9; 10] PyFloat.lit_0_9 = Returned (Some 9).
Proof. by vm_compute. Qed.
End Percentiles.

(* ===================================================================== *)
(** * Baseline and deltas *)
(* ===================================================================== *)

Section Baseline.
Import Py behavior_digest Spec.
Context {V F : Type}.
Variable _to_float : V → option F.
Variable round_sub : F → F → F.

Local Abbreviation hrow := (@row V).

Lemma baseline_step_inv cutoff (l : list hrow) b r :
  baseline_inv cutoff l b → baseline_inv cutoff (l ++ [r]) (baseline_step cutoff b r).
Proof.
  intros Hinv mid. specialize (Hinv mid).
  assert (Hkeep :
    (∀ ts', row_manager_id r = mid → run_ts r = Some ts' →
            match baseline b !! mid with
            | Some r0 => ∃ ts, run_ts r0 = Some ts ∧ (ts' <= cutoff → ts' <= ts)
            | None => cutoff < ts'
            end) →
    match baseline b !! mid with
    | Some r0 =>
        r0 ∈ l ++ [r] ∧ row_manager_id r0 = mid
        ∧ ∃ ts, run_ts r0 = Some ts ∧ best_ts b !! mid = Some ts ∧ ts <= cutoff
                ∧ ∀ r' ts', r' ∈ l ++ [r] → row_manager_id r' = mid →
                            run_ts r' = Some ts' → ts' <= cutoff → ts' <= ts
    | None =>
        best_ts b !! mid = None
        ∧ ∀ r' ts', r' ∈ l ++ [r] → row_manager_id r' = mid →
                    run_ts r' = Some ts' → cutoff < ts'
    end).
  { intros Hr. destruct (baseline b !! mid) as [r0|].
    - destruct Hinv as (Hin & Hmid & ts & Hts & Hbest & Hle & Hmax).
      split; [apply elem_of_app; by left|]. split; [done|].
      exists ts. repeat split; try done.
      intros r' ts' [Hr'|Hr']%elem_of_app Hm' Hts' Hc; [by eapply Hmax|].
      apply list_elem_of_singleton in Hr' as ->.
      destruct (Hr ts' Hm' Hts') as (ts0 & Hts0 & Hle0).
      rewrite Hts in Hts0. injection Hts0 as <-. by apply Hle0.
    - destruct Hinv as [Hbest Hall]. split; [done|].
      intros r' ts' [Hr'|Hr']%elem_of_app Hm' Hts'; [by eapply Hall|].
      apply list_elem_of_singleton in Hr' as ->. by apply Hr. }
  unfold baseline_step.
  destruct (run_ts r) as [ts|] eqn:Hts.
  2:{ apply Hkeep. intros ts' _ [=]. }
  destruct (ts >? cutoff) eqn:Hcut.
  { rewrite Z.gtb_ltb in Hcut. apply Z.ltb_lt in Hcut.
    apply Hkeep. intros ts' _ [= <-].
    destruct (baseline b !! mid) as [r0|]; [|done].
    destruct Hinv as (_ & _ & ts0 & Hts0 & _). exists ts0. split; [done|lia]. }
  rewrite Z.gtb_ltb in Hcut. apply Z.ltb_ge in Hcut. cbv zeta.
  destruct (decide (row_manager_id r = mid)) as [Heq|Hne].
  - subst mid.
    destruct (baseline b !! row_manager_id r) as [r0|] eqn:Hb.
    + destruct Hinv as (Hin & Hmid & ts0 & Hts0 & Hbest & Hle & Hmax).
      rewrite Hbest. destruct (ts >? ts0) eqn:Hgt.
      * rewrite Z.gtb_ltb in Hgt. apply Z.ltb_lt in Hgt.
        simpl. rewrite !lookup_insert_eq.
        split; [apply elem_of_app; right; by left|]. split; [done|].
        exists ts. repeat split; try done.
        intros r' ts' [Hr'|Hr']%elem_of_app Hm' Hts' Hc.
        -- specialize (Hmax r' ts' Hr' Hm' Hts' Hc). lia.
        -- apply list_elem_of_singleton in Hr' as ->.
           rewrite Hts in Hts'. injection Hts' as <-. lia.
      * rewrite Z.gtb_ltb in Hgt. apply Z.ltb_ge in Hgt.
        rewrite Hb. split; [apply elem_of_app; by left|]. split; [done|].
        exists ts0. repeat split; try done.
        intros r' ts' [Hr'|Hr']%elem_of_app Hm' Hts' Hc; [by eapply Hmax|].
        apply list_elem_of_singleton in Hr' as ->.
        rewrite Hts in Hts'. injection Hts' as <-. lia.
    + destruct Hinv as [Hbest Hall]. rewrite Hbest.
      simpl. rewrite !lookup_insert_eq.
      split; [apply elem_of_app; right; by left|]. split; [done|].
      exists ts. repeat split; try done.
      intros r' ts' [Hr'|Hr']%elem_of_app Hm' Hts' Hc.
      * specialize (Hall r' ts' Hr' Hm' Hts'). lia.
      * apply list_elem_of_singleton in Hr' as ->.
        rewrite Hts in Hts'. injection Hts' as <-. lia.
  - assert (baseline (if match best_ts b !! row_manager_id r with
                         | Some best => ts >? best
                         | None => true
                         end
                      then {| baseline := <[row_manager_id r := r]> (baseline b);
                              best_ts := <[row_manager_id r := ts]> (best_ts b) |}
                      else b) !! mid = baseline b !! mid
            ∧ best_ts (if match best_ts b !! row_manager_id r with
                          | Some best => ts >? best
                          | None => true
                          end
                       then {| baseline := <[row_manager_id r := r]> (baseline b);
                               best_ts := <[row_manager_id r := ts]> (best_ts b) |}
                       else b) !! mid = best_ts b !! mid) as [-> ->].
    { destruct (match best_ts b !! row_manager_id r with
                | Some best => ts >? best
                | None => true
                end); [|done].
      simpl. by rewrite !lookup_insert_ne. }
    apply Hkeep. intros ts' Hm'. done.
Qed.

Lemma baseline_fold_inv cutoff (l0 : list hrow) b l :
  baseline_inv cutoff l0 b →
  baseline_inv cutoff (l0 ++ l) (foldl (baseline_step cutoff) b l).
Proof.
  revert l0 b. induction l as [|r l IH]; intros l0 b Hinv; simpl.
  - by rewrite app_nil_r.
  - replace (l0 ++ r :: l) with ((l0 ++ [r]) ++ l) by by rewrite <- app_assoc.
    apply IH. by apply baseline_step_inv.
Qed.

Lemma select_baseline_inv now (hist : list hrow) :
  baseline_inv (now - timedelta_days 6) hist (select_baseline now hist).
Proof.
  unfold select_baseline.
  apply (baseline_fold_inv (now - timedelta_days 6) [] _ hist).
  intros mid. simpl. rewrite !lookup_empty. split; [done|].
  intros r' ts' Hr'. by apply elem_of_nil in Hr'.
Qed.

Lemma delta_of_no_baseline (r : hrow) k :
  delta_of _to_float round_sub None r k = @DEmpty F.
Proof. unfold delta_of. by destruct (cells r !! k ≫= _to_float). Qed.

Lemma foldl_insert_other {A} (f : string → A) (pre : string) keys (d : gmap string A) key :
  (∀ k, k ∈ keys → (pre +:+ k)%string ≠ key) →
  foldl (λ d k, <[(pre +:+ k)%string := f k]> d) d keys !! key = d !! key.
Proof.
  revert d. induction keys as [|a l IH]; intros d Hne; simpl; [done|].
  rewrite IH by (intros k Hk; apply Hne; by right).
  rewrite lookup_insert_ne; [done|]. apply Hne. by left.
Qed.

Lemma foldl_insert_lookup {A} (f : string → A) (pre : string) keys (d : gmap string A) k :
  k ∈ keys →
  foldl (λ d k, <[(pre +:+ k)%string := f k]> d) d keys !! (pre +:+ k)%string = Some (f k).
Proof.
  revert d. induction keys as [|a l IH]; intros d Hk; simpl.
  - by apply elem_of_nil in Hk.
  - destruct (decide (k ∈ l)) as [Hl|Hl]; [by apply IH|].
    apply elem_of_cons in Hk as [->|Hk]; [|done].
    rewrite foldl_insert_other.
    + by rewrite lookup_insert_eq.
    + intros k Hk Heq. apply (inj (String.append pre)) in Heq. by subst.
Qed.

Lemma delta_row_lookup bl (r : hrow) k :
  k ∈ delta_keys →
  delta_row _to_float round_sub bl r !! ("delta_" +:+ k)%string
  = Some (delta_of _to_float round_sub (baseline bl !! row_manager_id r) r k).
Proof.
  intros Hk. unfold delta_row.
  by apply (foldl_insert_lookup
              (delta_of _to_float round_sub (baseline bl !! row_manager_id r) r)).
Qed.

End Baseline.

Section BaselineWitness.
Import Py behavior_digest Spec.

Lemma sample_history_other_key (r' : @row Z) (ts' : Z) :
  r' ∈ sample_history → row_manager_id r' = "8"%string →
  run_ts r' = Some ts' → on_day 20 0 - timedelta_days 6 < ts'.
Proof.
  unfold sample_history. intros Hin Hmid.
  repeat (apply elem_of_cons in Hin as [->|Hin]); try discriminate Hmid.
  by apply elem_of_nil in Hin.
Qed.

End BaselineWitness.

(* ===================================================================== *)
(** * The per-chat pass of the digest *)
(* ===================================================================== *)

Section DigestFacts.
Import Py behavior_digest Spec.

Lemma foldl_invariant {A B} (f : A → B → A) (P : list B → A → Prop) (a : A) (l : list B) :
  P [] a →
  (∀ l0 a b, b ∈ l → P l0 a → P (l0 ++ [b]) (f a b)) →
  P l (foldl f a l).
Proof.
  intros H0 Hstep.
  assert (Hgen : ∀ l1 l0 a, (∀ b, b ∈ l1 → b ∈ l) → P l0 a → P (l0 ++ l1) (foldl f a l1)).
  { induction l1 as [|b l1 IH]; intros l0 a0 Hsub Hp; simpl.
    - by rewrite app_nil_r.
    - replace (l0 ++ b :: l1) with ((l0 ++ [b]) ++ l1) by by rewrite <- app_assoc.
      apply IH; [intros b' Hb'; apply Hsub; by right|].
      apply Hstep; [apply Hsub; by left|done]. }
  by apply (Hgen l [] a).
Qed.

Lemma setdefault_append_lookup {A} (d : gmap string (list A)) k x k' :
  setdefault_append d k x !! k'
  = if decide (k = k') then Some (default [] (d !! k) ++ [x]) else d !! k'.
Proof.
  unfold setdefault_append. destruct (decide (k = k')) as [->|Hne].
  - by rewrite lookup_insert_eq.
  - by rewrite lookup_insert_ne.
Qed.

(** Membership in an accumulator after one [setdefault(..).append(..)]. *)
Lemma setdefault_append_elem {A} (d : gmap string (list A)) k x k' l y :
  setdefault_append d k x !! k' = Some l → y ∈ l →
  (k = k' ∧ y = x) ∨ (∃ l0, d !! k' = Some l0 ∧ y ∈ l0).
Proof.
  rewrite setdefault_append_lookup. destruct (decide (k = k')) as [->|Hne].
  - intros [= <-] [Hy|Hy]%elem_of_app.
    + right. destruct (d !! k') as [l0|]; [by exists l0|].
      by apply elem_of_nil in Hy.
    + left. apply list_elem_of_singleton in Hy. done.
  - intros Hl Hy. right. by exists l.
Qed.

Section WithDetectors.
Variables (kw_intent kw_nextstep re_interrogative : Py.text → bool).

Local Abbreviation step := (process_chat kw_intent kw_nextstep re_interrogative).
Local Abbreviation run := (process_chats kw_intent kw_nextstep re_interrogative).
Local Abbreviation questions := (questions_of re_interrogative).
Local Abbreviation next_step := (next_step_of kw_nextstep).

Lemma good_inv_step t l st entry :
  good_inv kw_nextstep re_interrogative t l st → good_inv kw_nextstep re_interrogative t (l ++ [entry]) (step t st entry).
Proof.
  intros Hinv mid cands c Hl Hc.
  assert (Hold : ∀ l0, cand_good st !! mid = Some l0 → c ∈ l0 →
                       ∃ e, e ∈ l ++ [entry] ∧ good_chat kw_nextstep re_interrogative t mid c e).
  { intros l0 H1 H2. destruct (Hinv mid l0 c H1 H2) as (e & He & Hg).
    exists e. split; [apply elem_of_app; by left|done]. }
  destruct entry as [cid ms]. unfold process_chat in Hl.
  destruct (_chat_snippet ms) as [sn_in sn_out]. simpl in Hl.
  destruct (responded_of ms) eqn:Hresp; simpl in Hl; [|by eapply Hold].
  destruct (next_step_of kw_nextstep ms) eqn:Hnext; simpl in Hl; [|by eapply Hold].
  destruct (questions_of re_interrogative ms >=? 1) eqn:Hq; simpl in Hl; [|by eapply Hold].
  destruct (has_first_reply _) eqn:Hfr; simpl in Hl; [|by eapply Hold].
  destruct (or_zero _ <=? 10 * 60) eqn:Hfast; [|by eapply Hold].
  destruct (setdefault_append_elem _ _ _ _ _ _ Hl Hc) as [[Hmid ->]|(l0 & H1 & H2)];
    [|by eapply Hold].
  exists (cid, ms). split; [apply elem_of_app; right; by left|].
  unfold good_chat. simpl. split; [done|]. split; [done|].
  split; [done|]. split; [done|].
  split; [rewrite Z.geb_leb in Hq; by apply Z.leb_le in Hq|].
  destruct (mjoin (chat_first_reply_sec t !! cid)) as [v|]; [|done].
  simpl in *. exists v. split; [done|].
  rewrite Z.gtb_ltb in Hfr. apply Z.ltb_lt in Hfr. apply Z.leb_le in Hfast.
  unfold cand_score. simpl. lia.
Qed.

Lemma good_inv_run t by_chat : good_inv kw_nextstep re_interrogative t by_chat (run t by_chat).
Proof.
  unfold process_chats.
  apply (foldl_invariant (step t) (good_inv kw_nextstep re_interrogative t)).
  - intros mid cands c Hl. simpl in Hl. by rewrite lookup_empty in Hl.
  - intros l0 a b _. apply good_inv_step.
Qed.

Lemma pick_top_lookup cands reverse mid :
  pick_top cands reverse !! mid
  = (λ items, take 3 (sorted_by cand_score reverse items)) <$> cands !! mid.
Proof. unfold pick_top. by rewrite lookup_fmap. Qed.

(** C8, as the code has it: for every manager the good category holds at
    most three chats, the three best of the manager's candidates by
    [10 minutes - first_response_sec] descending (a faster first reply
    ranks higher); each one is a chat of that manager where the manager
    responded, the last outbound text carries a next-step cue, the
    manager asked at least one question, and the stored first response
    time is positive and at most 10 minutes (600 s included). *)
Theorem good_examples_gates t by_chat mid items :
  top_good (run t by_chat) !! mid = Some items →
  (length items ≤ 3)%nat
  ∧ StronglySorted (by_key_ge cand_score) items
  ∧ (∃ cands rest,
       cand_good (run t by_chat) !! mid = Some cands
       ∧ items ++ rest ≡ₚ cands
       ∧ StronglySorted (by_key_ge cand_score) (items ++ rest)
       ∧ (rest ≠ [] → length items = 3%nat))
  ∧ ∀ c, c ∈ items →
         ∃ cid ms v,
           (cid, ms) ∈ by_chat
           ∧ resolve_mid t cid ms = mid
           ∧ cand_chat c = cid
           ∧ responded_of ms = true
           ∧ next_step ms = true
           ∧ 1 <= questions ms
           ∧ mjoin (chat_first_reply_sec t !! cid) = Some v
           ∧ 0 < v ∧ v <= 10 * 60
           ∧ cand_score c = 10 * 60 - v.
Proof.
  unfold top_good. rewrite pick_top_lookup.
  destruct (cand_good (run t by_chat) !! mid) as [cands|] eqn:Hc; [|done].
  simpl. intros [= <-].
  set (S := sorted_by cand_score true cands).
  assert (HS : StronglySorted (by_key_ge cand_score) S) by apply sorted_by_desc_sorted.
  assert (HP : S ≡ₚ cands) by apply sorted_by_perm.
  split; [rewrite length_take; lia|].
  split.
  { rewrite <- (take_drop 3 S) in HS. by apply StronglySorted_app_1_l in HS. }
  split.
  { exists cands, (drop 3 S). split; [done|]. rewrite take_drop.
    split; [done|]. split; [done|].
    intros Hne. rewrite length_take.
    destruct (decide (3 ≤ length S)%nat); [lia|].
    rewrite drop_ge in Hne by lia. done. }
  intros c Hin.
  assert (c ∈ cands) as Hin'.
  { rewrite <- HP, <- (take_drop 3 S). apply elem_of_app. by left. }
  destruct (good_inv_run t by_chat mid cands c Hc Hin')
    as ([cid ms] & He & Hmid & Hcid & Hr & Hn & Hq & v & Hv & H0 & H1 & Hs).
  exists cid, ms, v. done.
Qed.

Lemma has_first_reply_zero fr :
  fr = Some 0 ∨ fr = None → has_first_reply fr = false.
Proof. by intros [-> | ->]. Qed.

Lemma step_same_first_reply_part t st1 st2 entry :
  same_first_reply_part st1 st2 →
  same_first_reply_part (step t st1 entry) (step t st2 entry).
Proof.
  intros (H1 & H2 & H3). destruct entry as [cid ms].
  unfold same_first_reply_part, process_chat.
  destruct (_chat_snippet ms) as [sn_in sn_out]. simpl.
  by rewrite H1, H2, H3.
Qed.

Lemma fold_same_first_reply_part t st1 st2 l :
  same_first_reply_part st1 st2 →
  same_first_reply_part (foldl (step t) st1 l) (foldl (step t) st2 l).
Proof.
  revert st1 st2. induction l as [|e l IH]; intros st1 st2 H; simpl; [done|].
  apply IH. by apply step_same_first_reply_part.
Qed.

Lemma step_without_first_reply t st cid ms :
  has_first_reply (mjoin (chat_first_reply_sec t !! cid)) = false →
  same_first_reply_part (step t st (cid, ms)) st.
Proof.
  intros Hfr. unfold same_first_reply_part, process_chat.
  destruct (_chat_snippet ms) as [sn_in sn_out]. simpl.
  rewrite Hfr. simpl. by rewrite andb_false_r.
Qed.

(** C10: a chat whose stored [first_response_sec] is 0 leaves the
    first-reply sample of its manager, the slow-reply candidates and the
    good candidates as they were; the pass treats it exactly as a chat
    with no stored first reply; and dropping the chat from the run
    changes none of the three. *)
Theorem zero_first_reply_ignored t st cid ms :
  mjoin (chat_first_reply_sec t !! cid) = Some 0 →
  first_reply_values_by_mgr (step t st (cid, ms)) = first_reply_values_by_mgr st
  ∧ cand_slow (step t st (cid, ms)) = cand_slow st
  ∧ cand_good (step t st (cid, ms)) = cand_good st
  ∧ step t st (cid, ms) = step (Spec.with_first_reply t cid None) st (cid, ms)
  ∧ ∀ before after,
      same_first_reply_part (run t (before ++ (cid, ms) :: after))
                            (run t (before ++ after)).
Proof.
  intros Hz.
  assert (Hfr : has_first_reply (mjoin (chat_first_reply_sec t !! cid)) = false)
    by (apply has_first_reply_zero; by left).
  destruct (step_without_first_reply t st cid ms Hfr) as (H1 & H2 & H3).
  split; [done|]. split; [done|]. split; [done|]. split.
  - unfold process_chat, resolve_mid. simpl.
    rewrite lookup_insert_eq. simpl. rewrite Hz. simpl.
    destruct (_chat_snippet ms) as [sn_in sn_out].
    by rewrite !andb_false_r.
  - intros before after. unfold process_chats.
    rewrite !foldl_app. simpl.
    apply fold_same_first_reply_part.
    by apply step_without_first_reply.
Qed.
End WithDetectors.
End DigestFacts.

Section DigestWitnesses.
Import Py behavior_digest Spec.

Lemma good_examples_gates_witness :
  ∃ items, top_good (sample_run (Some 120)) !! "7"%string = Some items
           ∧ (length items ≤ 3)%nat
           ∧ ∀ c, c ∈ items → cand_score c = 480.
Proof.
  exists [("c1"%string, 480, lit "hello", lit "ok?")].
  assert (Htop : top_good (sample_run (Some 120)) !! "7"%string
                 = Some [("c1"%string, 480, lit "hello", lit "ok?")])
    by (vm_compute; reflexivity).
  split; [exact Htop|].
  destruct (good_examples_gates quiet has_qmark quiet (sample_tables (Some 120))
              [("c1"%string, sample_chat)] "7"%string _ Htop) as (Hlen & _ & _ & Hall).
  split; [exact Hlen|].
  intros c Hc. destruct (Hall c Hc) as (cid & ms & v & Hin & _ & Hcid & _ & _ & _ & Hv & _ & _ & Hs).
  apply list_elem_of_singleton in Hin. injection Hin as -> ->.
  vm_compute in Hv. injection Hv as <-. exact Hs.
Defined.

(** C8 as stated fails at the boundary: a chat answered after exactly
    10 minutes (600 s, not less than 10 minutes) is a good example, with
    score 0. *)
Lemma good_examples_ten_minutes_counterexample :
  mjoin (chat_first_reply_sec (sample_tables (Some 600)) !! "c1"%string) = Some 600
  ∧ top_good (sample_run (Some 600)) !! "7"%string
    = Some [("c1"%string, 0, lit "hello", lit "ok?")]
  ∧ ¬ (600 < 10 * 60).
Proof. split; [by vm_compute|]. split; [by vm_compute|]. lia. Qed.

Lemma zero_first_reply_ignored_witness :
  sample_run (Some 0) = sample_run None
  ∧ first_reply_values_by_mgr (sample_run (Some 0)) = ∅.
Proof.
  destruct (zero_first_reply_ignored quiet has_qmark quiet (sample_tables (Some 0))
              empty_state "c1"%string sample_chat) as (Hfrv & _ & _ & Hsame & _);
    [reflexivity|].
  change (sample_run (Some 0))
    with (process_chat quiet has_qmark quiet (sample_tables (Some 0)) empty_state
            ("c1"%string, sample_chat)).
  split.
  - rewrite Hsame. vm_compute. reflexivity.
  - rewrite Hfrv. reflexivity.
Defined.
End DigestWitnesses.

(* ===================================================================== *)
(** * Matching: the search order against the meaning of a match *)
(* ===================================================================== *)

Section RegexFacts.
Import Py Re.
Local Open Scope nat_scope.

Lemma prev_after_nil prev : prev_after prev [] = prev.
Proof. done. Qed.

Lemma prev_after_cons prev c l : prev_after prev (c :: l) = prev_after (Some c) l.
Proof.
  unfold prev_after. destruct l as [|d l]; [done|].
  rewrite last_cons. by destruct (last (d :: l)).
Qed.

Lemma prev_after_app prev l1 l2 :
  prev_after prev (l1 ++ l2) = prev_after (prev_after prev l1) l2.
Proof.
  revert prev. induction l1 as [|c l1 IH]; intros prev; [done|].
  simpl app. rewrite !prev_after_cons. apply IH.
Qed.

Lemma prev_after_snoc prev l c : prev_after prev (l ++ [c]) = Some c.
Proof. by rewrite prev_after_app. Qed.

(** What a successful greedy repetition has read. *)
Lemma rep_greedy_sound p k lo hi prev s n :
  rep_greedy p k lo hi prev s = Some n →
  ∃ j n', n = j + n' ∧ lo ≤ j ∧ hi_ok hi j ∧ j ≤ length s
          ∧ Forall (λ c, p c = true) (take j s)
          ∧ k (prev_after prev (take j s)) (drop j s) = Some n'.
Proof.
  revert lo hi prev n. induction s as [|c s IH]; intros lo hi prev n H.
  - simpl in H. destruct lo; [|done].
    exists 0, n. repeat split; try done; try lia. by destruct hi; simpl; lia.
  - simpl in H.
    assert (Hstop : match lo with 0 => k prev (c :: s) | S _ => None end = Some n →
                    ∃ j n', n = j + n' ∧ lo ≤ j ∧ hi_ok hi j ∧ j ≤ length (c :: s)
                            ∧ Forall (λ c, p c = true) (take j (c :: s))
                            ∧ k (prev_after prev (take j (c :: s))) (drop j (c :: s)) = Some n').
    { destruct lo; [|done]. intros Hk.
      exists 0, n. repeat split; try done; try (simpl; lia). by destruct hi; simpl; lia. }
    destruct (p c && hi_allows hi) eqn:Hc; [|by apply Hstop].
    apply andb_true_iff in Hc as [Hp Hhi].
    destruct (rep_greedy p k (Nat.pred lo) (hi_pred hi) (Some c) s) as [m|] eqn:Hrec;
      [|by apply Hstop].
    injection H as <-.
    destruct (IH _ _ _ _ Hrec) as (j & n' & -> & Hlo & Hh & Hlen & Hall & Hk).
    exists (S j), n'. split; [done|]. split; [lia|]. split.
    { destruct hi as [[|h]|]; simpl in *; try done; lia. }
    split; [simpl; lia|]. split; [simpl; by constructor|].
    simpl take. simpl drop. by rewrite prev_after_cons.
Qed.

(** A greedy repetition succeeds as soon as some count of repetitions lets
    the rest succeed. *)
Lemma rep_greedy_complete p k lo hi prev s j :
  lo ≤ j → hi_ok hi j → j ≤ length s →
  Forall (λ c, p c = true) (take j s) →
  is_Some (k (prev_after prev (take j s)) (drop j s)) →
  is_Some (rep_greedy p k lo hi prev s).
Proof.
  revert lo hi prev j. induction s as [|c s IH]; intros lo hi prev j Hlo Hhi Hlen Hall Hk.
  - simpl in Hlen. assert (j = 0) as -> by lia. assert (lo = 0) as -> by lia. done.
  - simpl. destruct j as [|j].
    + assert (lo = 0) as -> by lia. simpl in Hk.
      destruct (p c && hi_allows hi); [|done].
      by destruct (rep_greedy p k _ _ _ s).
    + simpl in Hall, Hk, Hlen. apply Forall_cons in Hall as [Hp Hall].
      rewrite prev_after_cons in Hk.
      assert (hi_allows hi = true) as ->.
      { destruct hi as [[|h]|]; simpl in *; try done; lia. }
      rewrite Hp. simpl.
      destruct (IH (Nat.pred lo) (hi_pred hi) (Some c) j) as [m Hm]; try done; try lia.
      { destruct hi as [h|]; simpl in *; [lia|done]. }
      by rewrite Hm.
Qed.

Lemma match_here_sound pat prev s n :
  match_here pat prev s = Some n → matches pat prev s n.
Proof.
  revert prev s n. induction pat as [|a pat IH]; intros prev s n H.
  - simpl in *. by injection H as <-.
  - destruct a as [p|p lo hi|]; simpl in *.
    + destruct s as [|c s]; [done|]. destruct (p c) eqn:Hp; [|done].
      destruct (match_here pat (Some c) s) as [m|] eqn:Hm; [|done].
      injection H as <-. exists c, s, m. repeat split; try done. by apply IH.
    + destruct (rep_greedy_sound _ _ _ _ _ _ _ H) as (j & n' & -> & Hlo & Hh & Hlen & Hall & Hk).
      exists j, n'. repeat split; try done. by apply IH.
    + destruct (boundary prev (head s)) eqn:Hb; [|done]. split; [done|by apply IH].
Qed.

Lemma match_here_complete pat prev s n :
  matches pat prev s n → is_Some (match_here pat prev s).
Proof.
  revert prev s n. induction pat as [|a pat IH]; intros prev s n H.
  - done.
  - destruct a as [p|p lo hi|]; simpl in *.
    + destruct H as (c & s' & n' & -> & Hp & -> & Hm). rewrite Hp.
      destruct (IH _ _ _ Hm) as [m ->]. done.
    + destruct H as (j & n' & -> & Hlo & Hh & Hlen & Hall & Hm).
      eapply rep_greedy_complete; try done. by eapply IH.
    + destruct H as [-> Hm]. by eapply IH.
Qed.

Lemma matches_app pat1 pat2 prev s n :
  matches (pat1 ++ pat2) prev s n ↔
  ∃ n1 n2, n = n1 + n2 ∧ matches pat1 prev s n1
           ∧ matches pat2 (prev_after prev (take n1 s)) (drop n1 s) n2.
Proof.
  revert prev s n. induction pat1 as [|a pat1 IH]; intros prev s n.
  - simpl. split.
    + intros H. exists 0, n. by rewrite take_0, drop_0.
    + intros (n1 & n2 & -> & -> & H). by rewrite take_0, drop_0 in H.
  - destruct a as [p|p lo hi|]; simpl.
    + split.
      * intros (c & s' & n' & -> & Hp & -> & Hm).
        apply IH in Hm as (n1 & n2 & -> & H1 & H2).
        exists (S n1), n2. split; [done|]. split; [by exists c, s', n1|].
        simpl. by rewrite prev_after_cons.
      * intros (n1 & n2 & -> & (c & s' & n' & -> & Hp & -> & H1) & H2).
        exists c, s', (n' + n2). repeat split; try done.
        apply IH. exists n', n2. split; [done|]. split; [done|].
        simpl in H2. by rewrite prev_after_cons in H2.
    + split.
      * intros (j & n' & -> & Hlo & Hh & Hlen & Hall & Hm).
        apply IH in Hm as (n1 & n2 & -> & H1 & H2).
        exists (j + n1), n2. split; [lia|]. split.
        { exists j, n1. done. }
        rewrite <- take_take_drop, prev_after_app, <- drop_drop. done.
      * intros (n1 & n2 & -> & (j & n' & -> & Hlo & Hh & Hlen & Hall & H1) & H2).
        exists j, (n' + n2). split; [lia|]. repeat split; try done.
        apply IH. exists n', n2. split; [done|]. split; [done|].
        by rewrite <- take_take_drop, prev_after_app, <- drop_drop in H2.
    + split.
      * intros [Hb Hm]. apply IH in Hm as (n1 & n2 & -> & H1 & H2).
        exists n1, n2. done.
      * intros (n1 & n2 & -> & [Hb H1] & H2). split; [done|].
        apply IH. by exists n1, n2.
Qed.

(** A pattern that reads a character first matches at least one character,
    whatever the character before. *)
Lemma reads_first_prev pat prev1 prev2 s n :
  reads_first pat → matches pat prev1 s n → matches pat prev2 s n ∧ 1 ≤ n.
Proof.
  revert s n. induction pat as [|a pat IH]; intros s n Hr H; [done|].
  destruct a as [p|p lo hi|]; simpl in *; [| |done].
  - destruct H as (c & s' & n' & -> & Hp & -> & Hm).
    split; [by exists c, s', n'|lia].
  - destruct H as (j & n' & -> & Hlo & Hh & Hlen & Hall & Hm).
    destruct j as [|j].
    + assert (lo = 0) as -> by lia. rewrite take_0, drop_0, prev_after_nil in Hm.
      destruct (IH _ _ Hr Hm) as [Hm' Hn]. split; [|lia].
      exists 0, n'. rewrite take_0, drop_0, prev_after_nil. done.
    + split; [|lia]. exists (S j), n'. repeat split; try done.
      destruct s as [|c s]; [simpl in Hlen; lia|].
      simpl take in *. by rewrite prev_after_cons in *.
Qed.

Lemma no_bnd_prev pat prev1 prev2 s n :
  no_bnd pat → matches pat prev1 s n → matches pat prev2 s n.
Proof.
  revert prev1 prev2 s n. induction pat as [|a pat IH]; intros prev1 prev2 s n Hn H; [done|].
  apply Forall_cons in Hn as [Ha Hn].
  destruct a as [p|p lo hi|]; simpl in *; [| |done].
  - destruct H as (c & s' & n' & -> & Hp & -> & Hm). by exists c, s', n'.
  - destruct H as (j & n' & -> & Hlo & Hh & Hlen & Hall & Hm).
    exists j, n'. repeat split; try done. by eapply IH.
Qed.

Lemma matches_length pat prev s n : matches pat prev s n → n ≤ length s.
Proof.
  revert prev s n. induction pat as [|a pat IH]; intros prev s n H.
  - simpl in H. lia.
  - destruct a as [p|p lo hi|]; simpl in H.
    + destruct H as (c & s' & n' & -> & Hp & -> & Hm). apply IH in Hm. simpl. lia.
    + destruct H as (j & n' & -> & Hlo & Hh & Hlen & Hall & Hm).
      apply IH in Hm. rewrite length_drop in Hm. lia.
    + destruct H as [_ Hm]. by eapply IH.
Qed.

(** ** The shape of the output of [sub] *)

Lemma sub_go_skip pat repl prev n s :
  n ≤ length s →
  sub_go pat repl prev n s = sub_go pat repl (prev_after prev (take n s)) 0 (drop n s).
Proof.
  revert prev n. induction s as [|c s IH]; intros prev n Hn.
  - simpl in Hn. by assert (n = 0) as -> by lia.
  - destruct n as [|n]; [done|].
    simpl in Hn. cbn [sub_go take drop]. rewrite prev_after_cons. apply IH. lia.
Qed.

Lemma snoc_of_nonempty {A} (l : list A) : l ≠ [] → ∃ m c, l = m ++ [c].
Proof.
  induction l as [|a l IH] using rev_ind; [done|]. intros _. by exists l, a.
Qed.

Lemma sub_go_pieces R repl s :
  ∀ prev, pieces R repl prev s (sub_go R repl prev 0 s).
Proof.
  induction s as [s IH] using (induction_ltof1 _ (@length char)). unfold ltof in IH.
  intros prev. destruct s as [|c s]; [constructor|].
  cbn [sub_go].
  destruct (match_here R prev (c :: s)) as [[|n]|] eqn:Hm.
  - apply pieces_copy; [by rewrite Hm|]. apply IH. simpl. lia.
  - pose proof (matches_length _ _ _ _ (match_here_sound _ _ _ _ Hm)) as Hlen.
    simpl in Hlen.
    rewrite sub_go_skip by lia.
    destruct (snoc_of_nonempty (take (S n) (c :: s))) as (m & d & Hmd); [done|].
    assert (Hsplit : c :: s = (m ++ [d]) ++ drop (S n) (c :: s))
      by (rewrite <- Hmd; by rewrite take_drop).
    assert (Hl : length (m ++ [d]) = S n).
    { rewrite <- Hmd, length_take. simpl. lia. }
    assert (Hprev : prev_after (Some c) (take n s) = Some d).
    { rewrite <- prev_after_cons with (prev := prev).
      change (c :: take n s) with (take (S n) (c :: s)). rewrite Hmd.
      apply prev_after_snoc. }
    rewrite Hprev.
    change (drop n s) with (drop (S n) (c :: s)).
    rewrite Hsplit at 1.
    apply pieces_chunk.
    + rewrite <- Hsplit, Hl. done.
    + apply IH. rewrite length_drop. simpl. lia.
  - apply pieces_copy; [by rewrite Hm|]. apply IH. simpl. lia.
Qed.

(** ** Searching *)

Lemma search_go_cons Q prev c s :
  search_go Q prev (c :: s) = false ↔
  match_here Q prev (c :: s) = None ∧ search_go Q (Some c) s = false.
Proof.
  cbn [search_go]. destruct (match_here Q prev (c :: s)); split; try done.
  - by intros [? _].
  - by intros [_ ?].
Qed.

Lemma search_go_suffix Q prev a s :
  search_go Q prev (a ++ s) = false → search_go Q (prev_after prev a) s = false.
Proof.
  revert prev. induction a as [|c a IH]; intros prev H; [done|].
  simpl app in H. apply search_go_cons in H as [_ H].
  rewrite prev_after_cons. by apply IH.
Qed.

(** A search over [r ++ t] where no match starts inside [r]. *)
Lemma search_go_skip_prefix Q prev r t :
  Forall (λ r', ∀ p, match_here Q p (r' ++ t) = None) (tails r) →
  search_go Q prev (r ++ t) = search_go Q (prev_after prev r) t.
Proof.
  revert prev. induction r as [|c r IH]; intros prev H; [done|].
  simpl in H. apply Forall_cons in H as [Hc H].
  simpl app. cbn [search_go]. change (c :: r ++ t) with ((c :: r) ++ t).
  rewrite Hc. rewrite prev_after_cons. by apply IH.
Qed.

(** ** From a match in the output to a match in the input *)

Section Transport.
Variables (R : pattern) (repl : text) (r0 : char) (repl' : text).
Hypothesis Hrepl : repl = r0 :: repl'.

(** A run of characters that the head of [repl] does not belong to was
    copied. *)
Lemma run_transfer (p : char → bool) prev s t j :
  pieces R repl prev s t → p r0 = false →
  j ≤ length t → Forall (λ c, p c = true) (take j t) →
  take j t = take j s ∧ j ≤ length s
  ∧ pieces R repl (prev_after prev (take j s)) (drop j s) (drop j t).
Proof.
  intros Hp Hr0. revert prev s t Hp. induction j as [|j IH]; intros prev s t Hp Hlen Hall.
  - rewrite !take_0, !drop_0. split; [done|]. split; [lia|done].
  - destruct Hp as [prev|prev c s t Hno Hp|prev m c s t Hm Hp].
    + simpl in Hlen. lia.
    + simpl in Hlen, Hall. apply Forall_cons in Hall as [_ Hall].
      destruct (IH _ _ _ Hp) as (Ht & Hl & Hp'); [lia|done|].
      simpl. rewrite prev_after_cons. split; [by rewrite Ht|]. split; [lia|done].
    + rewrite Hrepl in Hall. simpl in Hall. apply Forall_cons in Hall as [Hr _].
      congruence.
Qed.

Lemma bnd_transfer R' prev s t :
  R = Bnd :: R' → is_word r0 = false →
  pieces R repl prev s t →
  boundary prev (head t) = true → boundary prev (head s) = true.
Proof.
  intros HR Hw Hp Hb. destruct Hp as [prev|prev c s t Hno Hp|prev m c s t Hm Hp]; try done.
  rewrite HR in Hm. simpl in Hm.
  by destruct (boundary prev (head ((m ++ [c]) ++ s))).
Qed.

(** A pattern whose classes all reject the head of [repl], matched against
    the output, matches the input at the same place with the same length. *)
Lemma transport Q prev s t n :
  rejects Q r0 →
  (no_bnd Q ∨ (is_word r0 = false ∧ ∃ R', R = Bnd :: R')) →
  pieces R repl prev s t →
  matches Q prev t n →
  matches Q prev s n
  ∧ pieces R repl (prev_after prev (take n s)) (drop n s) (drop n t).
Proof.
  revert prev s t n. induction Q as [|a Q IH]; intros prev s t n Hrej Hb Hp Hm.
  - simpl in Hm. subst n. by rewrite take_0, !drop_0.
  - apply Forall_cons in Hrej as [Ha Hrej].
    assert (Hb' : no_bnd Q ∨ (is_word r0 = false ∧ ∃ R', R = Bnd :: R')).
    { destruct Hb as [Hb|Hb]; [left|by right]. by apply Forall_cons in Hb as [_ Hb]. }
    destruct a as [p|p lo hi|]; simpl in Hm, Ha.
    + destruct Hm as (c & t' & n' & -> & Hc & -> & Hm).
      destruct (run_transfer p prev s (c :: t') 1 Hp Ha) as (Ht & Hl & Hp');
        [simpl; lia|simpl; by repeat constructor|].
      destruct s as [|c' s']; [simpl in Hl; lia|].
      simpl in Ht. injection Ht as <-. simpl in Hp'.
      destruct (IH _ _ _ _ Hrej Hb' Hp' Hm) as [Hm' Hp''].
      split; [by exists c, s', n'|].
      simpl. by rewrite prev_after_cons.
    + destruct Hm as (j & n' & -> & Hlo & Hh & Hlen & Hall & Hm).
      destruct (run_transfer p prev s t j Hp Ha Hlen Hall) as (Ht & Hl & Hp').
      rewrite Ht in Hm.
      destruct (IH _ _ _ _ Hrej Hb' Hp' Hm) as [Hm' Hp''].
      split.
      * exists j, n'. repeat split; try done. by rewrite <- Ht.
      * rewrite <- take_take_drop, prev_after_app, <- !drop_drop. done.
    + destruct Hm as [Hbnd Hm].
      destruct Hb as [Hb|(Hw & R' & HR)].
      { by apply Forall_cons in Hb as [[] _]. }
      pose proof (bnd_transfer R' prev s t HR Hw Hp Hbnd) as Hbs.
      destruct (IH _ _ _ _ Hrej Hb' Hp Hm) as [Hm' Hp''].
      split; [simpl; done|done].
Qed.
End Transport.

(** A chunk matched by a pattern ending in [\b] ends at a word boundary. *)
Lemma chunk_end_bnd R0 prev m s :
  match_here (R0 ++ [Bnd]) prev (m ++ s) = Some (length m) →
  boundary (prev_after prev m) (head s) = true.
Proof.
  intros H. apply match_here_sound, matches_app in H as (n1 & n2 & Hn & _ & [Hb Hz]).
  simpl in Hz. subst n2. rewrite Nat.add_0_r in Hn. subst n1.
  by rewrite take_app_length, drop_app_length in Hb.
Qed.

(** ** Substitution leaves no match of a pattern that starts with a word
       boundary *)

Section SubFree.
Variables (Q' R : pattern) (repl : text) (r0 : char) (repl' : text).
Local Abbreviation Q := (Bnd :: Q').
Hypothesis Hrepl : repl = r0 :: repl'.
Hypothesis Hreads : reads_first Q'.
Hypothesis Hrej : rejects Q' r0.
Hypothesis Hw0 : is_word r0 = false.
Hypothesis Hwl : ∀ p, word_opt (prev_after p repl) = false.
Hypothesis HRs : ∃ R', R = Bnd :: R'.
Hypothesis HRe : ∃ R0, R = R0 ++ [Bnd].
Hypothesis Hinside : ∀ t, Forall (λ r', ∀ p, match_here Q p (r' ++ t) = None) (tails repl).

Lemma bnd_match_nonempty prev s m :
  match_here Q prev s = Some m → ∃ m', m = S m'.
Proof.
  intros H. apply match_here_sound in H as [_ H].
  destruct (reads_first_prev Q' prev prev s m Hreads H) as [_ Hm].
  destruct m; [lia|by eexists].
Qed.

Lemma bnd_head_step prev_s prev_t c s t :
  pieces R repl prev_s (c :: s) (c :: t) → ctx prev_s prev_t (c :: s) →
  is_Some (match_here Q prev_t (c :: t)) →
  is_Some (match_here Q prev_s (c :: s)).
Proof.
  intros Hp Hctx [n Hn]. apply match_here_sound in Hn as [Hb Hm].
  destruct (reads_first_prev Q' prev_t prev_s _ _ Hreads Hm) as [Hm' _].
  destruct (transport R repl r0 repl' Hrepl Q' prev_s (c :: s) (c :: t) n Hrej) as [Hs _];
    [right; by split|done|done|].
  apply (match_here_complete Q prev_s (c :: s) n). split; [|done].
  destruct Hctx as [->|[_ Hbs]]; done.
Qed.

Theorem sub_free prev_s s t :
  pieces R repl prev_s s t →
  ∀ prev_t, ctx prev_s prev_t s →
  (R = Q ∨ search_go Q prev_s s = false) →
  search_go Q prev_t t = false.
Proof.
  induction 1 as [prev|prev c s t Hno Hp IH|prev m c s t Hm Hp IH]; intros prev_t Hctx Hor.
  - cbn [search_go]. destruct (match_here Q prev_t []) as [n|] eqn:Hn; [|done].
    destruct (bnd_match_nonempty _ _ _ Hn) as [n' ->].
    apply match_here_sound, matches_length in Hn. simpl in Hn. lia.
  - apply search_go_cons. split.
    + destruct (match_here Q prev_t (c :: t)) as [n|] eqn:Hn; [exfalso|done].
      destruct (bnd_head_step prev prev_t c s t) as [k Hk];
        [by apply pieces_copy|done|by rewrite Hn|].
      destruct Hor as [HR|Hsearch].
      * destruct (bnd_match_nonempty _ _ _ Hk) as [k' ->]. rewrite HR in Hno.
        by apply (Hno k').
      * apply search_go_cons in Hsearch as [Hnone _]. congruence.
    + apply IH; [by left|].
      destruct Hor as [HR|Hsearch]; [by left|right].
      by apply search_go_cons in Hsearch as [_ ?].
  - rewrite search_go_skip_prefix by apply Hinside.
    apply IH.
    + right. split; [apply Hwl|].
      destruct HRe as [R0 HR0]. rewrite HR0 in Hm.
      apply chunk_end_bnd in Hm. by rewrite prev_after_snoc in Hm.
    + destruct Hor as [HR|Hsearch]; [by left|right].
      apply search_go_suffix in Hsearch. by rewrite prev_after_snoc in Hsearch.
Qed.
End SubFree.

(** ** The same for a pattern without word boundaries that ends with a
       repetition *)

Section SubFreeTail.
Variables (U0 : pattern) (p : char → bool) (R : pattern) (repl : text)
          (r0 : char) (repl' : text).
Local Abbreviation Q := (U0 ++ [Rep p 1 None]).
Hypothesis Hrepl : repl = r0 :: repl'.
Hypothesis Hnb : no_bnd U0.
Hypothesis Hrej : rejects U0 r0.
Hypothesis Hfirst :
  ∀ prev x n, match_here R prev x = Some (S n) → ∃ c l, x = c :: l ∧ p c = true.
Hypothesis Hinside : ∀ t, Forall (λ r', ∀ q, match_here Q q (r' ++ t) = None) (tails repl).

Lemma tail_matches_nonempty prev s n : matches Q prev s n → 1 ≤ n.
Proof.
  intros H. apply matches_app in H as (n1 & n2 & -> & _ & H).
  simpl in H. destruct H as (j & n' & -> & Hlo & _). lia.
Qed.

Lemma tail_no_bnd : no_bnd Q.
Proof. apply Forall_app. split; [done|]. by repeat constructor. Qed.

Lemma tail_head_step prev_s prev_t c s t :
  pieces R repl prev_s (c :: s) (c :: t) →
  is_Some (match_here Q prev_t (c :: t)) →
  is_Some (match_here Q prev_s (c :: s)).
Proof.
  intros Hp [n Hn]. apply match_here_sound in Hn.
  apply (no_bnd_prev Q prev_t prev_s) in Hn; [|apply tail_no_bnd].
  apply matches_app in Hn as (n1 & n2 & -> & H1 & H2).
  destruct (transport R repl r0 repl' Hrepl U0 prev_s (c :: s) (c :: t) n1 Hrej)
    as [Hs Hp']; [by left|done|done|].
  simpl in H2. destruct H2 as (j & n' & -> & Hlo & _ & Hlen & Hall & _).
  apply (match_here_complete Q prev_s (c :: s) (n1 + 1)).
  apply matches_app. exists n1, 1. split; [done|]. split; [done|].
  destruct (drop n1 (c :: t)) as [|x t'] eqn:Hdt; [simpl in Hlen; lia|].
  destruct j as [|j]; [lia|]. simpl in Hall. apply Forall_cons in Hall as [Hx _].
  assert (∃ y s', drop n1 (c :: s) = y :: s' ∧ p y = true) as (y & s' & Hds & Hy).
  { inversion Hp' as [|? ? ? ? ? ? Hc1 Hc2 Hc3|? m d ? ? Hmm ? Hc2 Hc3].
    - exists x, s0. split; [done|]. congruence.
    - destruct (Hfirst _ _ (length m) ltac:(rewrite Hmm; f_equal; rewrite length_app; simpl; lia))
        as (y & l & Hyl & Hy).
      exists y, l. by rewrite <- Hyl. }
  rewrite Hds. simpl. exists 1, 0. repeat split; try done; try (simpl; lia).
  simpl. by repeat constructor.
Qed.

Theorem sub_free_tail prev_s s t :
  pieces R repl prev_s s t →
  ∀ prev_t, (R = Q ∨ search_go Q prev_s s = false) →
  search_go Q prev_t t = false.
Proof.
  induction 1 as [prev|prev c s t Hno Hp IH|prev m c s t Hm Hp IH]; intros prev_t Hor.
  - cbn [search_go]. destruct (match_here Q prev_t []) as [n|] eqn:Hn; [|done].
    apply match_here_sound in Hn.
    pose proof (tail_matches_nonempty _ _ _ Hn). apply matches_length in Hn.
    simpl in Hn. lia.
  - apply search_go_cons. split.
    + destruct (match_here Q prev_t (c :: t)) as [n|] eqn:Hn; [exfalso|done].
      destruct (tail_head_step prev prev_t c s t) as [k Hk];
        [by apply pieces_copy|by rewrite Hn|].
      destruct Hor as [HR|Hsearch].
      * pose proof (tail_matches_nonempty _ _ _ (match_here_sound _ _ _ _ Hk)).
        destruct k as [|k']; [lia|]. rewrite HR in Hno. by apply (Hno k').
      * apply search_go_cons in Hsearch as [Hnone _]. congruence.
    + apply IH. destruct Hor as [HR|Hsearch]; [by left|right].
      by apply search_go_cons in Hsearch as [_ ?].
  - rewrite search_go_skip_prefix by apply Hinside.
    apply IH. destruct Hor as [HR|Hsearch]; [by left|right].
    apply search_go_suffix in Hsearch. by rewrite prev_after_snoc in Hsearch.
Qed.
End SubFreeTail.
End RegexFacts.

(* ===================================================================== *)
(** * Matches under renaming, trimming and cutting *)
(* ===================================================================== *)

Section RegexTransforms.
Import Py Re.
Local Open Scope nat_scope.

Lemma rep_greedy_map (f : char → char) p k k' lo hi prev s :
  (∀ c, p (f c) = p c) →
  (∀ pr x, k' (f <$> pr) (f <$> x) = k pr x) →
  rep_greedy p k' lo hi (f <$> prev) (f <$> s) = rep_greedy p k lo hi prev s.
Proof.
  intros Hp Hk. revert lo hi prev. induction s as [|c s IH]; intros lo hi prev.
  - simpl. destruct lo; [|done]. apply (Hk prev []).
  - rewrite fmap_cons. cbn [rep_greedy]. rewrite Hp.
    change (Some (f c)) with (f <$> Some c). rewrite IH.
    pose proof (Hk prev (c :: s)) as Hst. rewrite fmap_cons in Hst.
    by rewrite Hst.
Qed.

Lemma match_here_map (f : char → char) pat prev s :
  class_inv f pat → (∀ c, is_word (f c) = is_word c) →
  match_here pat (f <$> prev) (f <$> s) = match_here pat prev s.
Proof.
  intros Hinv Hw. revert prev s. induction pat as [|a pat IH]; intros prev s; [done|].
  apply Forall_cons in Hinv as [Ha Hinv]. specialize (IH Hinv).
  destruct a as [p|p lo hi|]; simpl in Ha.
  - destruct s as [|c s]; [done|]. rewrite fmap_cons. cbn [match_here]. rewrite Ha.
    destruct (p c); [|done]. change (Some (f c)) with (f <$> Some c). by rewrite IH.
  - cbn [match_here]. by apply rep_greedy_map.
  - cbn [match_here].
    assert (boundary (f <$> prev) (head (f <$> s)) = boundary prev (head s)) as ->.
    { unfold boundary. f_equal.
      - destruct prev; simpl; [apply Hw|done].
      - destruct s; simpl; [done|apply Hw]. }
    by rewrite IH.
Qed.

Lemma search_go_map (f : char → char) pat prev s :
  class_inv f pat → (∀ c, is_word (f c) = is_word c) →
  search_go pat (f <$> prev) (f <$> s) = search_go pat prev s.
Proof.
  intros Hinv Hw. revert prev. induction s as [|c s IH]; intros prev.
  - pose proof (match_here_map f pat prev [] Hinv Hw) as Hm.
    rewrite fmap_nil in Hm |- *. cbn [search_go]. by rewrite Hm.
  - pose proof (match_here_map f pat prev (c :: s) Hinv Hw) as Hm.
    rewrite fmap_cons in Hm |- *. cbn [search_go]. rewrite Hm.
    change (Some (f c)) with (f <$> Some c). by rewrite IH.
Qed.

(** Only the word-ness of the character before matters. *)
Lemma match_here_prev pat p1 p2 s :
  word_opt p1 = word_opt p2 → match_here pat p1 s = match_here pat p2 s.
Proof.
  revert p1 p2 s. induction pat as [|a pat IH]; intros p1 p2 s Hw; [done|].
  destruct a as [p|p lo hi|]; cbn [match_here].
  - done.
  - destruct s as [|c s]; cbn [rep_greedy]; by rewrite (IH p1 p2).
  - unfold boundary. rewrite Hw. by rewrite (IH p1 p2).
Qed.

Lemma search_go_prev pat p1 p2 s :
  word_opt p1 = word_opt p2 → search_go pat p1 s = search_go pat p2 s.
Proof.
  intros Hw. destruct s; cbn [search_go]; by rewrite (match_here_prev pat p1 p2).
Qed.

(** A match stays a match when text is appended, as long as no word
    boundary of the pattern looks at the appended text. *)
Lemma matches_extend pat prev x b n :
  matches pat prev x n →
  no_bnd pat ∨ word_opt (head b) = false ∨ n < length x →
  matches pat prev (x ++ b) n.
Proof.
  revert prev x n. induction pat as [|a pat IH]; intros prev x n Hm Hor; [done|].
  destruct a as [p|p lo hi|]; simpl in Hm |- *.
  - destruct Hm as (c & x' & n' & -> & Hp & -> & Hm).
    exists c, (x' ++ b), n'. repeat split; try done.
    apply IH; [done|].
    destruct Hor as [Hn|[Hb|Hl]]; [left|right; by left|right; right; simpl in Hl; lia].
    by apply Forall_cons in Hn as [_ ?].
  - destruct Hm as (j & n' & -> & Hlo & Hh & Hlen & Hall & Hm).
    exists j, n'. split; [done|]. split; [done|]. split; [done|].
    split; [rewrite length_app; lia|].
    rewrite take_app_le, drop_app_le by done. split; [done|].
    apply IH; [done|].
    destruct Hor as [Hn|[Hb|Hl]]; [left|right; by left|right; right; rewrite length_drop; lia].
    by apply Forall_cons in Hn as [_ ?].
  - destruct Hm as [Hb Hm]. split.
    + destruct Hor as [Hn|[Hw|Hl]].
      * by apply Forall_cons in Hn as [[] _].
      * destruct x as [|c x]; [|done]. simpl. unfold boundary in *. by rewrite Hw.
      * destruct x as [|c x]; [simpl in Hl; lia|done].
    + apply IH; [done|].
      destruct Hor as [Hn|[Hw|Hl]]; [|right; by left|right; by right].
      by apply Forall_cons in Hn as [[] _].
Qed.

(** A search of a prefix, when matches extend. *)
Lemma search_go_prefix pat b :
  (∀ p x, is_Some (match_here pat p x) → is_Some (match_here pat p (x ++ b))) →
  ∀ x prev, search_go pat prev (x ++ b) = false → search_go pat prev x = false.
Proof.
  intros Hext. induction x as [|c x IH]; intros prev H.
  - cbn [search_go]. destruct (match_here pat prev []) eqn:Hm; [|done].
    destruct (Hext prev []) as [k Hk]; [by rewrite Hm|].
    simpl app in Hk, H. destruct b; cbn [search_go] in H; by rewrite Hk in H.
  - simpl app in H. apply search_go_cons in H as [Hnone H].
    apply search_go_cons. split; [|by apply IH].
    destruct (match_here pat prev (c :: x)) eqn:Hm; [|done].
    destruct (Hext prev (c :: x)) as [k Hk]; [by rewrite Hm|].
    simpl in Hk. congruence.
Qed.

Lemma extend_of_matches pat b :
  no_bnd pat ∨ word_opt (head b) = false →
  ∀ p x, is_Some (match_here pat p x) → is_Some (match_here pat p (x ++ b)).
Proof.
  intros Hor p x [n Hn]. apply match_here_sound in Hn.
  apply (match_here_complete pat p (x ++ b) n). apply matches_extend; [done|].
  destruct Hor; [by left|right; by left].
Qed.

(** The longest run of a class at the head of a text. *)
Lemma max_run (p : char → bool) (l : text) :
  ∃ j, j ≤ length l ∧ Forall (λ c, p c = true) (take j l)
       ∧ ∀ c, head (drop j l) = Some c → p c = false.
Proof.
  induction l as [|c l (j & Hj & Hall & Hnext)].
  - exists 0. split; [done|]. split; [constructor|]. done.
  - destruct (p c) eqn:Hc.
    + exists (S j). split; [simpl; lia|]. split; [simpl; by constructor|done].
    + exists 0. split; [lia|]. split; [constructor|]. simpl. by intros ? [= <-].
Qed.

Lemma prev_after_Forall (P : char → Prop) prev l :
  Forall P l → l ≠ [] → ∃ c, prev_after prev l = Some c ∧ P c.
Proof.
  intros Hall Hne. destruct (snoc_of_nonempty l Hne) as (m & c & ->).
  exists c. rewrite prev_after_snoc. split; [done|].
  apply Forall_app in Hall as [_ Hc]. by apply Forall_cons in Hc as [Hc _].
Qed.

(** ** Trimming *)

Lemma lstrip_split (s : text) :
  ∃ a, s = a ++ lstrip s ∧ Forall (λ c, is_space c = true) a.
Proof.
  induction s as [|c s (a & Hs & Ha)]; [by exists []|].
  simpl. destruct (is_space c) eqn:Hc.
  - exists (c :: a). split; [simpl; by rewrite <- Hs|by constructor].
  - by exists [].
Qed.

Lemma strip_split (s : text) :
  ∃ a b, s = a ++ strip s ++ b
         ∧ Forall (λ c, is_space c = true) a ∧ Forall (λ c, is_space c = true) b.
Proof.
  destruct (lstrip_split s) as (a & Hs & Ha).
  destruct (lstrip_split (reverse (lstrip s))) as (b & Hr & Hb).
  exists a, (reverse b). split; [|split; [done|by apply Forall_reverse]].
  unfold strip. rewrite <- reverse_app, <- Hr, reverse_involutive. done.
Qed.
End RegexTransforms.

(* ===================================================================== *)
(** * Redaction *)
(* ===================================================================== *)

Section RedactionFacts.
Import Py Re behavior_digest Spec.
Local Open Scope nat_scope.

(** Decides a relation between character classes by cases on the ranges. *)
Ltac charclass :=
  unfold not_space, email_local_cls, email_domain_cls, phone_cls, ci_s, ci, is_chr, chr,
    is_word, is_alpha, is_digit, is_space, in_range in *;
  simpl N_of_ascii in *;
  try match goal with
      | |- ?X = false => destruct X eqn:?; [exfalso|reflexivity]
      | |- ?X = true => destruct X eqn:?; [reflexivity|exfalso]
      end;
  repeat match goal with
         | H : _ && _ = true |- _ => apply andb_true_iff in H as [? ?]
         | H : _ || _ = true |- _ => apply orb_true_iff in H as [?|?]
         | H : _ && _ = false |- _ => apply andb_false_iff in H as [?|?]
         | H : _ || _ = false |- _ => apply orb_false_iff in H as [? ?]
         | H : negb _ = true |- _ => apply negb_true_iff in H
         | H : negb _ = false |- _ => apply negb_false_iff in H
         | H : (_ <=? _)%N = true |- _ => apply N.leb_le in H
         | H : (_ <=? _)%N = false |- _ => apply N.leb_gt in H
         | H : (_ =? _)%N = true |- _ => apply N.eqb_eq in H
         | H : (_ =? _)%N = false |- _ => apply N.eqb_neq in H
         end;
  try lia.

Lemma space_not_word c : is_space c = true → is_word c = false.
Proof. intros H. charclass. Qed.

Lemma local_not_space c : email_local_cls c = true → not_space c = true.
Proof. intros H. charclass. Qed.

Lemma digit_not_space c : is_digit c = true → not_space c = true.
Proof. intros H. charclass. Qed.

Lemma plus_not_space c : is_chr "+" c = true → not_space c = true.
Proof. intros H. charclass. Qed.

Lemma h_not_space c : ci "h" "H" c = true → not_space c = true.
Proof. intros H. charclass. Qed.

(** ** The first character of a match is not a space *)

Lemma url_first prev x n :
  match_here _RE_URL prev x = Some (S n) → ∃ c l, x = c :: l ∧ not_space c = true.
Proof.
  intros H. apply match_here_sound in H.
  destruct H as (c & l & n' & -> & Hc & _). exists c, l. split; [done|by apply h_not_space].
Qed.

Lemma email_first prev x n :
  match_here _RE_EMAIL prev x = Some (S n) → ∃ c l, x = c :: l ∧ not_space c = true.
Proof.
  intros H. apply match_here_sound in H as [_ (j & n' & _ & Hlo & _ & Hlen & Hall & _)].
  destruct x as [|c l]; [simpl in Hlen; lia|]. destruct j; [lia|].
  simpl in Hall. apply Forall_cons in Hall as [Hc _].
  exists c, l. split; [done|by apply local_not_space].
Qed.

Lemma digits_first prev x n :
  match_here _RE_LONG_DIGITS prev x = Some (S n) → ∃ c l, x = c :: l ∧ not_space c = true.
Proof.
  intros H. apply match_here_sound in H as [_ (j & n' & _ & Hlo & _ & Hlen & Hall & _)].
  destruct x as [|c l]; [simpl in Hlen; lia|]. destruct j; [lia|].
  simpl in Hall. apply Forall_cons in Hall as [Hc _].
  exists c, l. split; [done|by apply digit_not_space].
Qed.

Lemma phone_first prev x n :
  match_here _RE_PHONE prev x = Some (S n) → ∃ c l, x = c :: l ∧ not_space c = true.
Proof.
  intros H. apply match_here_sound in H as [_ (j & n' & _ & _ & _ & Hlen & Hall & Hrest)].
  destruct j as [|j].
  - rewrite take_0, drop_0 in Hrest. destruct Hrest as (c & l & ? & -> & Hc & _).
    exists c, l. split; [done|by apply digit_not_space].
  - destruct x as [|c l]; [simpl in Hlen; lia|].
    simpl in Hall. apply Forall_cons in Hall as [Hc _].
    exists c, l. split; [done|by apply plus_not_space].
Qed.

(** ** Each substitution leaves no match of its own pattern, and keeps the
       text free of the patterns substituted before *)

(** Side conditions on concrete patterns and replacements. *)
Ltac side :=
  first
    [ reflexivity
    | exact I
    | by repeat constructor
    | match goal with
      | |- ∃ R0, ?R = R0 ++ [Bnd] => exists (removelast R); reflexivity
      end
    | by eexists
    | (intros ?; repeat constructor; intros ?; simpl;
       repeat match goal with |- context [boundary ?p ?n] => destruct (boundary p n) end;
       reflexivity) ].

Lemma url_free_after_url s : search _RE_URL (sub _RE_URL (lit "[link]") s) = false.
Proof.
  apply (sub_free_tail url_prefix not_space _RE_URL (lit "[link]") 91%N (tail (lit "[link]")))
    with (prev_s := None) (s := s);
    first [side | apply url_first | apply sub_go_pieces].
Qed.

Lemma url_free_after (R : pattern) (repl' : Py.text) (r0 : char) s :
  r0 = 91%N ∨ r0 = 42%N →
  (∀ prev x n, match_here R prev x = Some (S n) → ∃ c l, x = c :: l ∧ not_space c = true) →
  (∀ t, Forall (λ r', ∀ q, match_here _RE_URL q (r' ++ t) = None) (tails (r0 :: repl'))) →
  search _RE_URL s = false →
  search _RE_URL (sub R (r0 :: repl') s) = false.
Proof.
  intros Hr0 Hfirst Hinside Hs.
  apply (sub_free_tail url_prefix not_space R (r0 :: repl') r0 repl')
    with (prev_s := None) (s := s); try done.
  - by repeat constructor.
  - destruct Hr0 as [-> | ->]; by repeat constructor.
  - apply sub_go_pieces.
  - by right.
Qed.

Lemma email_free_after_email s : search _RE_EMAIL (sub _RE_EMAIL (lit "[email]") s) = false.
Proof.
  apply (sub_free (tail _RE_EMAIL) _RE_EMAIL (lit "[email]") 91%N (tail (lit "[email]")))
    with (prev_s := None) (s := s); first [side | apply sub_go_pieces | by left].
Qed.

Lemma digits_free_after_digits s :
  search _RE_LONG_DIGITS (sub _RE_LONG_DIGITS (lit "***") s) = false.
Proof.
  apply (sub_free (tail _RE_LONG_DIGITS) _RE_LONG_DIGITS (lit "***") 42%N (tail (lit "***")))
    with (prev_s := None) (s := s); first [side | apply sub_go_pieces | by left].
Qed.

Lemma phone_free_after_phone s : search _RE_PHONE (sub _RE_PHONE (lit "***") s) = false.
Proof.
  apply (sub_free (tail _RE_PHONE) _RE_PHONE (lit "***") 42%N (tail (lit "***")))
    with (prev_s := None) (s := s); first [side | apply sub_go_pieces | by left].
Qed.

Lemma email_free_after_digits s :
  search _RE_EMAIL s = false →
  search _RE_EMAIL (sub _RE_LONG_DIGITS (lit "***") s) = false.
Proof.
  intros Hs.
  apply (sub_free (tail _RE_EMAIL) _RE_LONG_DIGITS (lit "***") 42%N (tail (lit "***")))
    with (prev_s := None) (s := s);
    first [side | apply sub_go_pieces | by left | by right].
Qed.

Lemma email_free_after_phone s :
  search _RE_EMAIL s = false →
  search _RE_EMAIL (sub _RE_PHONE (lit "***") s) = false.
Proof.
  intros Hs.
  apply (sub_free (tail _RE_EMAIL) _RE_PHONE (lit "***") 42%N (tail (lit "***")))
    with (prev_s := None) (s := s);
    first [side | apply sub_go_pieces | by left | by right].
Qed.

Lemma digits_free_after_phone s :
  search _RE_LONG_DIGITS s = false →
  search _RE_LONG_DIGITS (sub _RE_PHONE (lit "***") s) = false.
Proof.
  intros Hs.
  apply (sub_free (tail _RE_LONG_DIGITS) _RE_PHONE (lit "***") 42%N (tail (lit "***")))
    with (prev_s := None) (s := s);
    first [side | apply sub_go_pieces | by left | by right].
Qed.

(** ** Newlines, trimming and the final cut *)

Lemma nl_to_space_word c : is_word (nl_to_space c) = is_word c.
Proof.
  unfold nl_to_space. destruct (c =? 10)%N eqn:E; [|done].
  apply N.eqb_eq in E. by subst.
Qed.

Ltac nl_inv :=
  unfold class_inv;
  repeat first [apply Forall_nil_2 | apply Forall_cons_2];
  cbn [atom_class];
  first [ exact I
        | intros c; unfold nl_to_space;
          destruct (c =? 10)%N eqn:E; [apply N.eqb_eq in E; by subst|done] ].

Lemma replace_nl_free pat s :
  class_inv nl_to_space pat → search pat s = false → search pat (replace_nl s) = false.
Proof.
  intros Hinv Hs. unfold search.
  change (replace_nl s) with (nl_to_space <$> s).
  change (@None char) with (nl_to_space <$> @None char).
  rewrite search_go_map; [done|done|apply nl_to_space_word].
Qed.

Lemma spaces_prev_nonword a :
  Forall (λ c, is_space c = true) a → word_opt (prev_after None a) = false.
Proof.
  intros Ha. destruct a as [|c a]; [done|].
  destruct (prev_after_Forall _ None (c :: a) Ha) as (d & -> & Hd); [done|].
  by apply space_not_word.
Qed.

Lemma spaces_head_nonword b :
  Forall (λ c, is_space c = true) b → word_opt (head b) = false.
Proof.
  intros Hb. destruct b as [|c b]; [done|].
  apply Forall_cons in Hb as [Hc _]. by apply space_not_word.
Qed.

Lemma strip_free pat s : search pat s = false → search pat (strip s) = false.
Proof.
  unfold search. intros Hs.
  destruct (strip_split s) as (a & b & Hsplit & Ha & Hb).
  rewrite Hsplit in Hs. apply search_go_suffix in Hs.
  rewrite (search_go_prev pat _ None) in Hs by by apply spaces_prev_nonword.
  apply (search_go_prefix pat b); [|done].
  apply extend_of_matches. right. by apply spaces_head_nonword.
Qed.

Lemma url_no_bnd : no_bnd _RE_URL.
Proof. by repeat constructor. Qed.

Lemma take_free_url k s : search _RE_URL s = false → search _RE_URL (take k s) = false.
Proof.
  unfold search. intros Hs. rewrite <- (take_drop k s) in Hs.
  apply (search_go_prefix _RE_URL (drop k s)); [|done].
  apply extend_of_matches. left. apply url_no_bnd.
Qed.

(** An e-mail match cut short by appended text is still the head of an
    e-mail match: the last word run grows to its end. *)
Lemma email_extend b p x :
  is_Some (match_here _RE_EMAIL p x) → is_Some (match_here _RE_EMAIL p (x ++ b)).
Proof.
  intros [n Hn]. apply match_here_sound in Hn.
  change _RE_EMAIL with (removelast (removelast _RE_EMAIL) ++ [Rep is_word 1 None; Bnd]) in Hn.
  apply matches_app in Hn as (n1 & n2 & -> & H1 & H2).
  destruct H2 as (j & n' & -> & Hlo & _ & Hlen & Hall & _).
  rewrite length_drop in Hlen.
  apply (matches_extend _ _ _ b) in H1; [|right; right; lia].
  set (l := drop n1 (x ++ b)).
  assert (Hl : l = drop n1 x ++ b) by (subst l; rewrite drop_app_le by lia; done).
  destruct (max_run is_word l) as (j' & Hj' & Hall' & Hnext).
  assert (j' ≠ 0) as Hj0.
  { intros ->. rewrite drop_0 in Hnext.
    destruct (drop n1 x) as [|c y] eqn:Hd.
    - apply (f_equal length) in Hd. rewrite length_drop in Hd. simpl in Hd. lia.
    - destruct j; [lia|]. simpl in Hall. apply Forall_cons in Hall as [Hc _].
      rewrite Hl in Hnext. specialize (Hnext c eq_refl). congruence. }
  apply (match_here_complete _RE_EMAIL p (x ++ b) (n1 + (j' + 0))).
  change _RE_EMAIL with (removelast (removelast _RE_EMAIL) ++ [Rep is_word 1 None; Bnd]).
  apply matches_app. exists n1, (j' + 0). split; [done|]. split; [exact H1|].
  rewrite take_app_le by lia. fold l.
  exists j', 0. split; [done|]. split; [lia|]. split; [done|]. split; [done|].
  split; [done|]. split; [|done].
  destruct (prev_after_Forall _ (prev_after p (take n1 x)) (take j' l) Hall')
    as (d & -> & Hd).
  { intros Hnil. apply (f_equal length) in Hnil. rewrite length_take in Hnil.
    simpl in Hnil. lia. }
  unfold boundary. simpl. rewrite Hd.
  destruct (head (drop j' l)) as [e|] eqn:He; [|done].
  simpl. by rewrite (Hnext e).
Qed.

Lemma take_free_email k s :
  search _RE_EMAIL s = false → search _RE_EMAIL (take k s) = false.
Proof.
  unfold search. intros Hs. rewrite <- (take_drop k s) in Hs.
  apply (search_go_prefix _RE_EMAIL (drop k s)); [|done].
  apply email_extend.
Qed.

(** ** The four patterns on the redacted text *)

Lemma redacted_full_free s :
  search _RE_URL (redacted_full s) = false
  ∧ search _RE_EMAIL (redacted_full s) = false
  ∧ search _RE_LONG_DIGITS (redacted_full s) = false
  ∧ search _RE_PHONE (redacted_full s) = false.
Proof.
  unfold redacted_full.
  set (s1 := sub _RE_URL (lit "[link]") s).
  set (s2 := sub _RE_EMAIL (lit "[email]") s1).
  set (s3 := sub _RE_LONG_DIGITS (lit "***") s2).
  set (s4 := sub _RE_PHONE (lit "***") s3).
  assert (Hu1 : search _RE_URL s1 = false) by apply url_free_after_url.
  assert (Hu2 : search _RE_URL s2 = false).
  { apply (url_free_after _RE_EMAIL (tail (lit "[email]")) 91%N);
      [by left|apply email_first|side|done]. }
  assert (Hu3 : search _RE_URL s3 = false).
  { apply (url_free_after _RE_LONG_DIGITS (tail (lit "***")) 42%N);
      [by right|apply digits_first|side|done]. }
  assert (Hu4 : search _RE_URL s4 = false).
  { apply (url_free_after _RE_PHONE (tail (lit "***")) 42%N);
      [by right|apply phone_first|side|done]. }
  assert (He2 : search _RE_EMAIL s2 = false) by apply email_free_after_email.
  assert (He3 : search _RE_EMAIL s3 = false) by by apply email_free_after_digits.
  assert (He4 : search _RE_EMAIL s4 = false) by by apply email_free_after_phone.
  assert (Hd3 : search _RE_LONG_DIGITS s3 = false) by apply digits_free_after_digits.
  assert (Hd4 : search _RE_LONG_DIGITS s4 = false) by by apply digits_free_after_phone.
  assert (Hp4 : search _RE_PHONE s4 = false) by apply phone_free_after_phone.
  repeat split; apply strip_free, replace_nl_free; try done; nl_inv.
Qed.

(** ** Where the snippets of the example rows come from *)

Lemma snippet_loop_from_redaction all msgs i o :
  (∀ m, m ∈ msgs → m ∈ all) →
  from_redaction all i → from_redaction all o →
  from_redaction all (snippet_loop msgs i o).1
  ∧ from_redaction all (snippet_loop msgs i o).2.
Proof.
  revert i o. induction msgs as [|m msgs IH]; intros i o Hsub Hi Ho; [done|].
  cbn [snippet_loop]. cbv zeta.
  match goal with
  | |- context [snippet_loop msgs ?a ?b] => set (i' := a); set (o' := b)
  end.
  assert (Hm : m ∈ all) by (apply Hsub; by left).
  assert (Hi' : from_redaction all i').
  { subst i'.
    match goal with |- from_redaction _ (if ?b then _ else _) => destruct b end;
      [right; exists m; by split|done]. }
  assert (Ho' : from_redaction all o').
  { subst o'.
    match goal with |- from_redaction _ (if ?b then _ else _) => destruct b end;
      [right; exists m; by split|done]. }
  destruct (nonempty i' && nonempty o'); [done|].
  apply IH; [|done|done]. intros m' Hm'. apply Hsub. by right.
Qed.

Lemma chat_snippet_from_redaction ms :
  from_redaction ms (_chat_snippet ms).1 ∧ from_redaction ms (_chat_snippet ms).2.
Proof. apply snippet_loop_from_redaction; [done|by left|by left]. Qed.

Lemma all_cands_ok_mono l e d : all_cands_ok l d → all_cands_ok (l ++ [e]) d.
Proof.
  intros H mid cands c H1 H2. destruct (H mid cands c H1 H2) as (cid & ms & Hin & Hs).
  exists cid, ms. split; [apply elem_of_app; by left|done].
Qed.

Lemma all_cands_ok_step l e d (b : bool) k c :
  all_cands_ok l d → snip_ok (l ++ [e]) c →
  all_cands_ok (l ++ [e]) (if b then setdefault_append d k c else d).
Proof.
  intros Hd Hc. destruct b; [|by apply all_cands_ok_mono].
  intros mid cands c' H1 H2.
  destruct (setdefault_append_elem _ _ _ _ _ _ H1 H2) as [[_ ->]|(l0 & H3 & H4)]; [done|].
  by apply (all_cands_ok_mono l e d Hd mid l0 c').
Qed.

Section WithDetectors.
Variables (kw_intent kw_nextstep re_interrogative : Py.text → bool).

Lemma snip_inv_run t by_chat :
  snip_inv by_chat (process_chats kw_intent kw_nextstep re_interrogative t by_chat).
Proof.
  unfold process_chats.
  apply (foldl_invariant (process_chat kw_intent kw_nextstep re_interrogative t) snip_inv).
  - repeat split; intros mid cands c H; simpl in H; by rewrite lookup_empty in H.
  - intros l st [cid ms] _ (H1 & H2 & H3 & H4).
    unfold process_chat.
    destruct (_chat_snippet ms) as [sn_in sn_out] eqn:Hsn.
    assert (Hok : ∀ score, snip_ok (l ++ [(cid, ms)]) (cid, score, sn_in, sn_out)).
    { intros score. exists cid, ms. split; [apply elem_of_app; right; by left|].
      by rewrite Hsn. }
    unfold snip_inv. cbn [cand_no_reply cand_slow cand_no_next cand_good].
    repeat split; by apply all_cands_ok_step.
Qed.

Lemma rows_of_elem category top row :
  row ∈ rows_of category top →
  ∃ mid items c, top !! mid = Some items ∧ c ∈ items
                 ∧ snippet_in row = cand_sn_in c ∧ snippet_out row = cand_sn_out c.
Proof.
  unfold rows_of. intros H. apply list_elem_of_bind in H as ([mid items] & Hrow & Hin).
  apply elem_of_map_to_list in Hin.
  apply list_elem_of_fmap in Hrow as (c & -> & Hc).
  by exists mid, items, c.
Qed.

Lemma pick_top_ok by_chat d reverse :
  all_cands_ok by_chat d → all_cands_ok by_chat (pick_top d reverse).
Proof.
  intros Hd mid items c H1 H2. unfold pick_top in H1. rewrite lookup_fmap in H1.
  destruct (d !! mid) as [cands|] eqn:Hc; [|done]. simpl in H1. injection H1 as <-.
  apply (Hd mid cands c Hc).
  rewrite <- (sorted_by_perm cand_score reverse cands).
  rewrite <- (take_drop 3 (sorted_by cand_score reverse cands)).
  apply elem_of_app. by left.
Qed.

Lemma examples_from_redaction t by_chat row :
  row ∈ examples (process_chats kw_intent kw_nextstep re_interrogative t by_chat) →
  ∃ cid ms, (cid, ms) ∈ by_chat
            ∧ (snippet_in row, snippet_out row) = _chat_snippet ms
            ∧ from_redaction ms (snippet_in row)
            ∧ from_redaction ms (snippet_out row).
Proof.
  destruct (snip_inv_run t by_chat) as (H1 & H2 & H3 & H4).
  intros Hrow.
  assert (∃ top, all_cands_ok by_chat top ∧ ∃ cat, row ∈ rows_of cat top)
    as (top & Hok & cat & Hin).
  { unfold examples in Hrow.
    repeat (apply elem_of_app in Hrow as [Hrow|Hrow]).
    - exists (top_no_reply (process_chats kw_intent kw_nextstep re_interrogative t by_chat)).
      split; [by apply pick_top_ok|by eexists].
    - exists (top_slow (process_chats kw_intent kw_nextstep re_interrogative t by_chat)).
      split; [by apply pick_top_ok|by eexists].
    - exists (top_no_next (process_chats kw_intent kw_nextstep re_interrogative t by_chat)).
      split; [by apply pick_top_ok|by eexists].
    - exists (top_good (process_chats kw_intent kw_nextstep re_interrogative t by_chat)).
      split; [by apply pick_top_ok|by eexists]. }
  destruct (rows_of_elem _ _ _ Hin) as (mid & items & c & Hl & Hc & -> & ->).
  destruct (Hok mid items c Hl Hc) as (cid & ms & Hchat & Hs).
  exists cid, ms. split; [done|]. split; [done|].
  pose proof (chat_snippet_from_redaction ms) as [Hi Ho].
  rewrite <- Hs in Hi, Ho. done.
Qed.
End WithDetectors.



End RedactionFacts.

(* ===================================================================== *)
(** * The work-hours setting *)
(* ===================================================================== *)

Section StrFacts.
Import Py Re PyStr.

Lemma lstrip_blank (a x : text) :
  Forall (λ c, is_space c = true) a → lstrip (a ++ x) = lstrip x.
Proof. induction 1 as [|c a Hc _ IH]; [done|]. simpl. by rewrite Hc. Qed.

Lemma lstrip_head (c : char) (s : text) :
  is_space c = false → lstrip (c :: s) = c :: s.
Proof. intros H. simpl. by rewrite H. Qed.

(** Trimming drops the white space around a text that neither starts nor
    ends with white space. *)
Lemma strip_padded (a b x : text) (d : char) :
  Forall (λ c, is_space c = true) a → Forall (λ c, is_space c = true) b →
  (∀ c, head (x ++ [d]) = Some c → is_space c = false) → is_space d = false →
  strip (a ++ (x ++ [d]) ++ b) = x ++ [d].
Proof.
  intros Ha Hb Hc Hd. unfold strip.
  rewrite lstrip_blank by done.
  assert (lstrip ((x ++ [d]) ++ b) = (x ++ [d]) ++ b) as ->.
  { destruct x as [|c x]; simpl in *.
    - by rewrite Hd.
    - by rewrite (Hc c eq_refl). }
  rewrite reverse_app, lstrip_blank by by apply Forall_reverse.
  rewrite reverse_app. change (reverse [d]) with [d]. simpl. rewrite Hd.
  change (d :: reverse x) with ([d] ++ reverse x).
  rewrite reverse_app, reverse_involutive. done.
Qed.

Lemma strip_core (x : text) (d : char) :
  (∀ c, head (x ++ [d]) = Some c → is_space c = false) → is_space d = false →
  strip (x ++ [d]) = x ++ [d].
Proof.
  intros Hc Hd. pose proof (strip_padded [] [] x d) as H.
  rewrite app_nil_l, app_nil_r in H. by apply H.
Qed.

Lemma split_once_app (sep : char) (a b : text) :
  Forall (λ c, c ≠ sep) a → split_once sep (a ++ sep :: b) = (a, Some b).
Proof.
  induction 1 as [|c a Hc _ IH]; simpl.
  - by rewrite N.eqb_refl.
  - rewrite IH. by apply N.eqb_neq in Hc as ->.
Qed.

Lemma lstrip_keeps (sep : char) (a b : text) :
  is_space sep = false →
  ∃ a', lstrip (a ++ sep :: b) = a' ++ sep :: b ∧ ∀ c, c ∈ a' → c ∈ a.
Proof.
  intros Hsep. induction a as [|c a (a' & IH & Hsub)]; simpl.
  - rewrite Hsep. by exists [].
  - destruct (is_space c).
    + exists a'. split; [done|]. intros ? ?. right. by apply Hsub.
    + by exists (c :: a).
Qed.

(** Trimming cannot remove a character that is not white space: what is
    left of each side is a part of that side. *)
Lemma strip_keeps (sep : char) (a b : text) :
  is_space sep = false →
  ∃ a' b', strip (a ++ sep :: b) = a' ++ sep :: b'
           ∧ (∀ c, c ∈ a' → c ∈ a) ∧ (∀ c, c ∈ b' → c ∈ b).
Proof.
  intros Hsep. unfold strip.
  destruct (lstrip_keeps sep a b Hsep) as (a' & -> & Ha).
  rewrite reverse_app, reverse_cons, <- app_assoc. simpl.
  destruct (lstrip_keeps sep (reverse b) (reverse a') Hsep) as (b' & -> & Hb).
  exists a', (reverse b'). split.
  - rewrite reverse_app, reverse_cons, reverse_involutive, <- app_assoc. done.
  - split; [done|]. intros c Hc. rewrite elem_of_reverse in Hc.
    apply Hb in Hc. by rewrite elem_of_reverse in Hc.
Qed.

Lemma strip_subset (s : text) (c : char) : c ∈ strip s → c ∈ s.
Proof.
  intros H. destruct (strip_split s) as (a & b & Hs & _).
  rewrite Hs. apply elem_of_app. right. apply elem_of_app. by left.
Qed.

Lemma split_once_absent (sep : char) (s : text) :
  sep ∉ s → split_once sep s = (s, None).
Proof.
  induction s as [|c s IH]; [done|]. intros H. simpl.
  apply not_elem_of_cons in H as [H1 H2].
  destruct (N.eqb_spec c sep) as [->|_]; [done|]. by rewrite IH.
Qed.
End StrFacts.

Section WorkHours.
Import Py Re PyStr analysis_rules work_hours Spec SpecMore.

Lemma digit_facts (c : char) :
  is_digit c = true →
  is_space c = false ∧ c ≠ chr "-" ∧ c ≠ chr ":" ∧ c ≠ chr "+".
Proof.
  unfold is_digit, in_range. intros [H1 H2]%andb_true_iff.
  apply N.leb_le in H1, H2. split.
  - unfold is_space, in_range.
    repeat (apply orb_false_iff; split);
      first [apply N.eqb_neq; lia
            |apply andb_false_iff;
             destruct (N.leb_spec 9 c), (N.leb_spec c 13), (N.leb_spec 28 c),
               (N.leb_spec c 32), (N.leb_spec 8192 c), (N.leb_spec 8232 c);
             first [by left|by right|lia]].
  - unfold chr. simpl. repeat split; lia.
Qed.

Lemma two_digits_spec (n : Z) :
  0 <= n < 100 →
  ∃ a b, two_digits n = [a; b] ∧ is_digit a = true ∧ is_digit b = true
         ∧ int_of_str [a; b] = Returned n.
Proof.
  intros Hn. unfold two_digits.
  pose proof (Z.div_mod n 10 ltac:(lia)) as Hdm.
  pose proof (Z.mod_pos_bound n 10 ltac:(lia)) as Hr.
  assert (0 <= n / 10 <= 9) as Hq by lia.
  set (q := n / 10) in *. set (r := n mod 10) in *.
  exists (dchar q), (dchar r). split; [done|].
  assert (q = 0 ∨ q = 1 ∨ q = 2 ∨ q = 3 ∨ q = 4 ∨ q = 5 ∨ q = 6 ∨ q = 7 ∨ q = 8 ∨ q = 9)
    as Hqc by lia.
  assert (r = 0 ∨ r = 1 ∨ r = 2 ∨ r = 3 ∨ r = 4 ∨ r = 5 ∨ r = 6 ∨ r = 7 ∨ r = 8 ∨ r = 9)
    as Hrc by lia.
  clearbody q r.
  repeat destruct Hqc as [->|Hqc]; try subst q;
    repeat destruct Hrc as [->|Hrc]; try subst r;
    (split; [reflexivity|]; split; [reflexivity|]; vm_compute; f_equal; lia).
Qed.

Lemma time_of_ok h m :
  0 <= h < 24 → 0 <= m < 60 → time_of h m = Returned (hms h m 0).
Proof.
  intros Hh Hm. unfold time_of, hms, c_int.
  replace ((- 2 ^ 31 <=? h) && (h <=? 2 ^ 31 - 1)) with true
    by (symmetry; apply andb_true_iff; lia).
  replace ((- 2 ^ 31 <=? m) && (m <=? 2 ^ 31 - 1)) with true
    by (symmetry; apply andb_true_iff; lia).
  replace ((0 <=? h) && (h <=? 23)) with true by (symmetry; apply andb_true_iff; lia).
  replace ((0 <=? m) && (m <=? 59)) with true by (symmetry; apply andb_true_iff; lia).
  simpl. f_equal. lia.
Qed.

(** The parse of a setting written on two digits, up to the range checks. *)
Lemma parse_format (h1 m1 h2 m2 : Z) (pad_l pad_r : Py.text) :
  0 <= h1 < 100 → 0 <= m1 < 100 → 0 <= h2 < 100 → 0 <= m2 < 100 →
  blank pad_l → blank pad_r →
  _parse_work_hours (pad_l ++ format_hours h1 m1 h2 m2 ++ pad_r)
  = (start ← time_of h1 m1; end_ ← time_of h2 m2; mret (start, end_)).
Proof.
  intros Hh1 Hm1 Hh2 Hm2 Hl Hr.
  destruct (two_digits_spec h1) as (a1 & b1 & E1 & Da1 & Db1 & I1); [lia|].
  destruct (two_digits_spec m1) as (a2 & b2 & E2 & Da2 & Db2 & I2); [lia|].
  destruct (two_digits_spec h2) as (a3 & b3 & E3 & Da3 & Db3 & I3); [lia|].
  destruct (two_digits_spec m2) as (a4 & b4 & E4 & Da4 & Db4 & I4); [lia|].
  destruct (digit_facts _ Da1) as (? & ? & ? & ?), (digit_facts _ Db1) as (? & ? & ? & ?),
    (digit_facts _ Da2) as (? & ? & ? & ?), (digit_facts _ Db2) as (? & ? & ? & ?),
    (digit_facts _ Da3) as (? & ? & ? & ?), (digit_facts _ Db3) as (? & ? & ? & ?),
    (digit_facts _ Da4) as (? & ? & ? & ?), (digit_facts _ Db4) as (? & ? & ? & ?).
  unfold _parse_work_hours, format_hours, hhmm. rewrite E1, E2, E3, E4.
  change ([a1; b1] ++ [chr ":"] ++ [a2; b2]) with ([a1; b1; chr ":"; a2] ++ [b2]).
  change (([a1; b1; chr ":"; a2] ++ [b2]) ++ [chr "-"] ++ [a3; b3] ++ [chr ":"] ++ [a4; b4])
    with ([a1; b1; chr ":"; a2; b2; chr "-"; a3; b3; chr ":"; a4] ++ [b4]).
  rewrite strip_padded; [|done|done|by intros c [= <-]|done].
  change ([a1; b1; chr ":"; a2; b2; chr "-"; a3; b3; chr ":"; a4] ++ [b4])
    with ([a1; b1; chr ":"; a2; b2] ++ chr "-" :: [a3; b3; chr ":"; a4; b4]).
  rewrite split_once_app by (repeat constructor; done).
  cbn [unpack2 mbind outcome_bind bind].
  change [a1; b1; chr ":"; a2; b2] with ([a1; b1; chr ":"; a2] ++ [b2]).
  rewrite strip_core; [|by intros c [= <-]|done].
  change ([a1; b1; chr ":"; a2] ++ [b2]) with ([a1; b1] ++ chr ":" :: [a2; b2]).
  rewrite split_once_app by (repeat constructor; done).
  cbn [unpack2 mbind outcome_bind bind].
  change [a3; b3; chr ":"; a4; b4] with ([a3; b3; chr ":"; a4] ++ [b4]).
  rewrite strip_core; [|by intros c [= <-]|done].
  change ([a3; b3; chr ":"; a4] ++ [b4]) with ([a3; b3] ++ chr ":" :: [a4; b4]).
  rewrite split_once_app by (repeat constructor; done).
  cbn [unpack2 mbind outcome_bind bind].
  rewrite I1, I2. cbn [mbind outcome_bind bind].
  destruct (time_of h1 m1) as [t1|e1]; [|done]. cbn [mbind outcome_bind bind].
  rewrite I3, I4. done.
Qed.

(** X1: the setting ["HH:MM-HH:MM"], with any white space around it, is
    read back as the two times of day. *)
Theorem parse_work_hours_round_trip (h1 m1 h2 m2 : Z) (pad_l pad_r : Py.text) :
  0 <= h1 < 24 → 0 <= m1 < 60 → 0 <= h2 < 24 → 0 <= m2 < 60 →
  blank pad_l → blank pad_r →
  _parse_work_hours (pad_l ++ format_hours h1 m1 h2 m2 ++ pad_r)
  = Returned (hms h1 m1 0, hms h2 m2 0).
Proof.
  intros Hh1 Hm1 Hh2 Hm2 Hl Hr.
  rewrite parse_format by (done || lia).
  by rewrite !time_of_ok by lia.
Qed.

Lemma parse_work_hours_round_trip_witness :
  _parse_work_hours (lit "10:00-23:00") = Returned (hms 10 0 0, hms 23 0 0).
Proof.
  apply (parse_work_hours_round_trip 10 0 23 0 [] []); first [lia | constructor].
Defined.

Lemma bind_Returned {A B} (c : outcome A) (k : A → outcome B) (r : B) :
  c ≫= k = Returned r → ∃ a, c = Returned a ∧ k a = Returned r.
Proof. destruct c as [a|e]; [|done]. intros H. by exists a. Qed.

Lemma time_of_Returned h m t :
  time_of h m = Returned t →
  0 <= t < us_per_day ∧ (60 * us_per_sec | t) ∧ 0 <= h <= 23 ∧ 0 <= m <= 59
  ∧ t = hms h m 0.
Proof.
  unfold time_of, hms.
  destruct (c_int h && c_int m); [|done].
  destruct ((0 <=? h) && (h <=? 23)) eqn:Eh; [|done].
  destruct ((0 <=? m) && (m <=? 59)) eqn:Em; [|done].
  simpl. intros [= <-].
  apply andb_true_iff in Eh as [?%Z.leb_le ?%Z.leb_le].
  apply andb_true_iff in Em as [?%Z.leb_le ?%Z.leb_le].
  unfold us_per_day, us_per_sec. split; [lia|]. split; [|split; [lia|split; [lia|lia]]].
  exists (h * 60 + m). lia.
Qed.

(** X2: every window the parser returns is a pair of times of day on whole
    minutes, from 00:00 to 23:59.  The second may be at or before the
    first. *)
Theorem parse_work_hours_range (s : Py.text) (ws we : Z) :
  _parse_work_hours s = Returned (ws, we) →
  0 <= ws < us_per_day ∧ 0 <= we < us_per_day
  ∧ (60 * us_per_sec | ws) ∧ (60 * us_per_sec | we)
  ∧ ∃ h1 m1 h2 m2, 0 <= h1 <= 23 ∧ 0 <= m1 <= 59 ∧ 0 <= h2 <= 23 ∧ 0 <= m2 <= 59
                   ∧ ws = hms h1 m1 0 ∧ we = hms h2 m2 0.
Proof.
  unfold _parse_work_hours. intros H.
  apply bind_Returned in H as ([a b] & _ & H).
  apply bind_Returned in H as ([h1 m1] & _ & H).
  apply bind_Returned in H as ([h2 m2] & _ & H).
  apply bind_Returned in H as (h1' & _ & H).
  apply bind_Returned in H as (m1' & _ & H).
  apply bind_Returned in H as (t1 & Ht1 & H).
  apply bind_Returned in H as (h2' & _ & H).
  apply bind_Returned in H as (m2' & _ & H).
  apply bind_Returned in H as (t2 & Ht2 & H).
  injection H as <- <-.
  apply time_of_Returned in Ht1 as (? & ? & ? & ? & ?), Ht2 as (? & ? & ? & ? & ?).
  split; [done|]. split; [done|]. split; [done|]. split; [done|].
  by exists h1', m1', h2', m2'.
Qed.

Lemma parse_work_hours_range_witness :
  0 <= hms 22 0 0 < us_per_day ∧ 0 <= hms 6 0 0 < us_per_day
  ∧ hms 6 0 0 < hms 22 0 0.
Proof.
  destruct (parse_work_hours_range (lit "22:00-06:00") (hms 22 0 0) (hms 6 0 0))
    as (H1 & H2 & _); [reflexivity|].
  split; [exact H1|]. split; [exact H2|]. reflexivity.
Defined.

(** X3: a setting without ["-"], or whose first part has no [":"], or
    whose second part has none, raises [ValueError]; so does an hour above
    23 or a minute above 59.  The parser raises nothing but [ValueError]
    and, for a number that does not fit a C [int], [OverflowError]. *)
Theorem parse_work_hours_malformed :
  (∀ s, chr "-" ∉ s → ∃ msg, _parse_work_hours s = Raised (ValueError msg))
  ∧ (∀ a b, chr "-" ∉ a → chr ":" ∉ a →
            ∃ msg, _parse_work_hours (a ++ [chr "-"] ++ b) = Raised (ValueError msg))
  ∧ (∀ a b, chr "-" ∉ a → chr ":" ∉ b →
            ∃ msg, _parse_work_hours (a ++ [chr "-"] ++ b) = Raised (ValueError msg))
  ∧ (∀ h1 m1 h2 m2, 0 <= h1 < 100 → 0 <= m1 < 100 → 0 <= h2 < 100 → 0 <= m2 < 100 →
       (24 <= h1 ∨ 60 <= m1 ∨ 24 <= h2 ∨ 60 <= m2) →
       ∃ msg, _parse_work_hours (format_hours h1 m1 h2 m2) = Raised (ValueError msg))
  ∧ (∀ s e, _parse_work_hours s = Raised e →
            (∃ msg, e = ValueError msg) ∨ e = OverflowError).
Proof.
  assert (Hsep : is_space (chr "-") = false) by reflexivity.
  assert (Hhalf : ∀ a b, chr "-" ∉ a →
            ∃ a' b', strip (a ++ [chr "-"] ++ b) = a' ++ chr "-" :: b'
                     ∧ split_once (chr "-") (a' ++ chr "-" :: b') = (a', Some b')
                     ∧ (∀ c, c ∈ a' → c ∈ a) ∧ (∀ c, c ∈ b' → c ∈ b)).
  { intros a b Ha. destruct (strip_keeps (chr "-") a b Hsep) as (a' & b' & Hs & Ha' & Hb').
    exists a', b'. split; [done|]. split; [|done].
    apply split_once_app. apply Forall_forall. intros c Hc ->. apply Ha. by apply Ha'. }
  split; [|split; [|split; [|split]]].
  - intros s Hs. unfold _parse_work_hours.
    rewrite split_once_absent by (intros H; by apply Hs, strip_subset).
    by eexists.
  - intros a b Ha Hc. unfold _parse_work_hours.
    destruct (Hhalf a b Ha) as (a' & b' & -> & -> & Ha' & _).
    cbn [unpack2 mbind outcome_bind bind].
    rewrite (split_once_absent (chr ":") (strip a'))
      by (intros H; by apply Hc, Ha', strip_subset).
    by eexists.
  - intros a b Ha Hc. unfold _parse_work_hours.
    destruct (Hhalf a b Ha) as (a' & b' & -> & -> & _ & Hb').
    cbn [unpack2 mbind outcome_bind bind].
    destruct (split_once (chr ":") (strip a')) as [h1 [m1|]]; [|by eexists].
    cbn [unpack2 mbind outcome_bind bind].
    rewrite (split_once_absent (chr ":") (strip b'))
      by (intros H; by apply Hc, Hb', strip_subset).
    by eexists.
  - intros h1 m1 h2 m2 Hh1 Hm1 Hh2 Hm2 Hbad.
    pose proof (parse_format h1 m1 h2 m2 [] [] Hh1 Hm1 Hh2 Hm2) as H.
    rewrite app_nil_l, app_nil_r in H. rewrite H by constructor.
    assert (Hc : ∀ n, 0 <= n < 100 → c_int n = true)
      by (intros n Hn; unfold c_int; apply andb_true_iff; lia).
    unfold time_of. rewrite !Hc by done. cbn [andb negb].
    destruct ((0 <=? h1) && (h1 <=? 23)) eqn:E1; [|by eexists].
    destruct ((0 <=? m1) && (m1 <=? 59)) eqn:E2; [|by eexists].
    destruct ((0 <=? h2) && (h2 <=? 23)) eqn:E3; [|by eexists].
    destruct ((0 <=? m2) && (m2 <=? 59)) eqn:E4; [|by eexists].
    apply andb_true_iff in E1 as [_ ?%Z.leb_le], E2 as [_ ?%Z.leb_le],
      E3 as [_ ?%Z.leb_le], E4 as [_ ?%Z.leb_le]. lia.
  - intros s e. unfold _parse_work_hours.
    assert (Hu : ∀ p, (∃ r, unpack2 p = Returned r)
                      ∨ ∃ msg, unpack2 p = Raised (ValueError msg)).
    { intros [a [b|]]; [left|right]; by eexists. }
    assert (Hi : ∀ x, (∃ r, int_of_str x = Returned r)
                      ∨ ∃ msg, int_of_str x = Raised (ValueError msg)).
    { intros x. unfold int_of_str.
      destruct (strip_by is_int_space x) as [|c r]; [right; by eexists|].
      destruct (if is_chr "-" c then _ else _) as [neg [|d body]]; [right; by eexists|].
      destruct (digit_val d ≫= _); [left|right]; by eexists. }
    assert (Ht : ∀ h m, (∃ r, time_of h m = Returned r)
                        ∨ (∃ msg, time_of h m = Raised (ValueError msg))
                        ∨ time_of h m = Raised OverflowError).
    { intros h m. unfold time_of. destruct (negb (c_int h && c_int m)); [by right; right|].
      destruct (negb _); [right; left; by eexists|].
      destruct (negb _); [right; left; by eexists|left; by eexists]. }
    destruct (Hu (split_once (chr "-") (strip s))) as [[[a b] ->]|[msg ->]];
      [|intros [= <-]; left; by eexists].
    cbn [mbind outcome_bind bind].
    destruct (Hu (split_once (chr ":") (strip a))) as [[[h1 m1] ->]|[msg ->]];
      [|intros [= <-]; left; by eexists].
    cbn [mbind outcome_bind bind].
    destruct (Hu (split_once (chr ":") (strip b))) as [[[h2 m2] ->]|[msg ->]];
      [|intros [= <-]; left; by eexists].
    cbn [mbind outcome_bind bind].
    destruct (Hi h1) as [[n1 ->]|[msg ->]]; [|intros [= <-]; left; by eexists].
    cbn [mbind outcome_bind bind].
    destruct (Hi m1) as [[k1 ->]|[msg ->]]; [|intros [= <-]; left; by eexists].
    cbn [mbind outcome_bind bind].
    destruct (Ht n1 k1) as [[t1 ->]|[[msg ->]| ->]];
      [|intros [= <-]; left; by eexists|intros [= <-]; by right].
    cbn [mbind outcome_bind bind].
    destruct (Hi h2) as [[n2 ->]|[msg ->]]; [|intros [= <-]; left; by eexists].
    cbn [mbind outcome_bind bind].
    destruct (Hi m2) as [[k2 ->]|[msg ->]]; [|intros [= <-]; left; by eexists].
    cbn [mbind outcome_bind bind].
    destruct (Ht n2 k2) as [[t2 ->]|[[msg ->]| ->]];
      [|intros [= <-]; left; by eexists|intros [= <-]; by right].
    done.
Qed.
End WorkHours.
(* ===================================================================== *)
(** * The business clock, further *)
(* ===================================================================== *)

Section BusinessClockMore.
Import Py analysis_rules Spec.

Lemma days_between_split a b c :
  a <= b + 1 → b <= c →
  days_between a c = days_between a b ++ days_between (b + 1) c.
Proof.
  intros Hab Hbc.
  remember (Z.to_nat (b - a + 1)) as n eqn:Hn.
  revert a Hab Hn. induction n as [|n IH]; intros a Hab Hn.
  - assert (a = b + 1) as -> by lia. by rewrite (days_between_empty (b + 1) b) by lia.
  - rewrite (days_between_cons a c), (days_between_cons a b) by lia.
    simpl. f_equal. apply IH; lia.
Qed.

Lemma sum_nonneg (f : Z → Z) (l : list Z) :
  (∀ d, 0 <= f d) → 0 <= foldr Z.add 0 (f <$> l).
Proof.
  intros Hf. induction l as [|d l IH]; [simpl; lia|].
  rewrite fmap_cons. cbn [foldr]. specialize (Hf d). lia.
Qed.

Lemma sum_app (f : Z → Z) (l1 l2 : list Z) :
  foldr Z.add 0 (f <$> l1 ++ l2)
  = foldr Z.add 0 (f <$> l1) + foldr Z.add 0 (f <$> l2).
Proof.
  induction l1 as [|d l1 IH]; [simpl; lia|].
  rewrite <- app_comm_cons, !fmap_cons. cbn [foldr]. lia.
Qed.

Lemma sum_pointwise (f g : Z → Z) (l : list Z) :
  (∀ d, f d <= g d) → foldr Z.add 0 (f <$> l) <= foldr Z.add 0 (g <$> l).
Proof.
  intros H. induction l as [|d l IH]; [simpl; lia|].
  rewrite !fmap_cons. cbn [foldr]. specialize (H d). lia.
Qed.

(** A sum of non-negative daily amounts grows with the range of days. *)
Lemma sum_days_mono (f g : Z → Z) a b a' b' :
  a' <= a → b <= b' → (∀ d, f d <= g d) → (∀ d, 0 <= g d) →
  foldr Z.add 0 (f <$> days_between a b) <= foldr Z.add 0 (g <$> days_between a' b').
Proof.
  intros Ha Hb Hfg Hg.
  destruct (decide (b < a)) as [Hlt|Hge].
  - rewrite days_between_empty by done. simpl. by apply sum_nonneg.
  - rewrite (days_between_split a' (a - 1) b') by lia.
    replace (a - 1 + 1) with a by lia.
    rewrite (days_between_split a b b') by lia.
    rewrite !sum_app.
    pose proof (sum_nonneg g (days_between a' (a - 1)) Hg).
    pose proof (sum_nonneg g (days_between (b + 1) b') Hg).
    pose proof (sum_pointwise f g (days_between a b) Hfg). lia.
Qed.

Lemma overlap_secs_mono s e s' e' ws we d :
  s' <= s → e <= e' → overlap_secs s e ws we d <= overlap_secs s' e' ws we d.
Proof.
  intros Hs He. unfold overlap_secs. cbv zeta.
  set (x := Z.min e _ - Z.max s _). set (y := Z.min e' _ - Z.max s' _).
  assert (x <= y) by (subst x y; lia).
  pose proof us_per_sec_pos.
  destruct (x >? 0) eqn:Ex, (y >? 0) eqn:Ey;
    rewrite Z.gtb_ltb in Ex, Ey;
    try apply Z.ltb_lt in Ex; try apply Z.ltb_ge in Ex;
    try apply Z.ltb_lt in Ey; try apply Z.ltb_ge in Ey.
  - by apply Z.div_le_mono.
  - lia.
  - apply Z.div_pos; lia.
  - lia.
Qed.

(** The overlaps of the days [a .. a+n-1] fit, one after the other, in
    the part of the span that falls on those days. *)
Lemma overlaps_fit s e ws we (n : nat) a :
  0 <= ws → we <= us_per_day →
  foldr Z.add 0 (overlap_secs s e ws we <$> days_between a (a + Z.of_nat n - 1)) * us_per_sec
  <= Z.max 0 (Z.min e ((a + Z.of_nat n) * us_per_day) - Z.max s (a * us_per_day)).
Proof.
  intros H0 H1. revert a. induction n as [|n IH]; intros a.
  - rewrite days_between_empty by lia. simpl. lia.
  - rewrite days_between_cons by lia. rewrite fmap_cons. cbn [foldr].
    specialize (IH (a + 1)).
    replace (a + 1 + Z.of_nat n - 1) with (a + Z.of_nat (S n) - 1) in IH by lia.
    replace (a + 1 + Z.of_nat n) with (a + Z.of_nat (S n)) in IH by lia.
    set (rest := foldr Z.add 0 _) in *.
    assert (overlap_secs s e ws we a * us_per_sec
            <= Z.max 0 (Z.min e ((a + 1) * us_per_day) - Z.max s (a * us_per_day))) as Hd.
    { unfold overlap_secs, combine. cbv zeta.
      set (seg := Z.min e _ - Z.max s _).
      pose proof us_per_sec_pos.
      destruct (seg >? 0) eqn:E; [|lia].
      rewrite Z.gtb_ltb in E. apply Z.ltb_lt in E.
      pose proof (Z.mul_div_le seg us_per_sec ltac:(lia)).
      subst seg. lia. }
    assert ((a + 1) * us_per_day <= (a + Z.of_nat (S n)) * us_per_day)
      by (pose proof us_per_day_pos; nia).
    lia.
Qed.

Lemma spec_elapsed_le_wall s e ws we :
  s <= e → 0 <= ws → we <= us_per_day →
  spec_elapsed s e ws we * us_per_sec <= e - s.
Proof.
  intros Hse H0 H1. unfold spec_elapsed.
  assert (date_of s <= date_of e) as Hd by by apply date_of_mono.
  pose proof (overlaps_fit s e ws we (Z.to_nat (date_of e - date_of s + 1)) (date_of s) H0 H1) as H.
  replace (date_of s + Z.of_nat (Z.to_nat (date_of e - date_of s + 1)) - 1)
    with (date_of e) in H by lia.
  lia.
Qed.

Lemma spec_elapsed_mono s e s' e' ws we :
  s' <= s → e <= e' → spec_elapsed s e ws we <= spec_elapsed s' e' ws we.
Proof.
  intros Hs He. unfold spec_elapsed.
  apply sum_days_mono; [by apply date_of_mono|by apply date_of_mono| |].
  - intros d. by apply overlap_secs_mono.
  - intros d. apply overlap_secs_nonneg.
Qed.




End BusinessClockMore.

(* ===================================================================== *)
(** * Per-chat metrics, further *)
(* ===================================================================== *)

Section ChatMetricsMore.
Import Py PyStr analysis_rules work_hours Spec SpecMore.

(** A reply exists exactly when the search of the first outbound stamp
    succeeds. *)
Lemma replied_iff ms :
  replied ms ↔
  ∃ fi fo, min_opt (inbound_times ms) = Some fi
           ∧ first_at_or_after fi (outbound_times ms) = Some fo.
Proof.
  split.
  - intros (ti & to & Hti & Hto & Hle).
    destruct (min_opt (inbound_times ms)) as [fi|] eqn:Hfi.
    + apply min_opt_Some in Hfi as [_ Hmin]. exists fi.
      destruct (first_at_or_after fi (outbound_times ms)) as [fo|] eqn:Hfo; [by exists fo|].
      rewrite first_at_or_after_None in Hfo.
      specialize (Hfo to Hto). specialize (Hmin ti Hti). lia.
    + apply min_opt_None in Hfi. rewrite Hfi in Hti. by apply elem_of_nil in Hti.
  - intros (fi & fo & Hfi & Hfo).
    apply min_opt_Some in Hfi as [Hin _].
    apply first_at_or_after_Some in Hfo as (Hto & Hle & _).
    by exists fi, fo.
Qed.

Lemma dedup_seen_NoDup seen l :
  NoDup l → (∀ a, a ∈ l → a ∉ seen) → dedup_seen seen l = l.
Proof.
  intros Hnd. revert seen. induction Hnd as [|a l Hnot Hnd IH]; intros seen Hdis; [done|].
  simpl. rewrite bool_decide_eq_false_2 by (apply Hdis; by left).
  f_equal. apply IH. intros b Hb [->|Hs]%elem_of_cons; [done|].
  apply (Hdis b); [by right|done].
Qed.

Lemma length_omap_le {A B} (f : A → option B) (l : list A) :
  (length (omap f l) ≤ length l)%nat.
Proof.
  induction l as [|a l IH]; [done|].
  change (omap f (a :: l)) with (match f a with Some y => y :: omap f l | None => omap f l end).
  destruct (f a); simpl; lia.
Qed.

Lemma in_out_counts (ms : list message) :
  (length (filter (λ x, direction x = "in"%string) ms)
   + length (filter (λ x, direction x = "out"%string) ms) ≤ length ms)%nat.
Proof.
  induction ms as [|x ms IH]; [done|].
  rewrite !filter_cons.
  destruct (decide (direction x = "in"%string)) as [E|?],
    (decide (direction x = "out"%string)) as [E'|?]; simpl; try lia.
  rewrite E in E'. discriminate.
Qed.

Section WithDetectors.
Variables (has_question price_intent buy_intent avail_intent next_step : Py.text → bool).

Local Abbreviation compute :=
  (compute_chat_metrics has_question price_intent buy_intent avail_intent next_step).
Local Abbreviation compute_from :=
  (compute_chat_metrics_from has_question price_intent buy_intent avail_intent next_step).

(** The call never looks at the window when no outbound stamp follows the
    first inbound one. *)
Lemma compute_without_reply ms ws we slow :
  ¬ replied ms →
  ∃ m, compute ms ws we slow = Returned m ∧ first_response_sec m = None
       ∧ first_outbound_at m = None.
Proof.
  intros Hno. unfold compute_chat_metrics.
  fold (inbound_times ms). fold (outbound_times ms).
  destruct (min_opt (inbound_times ms)) as [fi|] eqn:Hfi.
  - destruct (first_at_or_after fi (outbound_times ms)) as [fo|] eqn:Hfo.
    + exfalso. apply Hno, replied_iff. by exists fi, fo.
    + simpl. eexists. split; [reflexivity|]. by simpl.
  - simpl. eexists. split; [reflexivity|]. by simpl.
Qed.

Lemma compute_overnight_reply ms ws we slow :
  we <= ws → replied ms →
  ∃ msg, compute ms ws we slow = Raised (ValueError msg).
Proof.
  intros Hw (fi & fo & Hfi & Hfo)%replied_iff. unfold compute_chat_metrics.
  fold (inbound_times ms). fold (outbound_times ms).
  rewrite Hfi, Hfo.
  apply first_at_or_after_Some in Hfo as (_ & Hle & _).
  unfold _business_seconds_between.
  replace (fo <? fi) with false by (symmetry; apply Z.ltb_ge; lia).
  replace (we <=? ws) with true by (symmetry; apply Z.leb_le; lia).
  by eexists.
Qed.


(** Closes a closed decidable goal by evaluation. *)
Ltac by_decide :=
  match goal with |- ?P => exact (bool_decide_unpack P I) end.

(** The five rules as booleans, and the advice they give. *)
Lemma advice_of_rules (b1 b2 b3 b4 b5 : bool) :
  let l := (if b1 then [AdviceNoReply] else []) ++ (if b2 then [AdviceSlowFirstReply] else [])
           ++ (if b3 then [AdviceUnanswered] else []) ++ (if b4 then [AdviceFewQuestions] else [])
           ++ (if b5 then [AdviceNoNextStep] else []) in
  dedup_seen [] l = l ∧ NoDup l ∧ sublist l advice_order
  ∧ (AdviceNoReply ∈ l ↔ b1 = true) ∧ (AdviceSlowFirstReply ∈ l ↔ b2 = true)
  ∧ (AdviceUnanswered ∈ l ↔ b3 = true) ∧ (AdviceFewQuestions ∈ l ↔ b4 = true)
  ∧ (AdviceNoNextStep ∈ l ↔ b5 = true).
Proof.
  destruct b1, b2, b3, b4, b5; cbv zeta; simpl app;
    (split; [reflexivity|]);
    (split; [by_decide|]);
    (split; [unfold advice_order;
             repeat first [apply sublist_nil | apply sublist_skip | apply sublist_cons]|]);
    repeat split; intros H; try done;
    first [by_decide | by apply (bool_decide_pack _) in H].
Qed.

(** The fields of a returned record, one by one. *)
Lemma compute_fields ms ws we slow m :
  compute ms ws we slow = Returned m →
  let ic := Z.of_nat (length (filter (λ x, direction x = "in"%string) ms)) in
  let oc := Z.of_nat (length (filter (λ x, direction x = "out"%string) ms)) in
  inbound_count m = ic ∧ outbound_count m = oc
  ∧ first_inbound_at m = min_opt (inbound_times ms)
  ∧ first_outbound_at m =
      match min_opt (inbound_times ms) with
      | Some fi => first_at_or_after fi (outbound_times ms)
      | None => None
      end
  ∧ last_inbound_at m = max_opt (inbound_times ms)
  ∧ last_outbound_at m = max_opt (outbound_times ms)
  ∧ unanswered_inbound m = unanswered_block (inbound_times ms) (outbound_times ms)
  ∧ match first_inbound_at m, first_outbound_at m with
    | Some fi, Some fo =>
        _business_seconds_between fi fo ws we = Returned (first_response_sec m)
    | _, _ => first_response_sec m = None
    end
  ∧ advice m =
      dedup_seen []
        ((if (ic >? 0) && (oc =? 0) then [AdviceNoReply] else [])
         ++ (if match first_response_sec m with Some v => v >? slow | None => false end
             then [AdviceSlowFirstReply] else [])
         ++ (if unanswered_inbound m >? 0 then [AdviceUnanswered] else [])
         ++ (if (ic >? 0) && (oc >? 0) && negb (has_question (text_out ms))
             then [AdviceFewQuestions] else [])
         ++ (if (ic >? 0) && (oc >? 0)
                && (price_intent (text_in ms) || buy_intent (text_in ms)
                    || avail_intent (text_in ms))
                && negb (next_step (text_out ms))
             then [AdviceNoNextStep] else [])).
Proof.
  unfold compute_chat_metrics.
  fold (inbound_times ms). fold (outbound_times ms).
  fold (outbound_texts ms). fold (inbound_texts ms).
  fold (text_out ms). fold (text_in ms).
  set (bsb := match min_opt (inbound_times ms) with Some _ => _ | None => _ end).
  intros H. destruct bsb as [frs|e] eqn:Hbsb; [|done].
  simpl in H. injection H as <-. cbv zeta. cbn [inbound_count outbound_count
    first_inbound_at first_outbound_at first_response_sec last_inbound_at
    last_outbound_at unanswered_inbound advice].
  split; [done|]. split; [done|]. split; [done|]. split; [done|].
  split; [done|]. split; [done|]. split; [done|]. split.
  - subst bsb. destruct (min_opt (inbound_times ms)) as [fi|]; [|by injection Hbsb as <-].
    destruct (first_at_or_after fi (outbound_times ms)) as [fo|]; [done|].
    by injection Hbsb as <-.
  - f_equal. unfold content_advice.
    destruct (_ >? 0), (_ =? 0), (_ >? 0);
      destruct frs as [v|]; try destruct (v >? slow);
      destruct (unanswered_block _ _ >? 0), (has_question _),
        (price_intent _), (buy_intent _), (avail_intent _), (next_step _); reflexivity.
Qed.

(** X7: the advice of a chat.  Each of the five sentences appears at most
    once, in the order the rules are tried, and exactly when its rule
    holds: no reply (inbound messages and no outbound one), slow first
    reply (a first response time above the threshold), unanswered inbound
    messages, no question in the first six outbound texts, and interest
    in the first six inbound texts without a next step in the outbound
    ones; the two content rules need messages in both directions. *)
Theorem advice_rules (ms : list message) (ws we slow : Z) (m : ChatMetrics) :
  compute ms ws we slow = Returned m →
  NoDup (advice m) ∧ sublist (advice m) advice_order
  ∧ (AdviceNoReply ∈ advice m ↔ 0 < inbound_count m ∧ outbound_count m = 0)
  ∧ (AdviceSlowFirstReply ∈ advice m ↔ ∃ v, first_response_sec m = Some v ∧ slow < v)
  ∧ (AdviceUnanswered ∈ advice m ↔ 0 < unanswered_inbound m)
  ∧ (AdviceFewQuestions ∈ advice m ↔
       0 < inbound_count m ∧ 0 < outbound_count m ∧ has_question (text_out ms) = false)
  ∧ (AdviceNoNextStep ∈ advice m ↔
       0 < inbound_count m ∧ 0 < outbound_count m
       ∧ (price_intent (text_in ms) || buy_intent (text_in ms)
          || avail_intent (text_in ms)) = true
       ∧ next_step (text_out ms) = false).
Proof.
  intros H. destruct (compute_fields ms ws we slow m H)
    as (Hic & Hoc & _ & _ & _ & _ & _ & _ & Hadv). cbv zeta in Hadv.
  rewrite <- Hic, <- Hoc in Hadv.
  match type of Hadv with
  | _ = dedup_seen [] ((if ?b1 then _ else _) ++ (if ?b2 then _ else _)
          ++ (if ?b3 then _ else _) ++ (if ?b4 then _ else _) ++ (if ?b5 then _ else _)) =>
      destruct (advice_of_rules b1 b2 b3 b4 b5) as (Hd & Hnd & Hsub & H1 & H2 & H3 & H4 & H5)
  end.
  cbv zeta in Hd, Hnd, Hsub, H1, H2, H3, H4, H5.
  rewrite Hd in Hadv. rewrite <- Hadv in Hnd, Hsub, H1, H2, H3, H4, H5.
  split; [done|]. split; [done|].
  split; [|split; [|split; [|split]]].
  - rewrite H1, andb_true_iff, Z.gtb_ltb, Z.ltb_lt, Z.eqb_eq. done.
  - rewrite H2. destruct (first_response_sec m) as [v|].
    + rewrite Z.gtb_ltb, Z.ltb_lt. split; [intros ?; by exists v|].
      by intros (? & [= <-] & ?).
    + split; [done|]. by intros (? & ? & _).
  - rewrite H3, Z.gtb_ltb, Z.ltb_lt. done.
  - rewrite H4, !andb_true_iff, negb_true_iff, !Z.gtb_ltb, !Z.ltb_lt. tauto.
  - rewrite H5, !andb_true_iff, negb_true_iff, !Z.gtb_ltb, !Z.ltb_lt. tauto.
Qed.

(** X8: a chat with inbound messages and no outbound one is computed under
    every window, also one with [work_end <= work_start]: it has no first
    outbound stamp and no first response time, all its stamped inbound
    messages are unanswered, and its advice is the no-reply sentence,
    followed by the unanswered sentence when an inbound message has a
    stamp. *)
Theorem no_reply_chat (ms : list message) (ws we slow : Z) :
  (∃ x, x ∈ ms ∧ direction x = "in"%string) →
  (∀ x, x ∈ ms → direction x ≠ "out"%string) →
  ∃ m, compute ms ws we slow = Returned m
       ∧ outbound_count m = 0
       ∧ first_outbound_at m = None ∧ last_outbound_at m = None
       ∧ first_response_sec m = None
       ∧ unanswered_inbound m = Z.of_nat (length (inbound_times ms))
       ∧ advice m = if decide (inbound_times ms = [])
                    then [AdviceNoReply] else [AdviceNoReply; AdviceUnanswered].
Proof.
  intros (x & Hx & Hdir) Hout.
  assert (Hof : filter (λ x, direction x = "out"%string) ms = [])
    by (apply filter_none; intros y Hy; by apply Hout).
  assert (Hot : outbound_times ms = []) by (unfold outbound_times; by rewrite Hof).
  assert (Hno : ¬ replied ms).
  { intros (ti & to & _ & Hto & _). rewrite Hot in Hto. by apply elem_of_nil in Hto. }
  destruct (compute_without_reply ms ws we slow Hno) as (m & Hm & Hfr & Hfo).
  exists m. split; [done|].
  destruct (compute_fields ms ws we slow m Hm)
    as (Hic & Hoc & _ & _ & _ & Hlo & Hun & _ & Hadv). cbv zeta in Hic, Hoc, Hadv.
  rewrite Hof in Hoc, Hadv. simpl in Hoc.
  rewrite Hot in Hlo, Hun. simpl in Hlo.
  assert (0 < Z.of_nat (length (filter (λ x, direction x = "in"%string) ms))) as Hpos.
  { assert (x ∈ filter (λ x, direction x = "in"%string) ms) as Hin
      by by apply list_elem_of_filter.
    destruct (filter (λ x, direction x = "in"%string) ms);
      [by apply elem_of_nil in Hin|simpl; lia]. }
  assert (Hunv : unanswered_inbound m = Z.of_nat (length (inbound_times ms))).
  { rewrite Hun. unfold unanswered_block. simpl.
    destruct (max_opt (inbound_times ms)) eqn:E.
    - by rewrite count_after_spec.
    - apply max_opt_None in E. by rewrite E. }
  split; [done|]. split; [done|]. split; [done|]. split; [done|]. split; [done|].
  rewrite Hadv, Hfr, Hunv. simpl length.
  replace (_ >? 0) with true by (symmetry; rewrite Z.gtb_ltb; by apply Z.ltb_lt).
  simpl. destruct (decide (inbound_times ms = [])) as [->|Hne]; [done|].
  replace (_ >? 0) with true; [done|].
  symmetry. rewrite Z.gtb_ltb. apply Z.ltb_lt.
  destruct (inbound_times ms); [done|simpl; lia].
Qed.

(** X9: the stamps and counts of a computed chat are consistent: the two
    counts add up to at most the number of messages; the unanswered count
    is between 0 and the inbound count, and positive exactly when the last
    inbound stamp is after the last outbound one (or there is none); the
    first stamps come before the last ones; a first outbound stamp is at
    or after the first inbound one; and the first response time is absent
    exactly when the first outbound stamp is, and non-negative. *)
Theorem chat_metrics_consistent (ms : list message) (ws we slow : Z) (m : ChatMetrics) :
  compute ms ws we slow = Returned m →
  0 <= inbound_count m ∧ 0 <= outbound_count m
  ∧ inbound_count m + outbound_count m <= Z.of_nat (length ms)
  ∧ 0 <= unanswered_inbound m <= inbound_count m
  ∧ (0 < unanswered_inbound m ↔
       ∃ li, last_inbound_at m = Some li
             ∧ ∀ lo, last_outbound_at m = Some lo → lo < li)
  ∧ (first_inbound_at m = None ↔ last_inbound_at m = None)
  ∧ (∀ fi li, first_inbound_at m = Some fi → last_inbound_at m = Some li → fi <= li)
  ∧ (∀ fo, first_outbound_at m = Some fo →
           ∃ fi lo, first_inbound_at m = Some fi ∧ last_outbound_at m = Some lo
                    ∧ fi <= fo <= lo)
  ∧ (first_response_sec m = None ↔ first_outbound_at m = None)
  ∧ (∀ v, first_response_sec m = Some v → 0 <= v).
Proof.
  intros H. destruct (compute_fields ms ws we slow m H)
    as (Hic & Hoc & Hfi & Hfo & Hli & Hlo & Hun & Hfr & _). cbv zeta in Hic, Hoc.
  assert (Hlen : (length (inbound_times ms)
                  ≤ length (filter (λ x, direction x = "in"%string) ms))%nat)
    by apply length_omap_le.
  split; [lia|]. split; [lia|]. split.
  { rewrite Hic, Hoc. pose proof (in_out_counts ms). lia. }
  assert (Hpos : 0 < unanswered_inbound m ↔
            ∃ li, last_inbound_at m = Some li
                  ∧ ∀ lo, last_outbound_at m = Some lo → lo < li).
  { rewrite Hun, Hli, Hlo. unfold unanswered_block. cbv zeta.
    destruct (max_opt (inbound_times ms)) as [li|] eqn:Eli.
    - apply max_opt_Some in Eli as [Hin _].
      destruct (max_opt (outbound_times ms)) as [lo|] eqn:Elo.
      + destruct (li >? lo) eqn:E; rewrite Z.gtb_ltb in E.
        * apply Z.ltb_lt in E. rewrite count_after_spec. split.
          -- intros _. exists li. split; [done|]. by intros ? [= <-].
          -- intros _.
             assert (li ∈ filter (λ t, lo < t) (inbound_times ms)) as Hf
               by by apply list_elem_of_filter.
             destruct (filter _ (inbound_times ms)); [by apply elem_of_nil in Hf|].
             simpl. lia.
        * apply Z.ltb_ge in E. split; [lia|].
          intros (li' & [= <-] & Hall). specialize (Hall lo eq_refl). lia.
      + rewrite count_after_spec. split.
        * intros _. exists li. split; [done|]. by intros ? [=].
        * intros _. destruct (inbound_times ms); [by apply elem_of_nil in Hin|].
          simpl. lia.
    - split; [lia|]. by intros (? & [=] & _). }
  split.
  { rewrite Hun, unanswered_block_spec. unfold spec_unanswered.
    destruct (max_opt (outbound_times ms)) as [lo|].
    - pose proof (length_filter (λ t, lo < t) (inbound_times ms)). lia.
    - lia. }
  split; [done|]. split.
  { rewrite Hfi, Hli, min_opt_None, max_opt_None. done. }
  split.
  { intros fi li. rewrite Hfi, Hli.
    intros [Hin _]%min_opt_Some [_ Hmax]%max_opt_Some. by apply Hmax. }
  split.
  { intros fo. rewrite Hfo, Hfi, Hlo.
    destruct (min_opt (inbound_times ms)) as [fi|]; [|done].
    intros (Hin & Hle & _)%first_at_or_after_Some.
    destruct (max_opt (outbound_times ms)) as [lo|] eqn:Elo.
    - apply max_opt_Some in Elo as [_ Hmax]. exists fi, lo.
      split; [done|]. split; [done|]. split; [done|]. by apply Hmax.
    - apply max_opt_None in Elo. rewrite Elo in Hin. by apply elem_of_nil in Hin. }
  assert (Hbsb : ∀ fi fo, first_inbound_at m = Some fi → first_outbound_at m = Some fo →
            ∃ v, first_response_sec m = Some v ∧ 0 <= v).
  { intros fi fo Efi Efo. rewrite Efi, Efo in Hfr.
    assert (fi <= fo) as Hle.
    { rewrite Hfo, <- Hfi, Efi in Efo.
      by apply first_at_or_after_Some in Efo as (_ & ? & _). }
    unfold _business_seconds_between in Hfr.
    replace (fo <? fi) with false in Hfr by (symmetry; apply Z.ltb_ge; lia).
    destruct (we <=? ws) eqn:Ew; [done|]. apply Z.leb_gt in Ew.
    injection Hfr as Hfr. eexists. split; [by rewrite <- Hfr|].
    rewrite walk_days_spec by done. apply (spec_elapsed_nonneg fi fo ws we). }
  split.
  - destruct (first_inbound_at m) as [fi|] eqn:Efi.
    + destruct (first_outbound_at m) as [fo|] eqn:Efo.
      * destruct (Hbsb fi fo eq_refl eq_refl) as (v & -> & _). done.
      * done.
    + split; [|done]. intros _. by rewrite Hfo, <- Hfi.
  - intros v Hv.
    destruct (first_inbound_at m) as [fi|] eqn:Efi; [|congruence].
    destruct (first_outbound_at m) as [fo|] eqn:Efo; [|congruence].
    destruct (Hbsb fi fo eq_refl eq_refl) as (v' & Hv' & ?). congruence.
Qed.
End WithDetectors.
End ChatMetricsMore.
Section ChatMetricsMoreWitnesses.
Import Py PyStr analysis_rules work_hours Spec SpecMore.


Lemma advice_rules_witness :
  ∃ m, sample_compute (seven_out (lit "bye")) (hms 10 0 0) (hms 23 0 0) 600 = Returned m
       ∧ NoDup (advice m)
       ∧ (AdviceFewQuestions ∈ advice m ↔
            0 < inbound_count m ∧ 0 < outbound_count m
            ∧ has_qmark (text_out (seven_out (lit "bye"))) = false).
Proof.
  eexists. split; [reflexivity|].
  destruct (advice_rules has_qmark quiet quiet quiet quiet (seven_out (lit "bye"))
              (hms 10 0 0) (hms 23 0 0) 600 _ eq_refl) as (Hnd & _ & _ & _ & _ & Hq & _).
  split; [exact Hnd|exact Hq].
Defined.

Lemma no_reply_chat_witness :
  ∃ m, sample_compute [ {| direction := "in"; sentAt := Some 5; text := lit "hi" |} ]
         (hms 22 0 0) (hms 6 0 0) 600 = Returned m
       ∧ advice m = [AdviceNoReply; AdviceUnanswered].
Proof.
  destruct (no_reply_chat has_qmark quiet quiet quiet quiet
              [ {| direction := "in"; sentAt := Some 5; text := lit "hi" |} ]
              (hms 22 0 0) (hms 6 0 0) 600) as (m & Hm & _ & _ & _ & _ & _ & Hadv).
  - eexists. split; [by left|reflexivity].
  - intros x [->|Hx]%elem_of_cons; [done|]. by apply elem_of_nil in Hx.
  - exists m. split; [exact Hm|exact Hadv].
Defined.

Lemma chat_metrics_consistent_witness :
  ∃ m, sample_compute (seven_out (lit "bye")) (hms 10 0 0) (hms 23 0 0) 600 = Returned m
       ∧ inbound_count m + outbound_count m <= 8
       ∧ 0 <= unanswered_inbound m <= inbound_count m.
Proof.
  eexists. split; [reflexivity|].
  destruct (chat_metrics_consistent has_qmark quiet quiet quiet quiet (seven_out (lit "bye"))
              (hms 10 0 0) (hms 23 0 0) 600 _ eq_refl) as (_ & _ & Hlen & Hun & _).
  split; [exact Hlen|exact Hun].
Defined.
End ChatMetricsMoreWitnesses.

(* ===================================================================== *)
(** * Ordered dicts and the accumulation loop *)
(* ===================================================================== *)

Section OrderedDictFacts.
Import Py PyStr SpecMore.
Context {K V : Type} `{EqDecision K}.
Implicit Types (d : odict K V) (k : K).

Lemma od_get_set k (f : option V → V) d k' :
  od_get (od_set k f d) k' = if decide (k = k') then Some (f (od_get d k)) else od_get d k'.
Proof.
  induction d as [|[k0 v] d IH]; simpl.
  - done.
  - destruct (decide (k0 = k)) as [->|Hne]; simpl.
    + destruct (decide (k = k')); [done|done].
    + destruct (decide (k0 = k')) as [->|Hne'].
      * by rewrite decide_False by done.
      * exact IH.
Qed.

Lemma od_keys_set k (f : option V → V) d :
  (od_set k f d).*1 = if decide (k ∈ d.*1) then d.*1 else d.*1 ++ [k].
Proof.
  induction d as [|[k0 v] d IH].
  - simpl. destruct (decide (k ∈ [])) as [Hin|_]; [by apply elem_of_nil in Hin|done].
  - cbn [od_set]. destruct (decide (k0 = k)) as [->|Hne].
    + rewrite !fmap_cons. cbn [fst]. rewrite decide_True by left. done.
    + rewrite !fmap_cons, IH. cbn [fst].
      destruct (decide (k ∈ d.*1)) as [Hin|Hnot].
      * rewrite decide_True by by right. done.
      * rewrite decide_False; [done|].
        intros [->|?]%elem_of_cons; done.
Qed.

Lemma od_get_None d k : od_get d k = None ↔ k ∉ d.*1.
Proof.
  induction d as [|[k0 v] d IH]; simpl.
  - split; [intros _; apply not_elem_of_nil|done].
  - destruct (decide (k0 = k)) as [->|Hne].
    + split; [done|]. intros Hn. exfalso. apply Hn. by left.
    + rewrite IH, not_elem_of_cons. split; [by intros ?|by intros [_ ?]].
Qed.

Lemma od_get_elem d k v : od_get d k = Some v → (k, v) ∈ d.
Proof.
  induction d as [|[k0 v0] d IH]; simpl; [done|].
  destruct (decide (k0 = k)) as [->|Hne].
  - intros [= ->]. by left.
  - intros Hg. right. by apply IH.
Qed.

Lemma od_elem_get d k v : NoDup d.*1 → (k, v) ∈ d → od_get d k = Some v.
Proof.
  induction d as [|[k0 v0] d IH]; simpl; intros Hnd Hin.
  - by apply elem_of_nil in Hin.
  - apply NoDup_cons in Hnd as [Hnot Hnd].
    apply elem_of_cons in Hin as [[= -> ->]|Hin].
    + by rewrite decide_True.
    + rewrite decide_False; [by apply IH|].
      intros ->. apply Hnot. apply list_elem_of_fmap. by exists (k, v).
Qed.

Lemma first_seen_snoc (l : list K) k :
  first_seen (l ++ [k])
  = if decide (k ∈ first_seen l) then first_seen l else first_seen l ++ [k].
Proof. unfold first_seen. by rewrite foldl_app. Qed.

Lemma first_seen_spec (l : list K) :
  NoDup (first_seen l) ∧ ∀ k, k ∈ first_seen l ↔ k ∈ l.
Proof.
  induction l as [|k l [Hnd Hin]] using rev_ind.
  - split; [constructor|done].
  - rewrite first_seen_snoc. destruct (decide (k ∈ first_seen l)) as [Hk|Hk].
    + split; [done|]. intros k'. rewrite elem_of_app, list_elem_of_singleton, Hin.
      split; [by left|]. intros [?| ->]; [done|]. by apply Hin.
    + split.
      * apply NoDup_app. split; [done|]. split; [|apply NoDup_singleton].
        intros k' Hk' ->%list_elem_of_singleton. done.
      * intros k'. rewrite !elem_of_app, !list_elem_of_singleton, Hin. done.
Qed.

Section GroupFold.
Context {R : Type} (key : R → K) (new : R → V) (add : V → R → V).

Lemma group_fold_snoc rows r :
  group_fold key new add (rows ++ [r])
  = od_setdefault_update (key r) (new r) (λ s, add s r) (group_fold key new add rows).
Proof. unfold group_fold. by rewrite foldl_app. Qed.

(** The entry of a key is the fold of the rows of that key, in order,
    from the entry its first row creates. *)
Lemma group_fold_get rows k :
  od_get (group_fold key new add rows) k
  = match filter (λ r, key r = k) rows with
    | [] => None
    | r0 :: g => Some (foldl add (new r0) (r0 :: g))
    end.
Proof.
  induction rows as [|r rows IH] using rev_ind; [done|].
  rewrite group_fold_snoc. unfold od_setdefault_update.
  rewrite od_get_set, filter_app, filter_cons, filter_nil.
  destruct (decide (key r = k)) as [<-|Hne].
  - rewrite IH. destruct (filter _ rows) as [|r0 g]; simpl; [done|].
    by rewrite foldl_app.
  - rewrite IH, app_nil_r. done.
Qed.

Lemma group_fold_keys rows :
  (group_fold key new add rows).*1 = first_seen (key <$> rows).
Proof.
  induction rows as [|r rows IH] using rev_ind; [done|].
  rewrite group_fold_snoc, fmap_app. simpl. rewrite first_seen_snoc.
  unfold od_setdefault_update. rewrite od_keys_set, IH. done.
Qed.

Lemma group_fold_NoDup rows : NoDup (group_fold key new add rows).*1.
Proof. rewrite group_fold_keys. apply first_seen_spec. Qed.

(** Every entry is the fold of a non-empty group. *)
Lemma group_fold_elem rows k s :
  (k, s) ∈ group_fold key new add rows →
  ∃ r0 g, filter (λ r, key r = k) rows = r0 :: g ∧ s = foldl add (new r0) (r0 :: g).
Proof.
  intros Hin. apply od_elem_get in Hin; [|apply group_fold_NoDup].
  rewrite group_fold_get in Hin.
  destruct (filter _ rows) as [|r0 g]; [done|]. injection Hin as <-. by exists r0, g.
Qed.

Lemma group_fold_covers rows r :
  r ∈ rows → ∃ s, (key r, s) ∈ group_fold key new add rows.
Proof.
  intros Hr. destruct (od_get (group_fold key new add rows) (key r)) as [s|] eqn:E.
  - exists s. by apply od_get_elem.
  - apply od_get_None in E. rewrite group_fold_keys in E.
    exfalso. apply E. apply first_seen_spec. apply list_elem_of_fmap. by exists r.
Qed.

(** A quantity that every row increases by its weight adds up, over the
    entries, to the total weight of the rows. *)
Lemma group_fold_total (mu : V → Z) (w : R → Z) rows :
  (∀ r, mu (new r) = 0) → (∀ s r, mu (add s r) = mu s + w r) →
  total mu (group_fold key new add rows).*2 = total w rows.
Proof.
  intros Hnew Hadd.
  assert (Hset : ∀ d r, total mu (od_setdefault_update (key r) (new r) (λ s, add s r) d).*2
                        = total mu d.*2 + w r).
  { intros d r. unfold od_setdefault_update, total.
    induction d as [|[k0 v] d IH].
    - simpl. rewrite Hadd, Hnew. lia.
    - cbn [od_set]. destruct (decide (k0 = key r)).
      + rewrite !fmap_cons. cbn [snd foldr default]. rewrite Hadd. unfold id. lia.
      + rewrite !fmap_cons. cbn [snd foldr]. rewrite IH. lia. }
  induction rows as [|r rows IH] using rev_ind; [done|].
  rewrite group_fold_snoc, Hset, IH. unfold total.
  rewrite fmap_app, foldr_app. simpl.
  generalize (w <$> rows). intros l. induction l as [|x l IHl]; simpl; lia.
Qed.
End GroupFold.
End OrderedDictFacts.

(* ===================================================================== *)
(** * Sorting by a key with a strict order *)
(* ===================================================================== *)

Section TextOrder.
Import Py PyStr summary SpecMore.

Lemma text_ltb_irrefl (a : text) : text_ltb a a = false.
Proof.
  induction a as [|x a IH]; [done|]. simpl.
  by rewrite N.ltb_irrefl, N.eqb_refl, IH.
Qed.

Lemma text_ltb_trans (a b c : text) :
  text_ltb a b = true → text_ltb b c = true → text_ltb a c = true.
Proof.
  revert b c. induction a as [|x a IH]; intros [|y b] [|z c]; simpl; try done.
  rewrite !orb_true_iff, !andb_true_iff, !N.ltb_lt, !N.eqb_eq.
  intros [Hxy|[-> Hab]] [Hyz|[-> Hbc]].
  - left. lia.
  - by left.
  - by left.
  - right. split; [done|]. by eapply IH.
Qed.

Lemma text_ltb_connected (a b : text) :
  text_ltb a b = false → text_ltb b a = false → a = b.
Proof.
  revert b. induction a as [|x a IH]; intros [|y b]; simpl; try done.
  rewrite !orb_false_iff, !andb_false_iff, !N.ltb_ge, !N.eqb_neq.
  intros [Hxy Hab] [Hyx Hba].
  assert (x = y) as -> by lia.
  f_equal. apply IH; [by destruct Hab|by destruct Hba].
Qed.

Lemma key_ltb_irrefl (a : Z * text) : key_ltb a a = false.
Proof.
  unfold key_ltb. by rewrite Z.ltb_irrefl, Z.eqb_refl, text_ltb_irrefl.
Qed.

Lemma key_ltb_trans (a b c : Z * text) :
  key_ltb a b = true → key_ltb b c = true → key_ltb a c = true.
Proof.
  unfold key_ltb.
  rewrite !orb_true_iff, !andb_true_iff, !Z.ltb_lt, !Z.eqb_eq.
  intros [Hab|[Hab Tab]] [Hbc|[Hbc Tbc]].
  - left. lia.
  - left. lia.
  - left. lia.
  - right. split; [lia|]. by eapply text_ltb_trans.
Qed.

Lemma key_ltb_connected (a b : Z * text) :
  key_ltb a b = false → key_ltb b a = false → a = b.
Proof.
  unfold key_ltb. destruct a as [x s], b as [y t]. simpl.
  rewrite !orb_false_iff, !andb_false_iff, !Z.ltb_ge, !Z.eqb_neq.
  intros [Hxy Hst] [Hyx Hts].
  assert (x = y) as -> by lia.
  f_equal. apply text_ltb_connected; [by destruct Hst|by destruct Hts].
Qed.

Lemma key_le_trans (a b c : Z * text) : key_le a b → key_le b c → key_le a c.
Proof.
  unfold key_le. intros Hab Hbc.
  destruct (key_ltb c a) eqn:Hca; [|done].
  destruct (key_ltb a b) eqn:Hlt.
  - by rewrite (key_ltb_trans c a b Hca Hlt) in Hbc.
  - assert (a = b) as -> by by apply key_ltb_connected. congruence.
Qed.

Lemma key_lt_le (a b : Z * text) : key_ltb a b = true → key_le a b.
Proof.
  unfold key_le. intros Hab. destruct (key_ltb b a) eqn:Hba; [|done].
  pose proof (key_ltb_trans a b a Hab Hba) as H. by rewrite key_ltb_irrefl in H.
Qed.

(** What the key order says about two rows: more chats first, and for
    the same number of chats the smaller name first. *)
Lemma key_le_inv (c1 c2 : Z) (n1 n2 : text) :
  key_le (- c1, n1) (- c2, n2) ↔ c2 < c1 ∨ (c1 = c2 ∧ text_ltb n2 n1 = false).
Proof.
  unfold key_le, key_ltb. simpl.
  rewrite orb_false_iff, andb_false_iff, Z.ltb_ge, Z.eqb_neq. split.
  - intros [H1 [H2|H2]]; [left; lia|].
    destruct (decide (c1 = c2)) as [->|]; [by right|left; lia].
  - intros [H|[-> H]]; [split; [lia|left; lia]|split; [lia|by right]].
Qed.
End TextOrder.

Lemma StronglySorted_weaken {A} (R R' : A → A → Prop) (l : list A) :
  (∀ a b, R a b → R' a b) → StronglySorted R l → StronglySorted R' l.
Proof.
  intros HR. induction 1 as [|x l _ IH Hx]; constructor; [done|].
  eapply Forall_impl; [exact Hx|]. intros y. apply HR.
Qed.

Section SortedLtFacts.
Import Py PyStr summary SpecMore.
Context {A : Type} (key : A → Z * text).

Local Abbreviation lt := (λ a b : A, key_ltb (key a) (key b)).
Local Abbreviation le := (λ a b : A, key_le (key a) (key b)).

Lemma insert_lt_perm x (l : list A) : insert_lt lt x l ≡ₚ x :: l.
Proof.
  induction l as [|y l IH]; simpl; [done|].
  destruct (key_ltb (key y) (key x)); [|done].
  rewrite IH. apply Permutation_swap.
Qed.

Lemma sorted_lt_perm (l : list A) : sorted_lt lt l ≡ₚ l.
Proof.
  unfold sorted_lt. induction l as [|x l IH]; simpl; [done|].
  by rewrite insert_lt_perm, IH.
Qed.

Lemma insert_lt_sorted x (l : list A) :
  StronglySorted le l → StronglySorted le (insert_lt lt x l).
Proof.
  induction 1 as [|y l Hs IH Hy]; simpl.
  - repeat constructor.
  - destruct (key_ltb (key y) (key x)) eqn:E.
    + constructor; [done|]. rewrite insert_lt_perm. constructor; [|done].
      by apply key_lt_le.
    + constructor; [by constructor|]. constructor; [done|].
      eapply Forall_impl; [exact Hy|]. intros z Hz. simpl in *.
      by eapply key_le_trans.
Qed.

Lemma sorted_lt_sorted (l : list A) : StronglySorted le (sorted_lt lt l).
Proof.
  unfold sorted_lt. induction l; simpl; [constructor|by apply insert_lt_sorted].
Qed.
End SortedLtFacts.

(* ===================================================================== *)
(** * The manager summary and the channel summary *)
(* ===================================================================== *)

Section SummaryFacts.
Import Py PyStr analysis_rules summary Spec SpecMore.

Lemma mapM_Returned {A B} (f : A → outcome B) (l : list A) (out : list B) :
  mapM f l = Returned out → Forall2 (λ x y, f x = Returned y) l out.
Proof.
  revert out. induction l as [|x l IH]; intros out; simpl.
  - intros [= <-]. constructor.
  - intros H. apply bind_Returned in H as (y & Hy & H).
    apply bind_Returned in H as (ys & Hys & H). injection H as <-.
    constructor; [done|by apply IH].
Qed.

Lemma mapM_total {A B} (f : A → outcome B) (l : list A) :
  (∀ x, x ∈ l → ∃ y, f x = Returned y) → ∃ out, mapM f l = Returned out.
Proof.
  induction l as [|x l IH]; intros Hall; simpl; [by eexists|].
  destruct (Hall x) as [y Hy]; [by left|].
  destruct IH as [ys Hys]; [intros z Hz; apply Hall; by right|].
  rewrite Hy. cbn [mbind outcome_bind bind]. rewrite Hys. by eexists.
Qed.

Lemma total_cons {A} (f : A → Z) x l : total f (x :: l) = f x + total f l.
Proof. done. Qed.

Lemma total_app {A} (f : A → Z) l1 l2 : total f (l1 ++ l2) = total f l1 + total f l2.
Proof.
  induction l1 as [|x l1 IH]; [unfold total; simpl; lia|].
  rewrite <- app_comm_cons, !total_cons, IH. lia.
Qed.

Lemma total_perm {A} (f : A → Z) l1 l2 : l1 ≡ₚ l2 → total f l1 = total f l2.
Proof.
  induction 1 as [|x l1 l2 _ IH|x y l|l1 l2 l3 _ IH1 _ IH2];
    rewrite ?total_cons; [done|by rewrite IH|lia|congruence].
Qed.

Lemma count_cons {A} (p : A → bool) x l :
  count p (x :: l) = (if p x then 1 else 0) + count p l.
Proof.
  unfold count. rewrite filter_cons.
  destruct (p x); [rewrite decide_True by done|rewrite decide_False by done];
    simpl length; lia.
Qed.

Lemma count_bounds {A} (p : A → bool) l : 0 <= count p l <= Z.of_nat (length l).
Proof.
  unfold count. pose proof (length_filter (λ x, p x = true) l). lia.
Qed.

Lemma total_ones {A} (l : list A) : total (λ _, 1) l = Z.of_nat (length l).
Proof.
  induction l as [|x l IH]; [done|]. rewrite total_cons, IH. simpl length. lia.
Qed.

Lemma total_indicator {A} (p : A → bool) (l : list A) :
  total (λ x, if p x then 1 else 0) l = count p l.
Proof.
  induction l as [|x l IH]; [done|]. by rewrite total_cons, count_cons, IH.
Qed.

Lemma bump_eq (b : bool) n : bump b n = n + (if b then 1 else 0).
Proof. destruct b; simpl; lia. Qed.

(** The entry of a manager after the rows of a group. *)
Lemma mgr_fold_fields (s : mgr_acc) (g : list metrics_row) :
  let s' := foldl mgr_add s g in
  a_manager_id s' = a_manager_id s ∧ a_manager_name s' = a_manager_name s
  ∧ a_chats s' = a_chats s + Z.of_nat (length g)
  ∧ a_inbound s' = a_inbound s + total (λ r, inbound_count (metrics r)) g
  ∧ a_outbound s' = a_outbound s + total (λ r, outbound_count (metrics r)) g
  ∧ a_unanswered_inbound s'
    = a_unanswered_inbound s + total (λ r, unanswered_inbound (metrics r)) g
  ∧ a_slow_first_reply_chats s' = a_slow_first_reply_chats s + count is_slow g
  ∧ a_no_reply_chats s' = a_no_reply_chats s + count is_no_reply g
  ∧ a_responded_chats s' = a_responded_chats s + count is_responded g
  ∧ a_first_reply_secs s' = a_first_reply_secs s ++ first_reply_secs_of g.
Proof.
  revert s. induction g as [|r g IH]; intros s; cbv zeta.
  - simpl. unfold total, count. simpl. rewrite app_nil_r. repeat split; first [done|lia].
  - cbn [foldl]. destruct (IH (mgr_add s r)) as (H1 & H2 & H3 & H4 & H5 & H6 & H7 & H8 & H9 & H10).
    rewrite H1, H2, H3, H4, H5, H6, H7, H8, H9, H10.
    rewrite !total_cons, !count_cons. cbn [mgr_add a_manager_id a_manager_name a_chats
      a_inbound a_outbound a_unanswered_inbound a_slow_first_reply_chats a_no_reply_chats
      a_responded_chats a_first_reply_secs]. rewrite !bump_eq.
    repeat split; try done; try (simpl length; lia).
    unfold first_reply_secs_of.
    change (omap ?f (r :: g)) with (match f r with Some y => y :: omap f g | None => omap f g end).
    destruct (first_response_sec (metrics r)); [by rewrite <- app_assoc|done].
Qed.

Lemma manager_cell_returns (vals : list Z) :
  Z.of_nat (length vals) <= checked_sizes →
  (∃ c, manager_cell vals PyFloat.lit_0_5 = Returned c)
  ∧ (∃ c, manager_cell vals PyFloat.lit_0_9 = Returned c)
  ∧ (∃ c, channel_cell vals PyFloat.lit_0_5 = Returned c)
  ∧ (∃ c, channel_cell vals PyFloat.lit_0_9 = Returned c).
Proof.
  intros Hlen. destruct vals as [|x l] eqn:E.
  - repeat split; by eexists.
  - rewrite <- E in *. assert (vals ≠ []) as Hne by by rewrite E.
    destruct (ranks_agree (Z.of_nat (length vals))) as (H5 & H9 & _).
    { split; [|done]. rewrite E. simpl length. lia. }
    destruct (pct_at_rank vals _ _ _ Hne H5) as (v5 & _ & Hp5).
    destruct (pct_at_rank vals _ _ _ Hne H9) as (v9 & _ & Hp9).
    unfold manager_cell, channel_cell. rewrite Hp5, Hp9.
    repeat split; by eexists.
Qed.

Lemma mgr_out_fields s x :
  mgr_out s = Returned x →
  m_manager_id x = a_manager_id s ∧ m_manager_name x = a_manager_name s
  ∧ m_chats x = a_chats s ∧ m_inbound x = a_inbound s ∧ m_outbound x = a_outbound s
  ∧ m_unanswered_inbound x = a_unanswered_inbound s
  ∧ m_slow_first_reply_chats x = a_slow_first_reply_chats s
  ∧ m_no_reply_chats x = a_no_reply_chats s
  ∧ m_responded_chats x = a_responded_chats s
  ∧ manager_cell (a_first_reply_secs s) PyFloat.lit_0_5 = Returned (m_median_first_reply_sec x)
  ∧ manager_cell (a_first_reply_secs s) PyFloat.lit_0_9 = Returned (m_p90_first_reply_sec x)
  ∧ m_response_rate x
    = if a_chats s =? 0 then RateEmpty else Rate (ratio (a_responded_chats s) (a_chats s)).
Proof.
  unfold mgr_out. cbv zeta. intros H.
  apply bind_Returned in H as (c5 & H5 & H).
  apply bind_Returned in H as (c9 & H9 & H). injection H as <-. simpl.
  by rewrite H5, H9.
Qed.

(** The rows before sorting, next to the dict entries they come from. *)
Lemma manager_summary_unfold rows out :
  aggregate_manager_summary rows = Returned out →
  ∃ out0, Forall2 (λ s x, mgr_out s = Returned x) (by_mgr rows).*2 out0
          ∧ out = sorted_lt (λ a b, key_ltb (mgr_sort_key a) (mgr_sort_key b)) out0
          ∧ out ≡ₚ out0.
Proof.
  unfold aggregate_manager_summary. intros H.
  apply bind_Returned in H as (out0 & Hmap & H). injection H as <-.
  exists out0. split; [by apply mapM_Returned|]. split; [done|].
  apply (sorted_lt_perm mgr_sort_key).
Qed.

(** Every row of the summary comes from the entry of its key. *)
Lemma manager_summary_row rows out x :
  aggregate_manager_summary rows = Returned out → x ∈ out →
  ∃ s r0 g, (mgr_key r0, s) ∈ by_mgr rows ∧ mgr_out s = Returned x
            ∧ rows_of_manager rows (m_manager_id x) (m_manager_name x) = r0 :: g
            ∧ mgr_key r0 = (m_manager_id x, m_manager_name x)
            ∧ s = foldl mgr_add (mgr_new r0) (r0 :: g).
Proof.
  intros H Hx. destruct (manager_summary_unfold rows out H) as (out0 & Hf & _ & Hp).
  rewrite Hp in Hx.
  destruct (proj1 (list_elem_of_lookup _ _) Hx) as [i Hi].
  destruct (Forall2_lookup_r _ _ _ _ _ Hf Hi) as (s & Hs & Hout).
  rewrite list_lookup_fmap in Hs.
  apply fmap_Some in Hs as ([k s'] & Hks & ->). simpl in *.
  assert ((k, s') ∈ by_mgr rows) as Hin by by eapply list_elem_of_lookup_2.
  destruct (group_fold_elem mgr_key mgr_new mgr_add rows k s' Hin) as (r0 & g & Hg & Hfold).
  assert (mgr_key r0 = k) as Hk.
  { assert (r0 ∈ filter (λ r, mgr_key r = k) rows) as Hr0 by (rewrite Hg; by left).
    by apply list_elem_of_filter in Hr0 as [? _]. }
  destruct (mgr_out_fields s' x Hout) as (Hid & Hname & _).
  destruct (mgr_fold_fields (mgr_new r0) (r0 :: g)) as (Fid & Fname & _).
  rewrite <- Hfold in Fid, Fname. simpl in Fid, Fname.
  assert (k = (m_manager_id x, m_manager_name x)) as Hkx.
  { rewrite Hid, Hname, Fid, Fname, <- Hk. done. }
  exists s', r0, g. rewrite Hk. split; [done|]. split; [done|].
  unfold rows_of_manager. rewrite <- Hkx. done.
Qed.

(** X10: the manager summary has one row per pair (manager id, manager
    name) that occurs in the input, and each row summarises exactly the
    input rows of its pair: their number, the sums of their inbound,
    outbound and unanswered counts, the numbers of slow first replies
    (above 600 s), of chats without reply and of chats with a first
    response time; median and p90 are taken over the first response times
    of those rows in input order, and the response rate is the responded
    chats over the chats. *)
Theorem manager_summary_groups (rows : list metrics_row) (out : list mgr_row) :
  aggregate_manager_summary rows = Returned out →
  NoDup ((λ x, (m_manager_id x, m_manager_name x)) <$> out)
  ∧ (∀ r, r ∈ rows → ∃ x, x ∈ out ∧ (m_manager_id x, m_manager_name x) = mgr_key r)
  ∧ ∀ x, x ∈ out →
      let g := rows_of_manager rows (m_manager_id x) (m_manager_name x) in
      g ≠ []
      ∧ m_chats x = Z.of_nat (length g)
      ∧ m_inbound x = total (λ r, inbound_count (metrics r)) g
      ∧ m_outbound x = total (λ r, outbound_count (metrics r)) g
      ∧ m_unanswered_inbound x = total (λ r, unanswered_inbound (metrics r)) g
      ∧ m_slow_first_reply_chats x = count is_slow g
      ∧ m_no_reply_chats x = count is_no_reply g
      ∧ m_responded_chats x = count is_responded g
      ∧ manager_cell (first_reply_secs_of g) PyFloat.lit_0_5
        = Returned (m_median_first_reply_sec x)
      ∧ manager_cell (first_reply_secs_of g) PyFloat.lit_0_9
        = Returned (m_p90_first_reply_sec x)
      ∧ m_response_rate x = Rate (ratio (m_responded_chats x) (m_chats x)).
Proof.
  intros H. destruct (manager_summary_unfold rows out H) as (out0 & Hf & _ & Hp).
  assert (Hkeys : (λ x, (m_manager_id x, m_manager_name x)) <$> out0 = (by_mgr rows).*1).
  { assert (Hent : ∀ k s, (k, s) ∈ by_mgr rows → (a_manager_id s, a_manager_name s) = k).
    { intros k s Hin.
      destruct (group_fold_elem mgr_key mgr_new mgr_add rows k s Hin) as (r0 & g & Hg & ->).
      destruct (mgr_fold_fields (mgr_new r0) (r0 :: g)) as (-> & -> & _). simpl.
      assert (r0 ∈ filter (λ r, mgr_key r = k) rows) as Hr0 by (rewrite Hg; by left).
      by apply list_elem_of_filter in Hr0 as [? _]. }
    clear Hp. revert Hent Hf. generalize (by_mgr rows). intros d. revert out0.
    induction d as [|[k s] d IH]; intros out0 Hent Hf.
    - apply Forall2_nil_inv_l in Hf as ->. done.
    - rewrite fmap_cons in Hf. apply Forall2_cons_inv_l in Hf as (x & out1 & Hx & Hf & ->).
      rewrite !fmap_cons. cbn [fst]. f_equal.
      + destruct (mgr_out_fields _ _ Hx) as (-> & -> & _). apply Hent. by left.
      + apply IH; [|done]. intros k' s' Hin. apply Hent. by right. }
  split; [|split].
  - rewrite Hp, Hkeys. apply group_fold_NoDup.
  - intros r Hr. destruct (group_fold_covers mgr_key mgr_new mgr_add rows r Hr) as [s Hs].
    assert (mgr_key r ∈ (λ x, (m_manager_id x, m_manager_name x)) <$> out0) as Hin.
    { rewrite Hkeys. apply list_elem_of_fmap. by exists (mgr_key r, s). }
    apply list_elem_of_fmap in Hin as (x & Hx & Hin). exists x. by rewrite Hp.
  - intros x Hx. cbv zeta.
    destruct (manager_summary_row rows out x H Hx) as (s & r0 & g & _ & Hout & Hg & _ & Hs).
    rewrite Hg.
    destruct (mgr_out_fields s x Hout)
      as (_ & _ & -> & -> & -> & -> & -> & -> & -> & H5 & H9 & ->).
    destruct (mgr_fold_fields (mgr_new r0) (r0 :: g))
      as (_ & _ & F3 & F4 & F5 & F6 & F7 & F8 & F9 & F10).
    rewrite <- Hs in F3, F4, F5, F6, F7, F8, F9, F10.
    simpl in F3, F4, F5, F6, F7, F8, F9, F10.
    rewrite F10 in H5, H9. rewrite F3, F4, F5, F6, F7, F8, F9.
    split; [done|]. repeat (split; [done|]).
    replace (_ =? 0) with false; [done|].
    symmetry. apply Z.eqb_neq. simpl length. lia.
Qed.

(** X11: the rows of the manager summary are ordered by the number of
    chats, descending, and rows with the same number of chats by the
    manager name, ascending in the order of the code points. *)
Theorem manager_summary_order (rows : list metrics_row) (out : list mgr_row) :
  aggregate_manager_summary rows = Returned out →
  StronglySorted
    (λ a b, m_chats b < m_chats a
            ∨ (m_chats a = m_chats b
               ∧ text_ltb (m_manager_name b) (m_manager_name a) = false)) out.
Proof.
  intros H. destruct (manager_summary_unfold rows out H) as (out0 & _ & -> & _).
  pose proof (sorted_lt_sorted mgr_sort_key out0) as Hs.
  eapply StronglySorted_weaken; [|exact Hs].
  intros a b Hab. unfold mgr_sort_key in Hab. by apply key_le_inv in Hab.
Qed.

(** X12: the manager summary is computed for every input of up to
    [checked_sizes] rows, and it accounts for every chat once: the chats
    of its rows add up to the number of input rows, as do the inbound,
    outbound and unanswered counts to the input totals; every row has at
    least one chat, at most as many slow replies as responded chats, at
    most as many responded chats and chats without reply as chats, and a
    response rate that is a number. *)
Theorem manager_summary_totals (rows : list metrics_row) :
  Z.of_nat (length rows) <= checked_sizes →
  ∃ out, aggregate_manager_summary rows = Returned out
    ∧ total m_chats out = Z.of_nat (length rows)
    ∧ total m_inbound out = total (λ r, inbound_count (metrics r)) rows
    ∧ total m_outbound out = total (λ r, outbound_count (metrics r)) rows
    ∧ total m_unanswered_inbound out = total (λ r, unanswered_inbound (metrics r)) rows
    ∧ total m_responded_chats out = count is_responded rows
    ∧ ∀ x, x ∈ out →
        1 <= m_chats x
        ∧ 0 <= m_slow_first_reply_chats x <= m_responded_chats x
        ∧ m_responded_chats x <= m_chats x
        ∧ 0 <= m_no_reply_chats x <= m_chats x
        ∧ m_response_rate x ≠ RateEmpty.
Proof.
  intros Hlen.
  assert (Hsmall : ∀ k s, (k, s) ∈ by_mgr rows →
            ∃ r0 g, rows_of_manager rows k.1 k.2 = r0 :: g
                    ∧ s = foldl mgr_add (mgr_new r0) (r0 :: g)
                    ∧ (length (r0 :: g) ≤ length rows)%nat).
  { intros [id name] s Hin.
    destruct (group_fold_elem mgr_key mgr_new mgr_add rows _ s Hin) as (r0 & g & Hg & ->).
    exists r0, g. split; [done|]. split; [done|].
    rewrite <- Hg. apply length_filter. }
  destruct (mapM_total mgr_out (by_mgr rows).*2) as [out0 Hout0].
  { intros s Hs. apply list_elem_of_fmap in Hs as ([k s'] & -> & Hin). simpl.
    destruct (Hsmall k s' Hin) as (r0 & g & _ & -> & Hl).
    destruct (mgr_fold_fields (mgr_new r0) (r0 :: g)) as (_ & _ & _ & _ & _ & _ & _ & _ & _ & F).
    change (a_first_reply_secs (mgr_new r0) ++ ?l) with l in F.
    destruct (manager_cell_returns (first_reply_secs_of (r0 :: g))) as ([c5 H5] & [c9 H9] & _).
    { pose proof (length_omap_le (λ r, first_response_sec (metrics r)) (r0 :: g)).
      unfold first_reply_secs_of. lia. }
    unfold mgr_out. cbv zeta. rewrite F, H5. cbn [mbind outcome_bind bind].
    rewrite H9. by eexists. }
  set (out := sorted_lt (λ a b, key_ltb (mgr_sort_key a) (mgr_sort_key b)) out0).
  assert (Hagg : aggregate_manager_summary rows = Returned out).
  { unfold aggregate_manager_summary. by rewrite Hout0. }
  exists out. split; [done|].
  assert (Hp : out ≡ₚ out0) by apply (sorted_lt_perm mgr_sort_key).
  assert (Hf : Forall2 (λ s x, mgr_out s = Returned x) (by_mgr rows).*2 out0)
    by by apply mapM_Returned.
  assert (Htot : ∀ (f : mgr_acc → Z) (h : mgr_row → Z) (w : metrics_row → Z),
            (∀ s x, mgr_out s = Returned x → h x = f s) →
            (∀ r, f (mgr_new r) = 0) → (∀ s r, f (mgr_add s r) = f s + w r) →
            total h out = total w rows).
  { intros f h w Hfh Hnew Hadd.
    rewrite (total_perm h out out0 Hp).
    rewrite <- (group_fold_total mgr_key mgr_new mgr_add f w rows Hnew Hadd).
    fold (by_mgr rows). clear -Hf Hfh. induction Hf as [|s x l1 l2 Hx _ IH]; [done|].
    rewrite !total_cons, IH, (Hfh s x Hx). done. }
  split.
  { rewrite (Htot a_chats m_chats (λ _, 1)); [|by intros s x (_ & _ & ? & _)%mgr_out_fields|done|done].
    apply total_ones. }
  split.
  { apply (Htot a_inbound); [by intros s x (_ & _ & _ & ? & _)%mgr_out_fields|done|done]. }
  split.
  { apply (Htot a_outbound); [by intros s x (_ & _ & _ & _ & ? & _)%mgr_out_fields|done|done]. }
  split.
  { apply (Htot a_unanswered_inbound);
      [by intros s x (_ & _ & _ & _ & _ & ? & _)%mgr_out_fields|done|done]. }
  split.
  { rewrite (Htot a_responded_chats m_responded_chats (λ r, if is_responded r then 1 else 0));
      [|by intros s x (_ & _ & _ & _ & _ & _ & _ & _ & ? & _)%mgr_out_fields|done
       |intros s r; simpl; apply bump_eq].
    apply total_indicator. }
  intros x Hx.
  destruct (manager_summary_row rows out x Hagg Hx) as (s & r0 & g & _ & Hout & _ & _ & Hs).
  destruct (mgr_out_fields s x Hout)
    as (_ & _ & -> & _ & _ & _ & -> & -> & -> & _ & _ & ->).
  destruct (mgr_fold_fields (mgr_new r0) (r0 :: g))
    as (_ & _ & F3 & _ & _ & _ & F7 & F8 & F9 & _).
  rewrite <- Hs in F3, F7, F8, F9. simpl in F3, F7, F8, F9.
  rewrite F3, F7, F8, F9.
  pose proof (count_bounds is_slow (r0 :: g)).
  pose proof (count_bounds is_responded (r0 :: g)).
  pose proof (count_bounds is_no_reply (r0 :: g)).
  assert (count is_slow (r0 :: g) <= count is_responded (r0 :: g)).
  { generalize (r0 :: g). intros l. induction l as [|r l IH]; [done|].
    rewrite !count_cons.
    assert ((if is_slow r then 1 else 0) <= (if is_responded r then 1 else 0)).
    { unfold is_slow, is_responded.
      destruct (first_response_sec (metrics r)) as [v|]; [destruct (v >? 10 * 60)|]; lia. }
    lia. }
  simpl length in *.
  split; [lia|]. split; [lia|]. split; [lia|]. split; [lia|].
  replace (_ =? 0) with false; [done|]. symmetry. apply Z.eqb_neq. lia.
Qed.

Lemma manager_summary_groups_witness :
  ∃ out, aggregate_manager_summary sample_rows = Returned out
         ∧ NoDup ((λ x, (m_manager_id x, m_manager_name x)) <$> out)
         ∧ ∀ r, r ∈ sample_rows →
                ∃ x, x ∈ out ∧ (m_manager_id x, m_manager_name x) = mgr_key r.
Proof.
  destruct (aggregate_manager_summary sample_rows) as [out|e] eqn:E;
    [|by vm_compute in E].
  exists out. split; [reflexivity|].
  destruct (manager_summary_groups sample_rows out E) as (H1 & H2 & _).
  split; [exact H1|exact H2].
Defined.

Lemma manager_summary_order_witness :
  ∃ out, aggregate_manager_summary sample_rows = Returned out
         ∧ StronglySorted
             (λ a b, m_chats b < m_chats a
                     ∨ (m_chats a = m_chats b
                        ∧ text_ltb (m_manager_name b) (m_manager_name a) = false)) out.
Proof.
  destruct (aggregate_manager_summary sample_rows) as [out|e] eqn:E;
    [|by vm_compute in E].
  exists out. split; [reflexivity|].
  exact (manager_summary_order sample_rows out E).
Defined.

Lemma manager_summary_totals_witness :
  ∃ out, aggregate_manager_summary sample_rows = Returned out
         ∧ total m_chats out = 3 ∧ total m_inbound out = 6.
Proof.
  destruct (manager_summary_totals sample_rows) as (out & Hout & Hc & Hi & _);
    [by vm_compute|].
  exists out. split; [exact Hout|]. split; [exact Hc|exact Hi].
Defined.

Section Channel.
Variable str_lower : Py.text → Py.text.

Local Abbreviation key := (ch_key str_lower).

Lemma ch_fold_fields (s : ch_acc) (g : list metrics_row) :
  let s' := foldl (ch_add) s g in
  c_channel s' = c_channel s
  ∧ c_chats s' = c_chats s + Z.of_nat (length g)
  ∧ c_inbound s' = c_inbound s + total (λ r, inbound_count (metrics r)) g
  ∧ c_outbound s' = c_outbound s + total (λ r, outbound_count (metrics r)) g
  ∧ c_no_reply_chats s' = c_no_reply_chats s + count is_no_reply g
  ∧ c_slow_first_reply_chats s' = c_slow_first_reply_chats s + count is_slow g
  ∧ c_responded_chats s' = c_responded_chats s + count is_responded g
  ∧ c_first_reply_secs s' = c_first_reply_secs s ++ first_reply_secs_of g.
Proof.
  revert s. induction g as [|r g IH]; intros s; cbv zeta.
  - simpl. unfold total, count. simpl. rewrite app_nil_r. repeat split; first [done|lia].
  - cbn [foldl]. destruct (IH (ch_add s r)) as (H1 & H2 & H3 & H4 & H5 & H6 & H7 & H8).
    rewrite H1, H2, H3, H4, H5, H6, H7, H8.
    rewrite !total_cons, !count_cons. cbn [ch_add c_channel c_chats c_inbound c_outbound
      c_no_reply_chats c_slow_first_reply_chats c_responded_chats c_first_reply_secs].
    rewrite !bump_eq.
    repeat split; try done; try (simpl length; lia).
    unfold first_reply_secs_of.
    change (omap ?f (r :: g)) with (match f r with Some y => y :: omap f g | None => omap f g end).
    destruct (first_response_sec (metrics r)); [by rewrite <- app_assoc|done].
Qed.

Lemma ch_out_fields s x :
  ch_out s = Returned x →
  h_channel x = c_channel s ∧ h_chats x = c_chats s
  ∧ h_inbound x = c_inbound s ∧ h_outbound x = c_outbound s
  ∧ h_no_reply_chats x = c_no_reply_chats s
  ∧ h_slow_first_reply_chats x = c_slow_first_reply_chats s
  ∧ h_responded_chats x = c_responded_chats s
  ∧ channel_cell (c_first_reply_secs s) PyFloat.lit_0_5 = Returned (h_median_first_reply_sec x)
  ∧ channel_cell (c_first_reply_secs s) PyFloat.lit_0_9 = Returned (h_p90_first_reply_sec x)
  ∧ h_response_rate x
    = if c_chats s =? 0 then RateEmpty else Rate (ratio (c_responded_chats s) (c_chats s)).
Proof.
  unfold ch_out. cbv zeta. intros H.
  apply bind_Returned in H as (c5 & H5 & H).
  apply bind_Returned in H as (c9 & H9 & H). injection H as <-. simpl.
  by rewrite H5, H9.
Qed.

Lemma ch_key_nonempty r : key r ≠ [].
Proof. unfold ch_key. by destruct (str_lower (channel r)). Qed.

(** X13: the channel summary has one row per channel name, where the name
    of a chat is its channel in lower case, or ["unknown"] when that is
    empty (so chats without channel and chats of a channel called
    "unknown" share a row); no row has an empty name; each row counts
    exactly the chats of its name, takes median and p90 over their first
    response times in input order and shows a median or p90 of zero as
    the empty cell; rows are ordered by chats, descending, then by name. *)
Theorem channel_summary_groups (rows : list metrics_row) (out : list ch_row) :
  aggregate_channel_summary str_lower rows = Returned out →
  NoDup (h_channel <$> out)
  ∧ (∀ r, r ∈ rows → ∃ x, x ∈ out ∧ h_channel x = key r)
  ∧ (∀ r, r ∈ rows → str_lower (channel r) = [] → ∃ x, x ∈ out ∧ h_channel x = lit "unknown")
  ∧ (∀ x, x ∈ out →
      let g := rows_of_channel str_lower rows (h_channel x) in
      h_channel x ≠ [] ∧ g ≠ []
      ∧ h_chats x = Z.of_nat (length g)
      ∧ h_inbound x = total (λ r, inbound_count (metrics r)) g
      ∧ h_outbound x = total (λ r, outbound_count (metrics r)) g
      ∧ h_no_reply_chats x = count is_no_reply g
      ∧ h_slow_first_reply_chats x = count is_slow g
      ∧ h_responded_chats x = count is_responded g
      ∧ channel_cell (first_reply_secs_of g) PyFloat.lit_0_5
        = Returned (h_median_first_reply_sec x)
      ∧ channel_cell (first_reply_secs_of g) PyFloat.lit_0_9
        = Returned (h_p90_first_reply_sec x)
      ∧ h_median_first_reply_sec x ≠ CInt 0 ∧ h_p90_first_reply_sec x ≠ CInt 0
      ∧ h_response_rate x = Rate (ratio (h_responded_chats x) (h_chats x)))
  ∧ StronglySorted
      (λ a b, h_chats b < h_chats a
              ∨ (h_chats a = h_chats b ∧ text_ltb (h_channel b) (h_channel a) = false)) out.
Proof.
  unfold aggregate_channel_summary. intros H.
  apply bind_Returned in H as (out0 & Hmap & H). injection H as <-.
  apply mapM_Returned in Hmap as Hf.
  set (out := sorted_lt _ out0).
  assert (Hp : out ≡ₚ out0) by apply (sorted_lt_perm ch_sort_key).
  assert (Hent : ∀ k s, (k, s) ∈ by_ch str_lower rows →
            ∃ r0 g, rows_of_channel str_lower rows k = r0 :: g ∧ key r0 = k
                    ∧ s = foldl ch_add (ch_new str_lower r0) (r0 :: g) ∧ c_channel s = k).
  { intros k s Hin.
    destruct (group_fold_elem key (ch_new str_lower) ch_add rows k s Hin) as (r0 & g & Hg & ->).
    assert (key r0 = k) as Hk.
    { assert (r0 ∈ filter (λ r, key r = k) rows) as Hr0 by (rewrite Hg; by left).
      by apply list_elem_of_filter in Hr0 as [? _]. }
    exists r0, g. split; [done|]. split; [done|]. split; [done|].
    destruct (ch_fold_fields (ch_new str_lower r0) (r0 :: g)) as (-> & _). done. }
  assert (Hkeys : h_channel <$> out0 = (by_ch str_lower rows).*1).
  { clear Hp Hmap. subst out. revert Hent Hf. generalize (by_ch str_lower rows).
    intros d. revert out0. induction d as [|[k s] d IH]; intros out0 Hent Hf.
    - apply Forall2_nil_inv_l in Hf as ->. done.
    - rewrite fmap_cons in Hf. apply Forall2_cons_inv_l in Hf as (x & out1 & Hx & Hf & ->).
      rewrite !fmap_cons. cbn [fst]. f_equal.
      + destruct (ch_out_fields _ _ Hx) as (-> & _).
        destruct (Hent k s) as (_ & _ & _ & _ & _ & ?); [by left|done].
      + apply IH; [|done]. intros k' s' Hin. apply Hent. by right. }
  assert (Hcov : ∀ r, r ∈ rows → ∃ x, x ∈ out ∧ h_channel x = key r).
  { intros r Hr.
    destruct (group_fold_covers key (ch_new str_lower) ch_add rows r Hr) as [s Hs].
    assert (key r ∈ h_channel <$> out0) as Hin.
    { rewrite Hkeys. apply list_elem_of_fmap. by exists (key r, s). }
    apply list_elem_of_fmap in Hin as (x & Hx & Hin). exists x. by rewrite Hp. }
  split; [|split; [|split; [|split]]].
  - rewrite Hp, Hkeys. apply group_fold_NoDup.
  - done.
  - intros r Hr Hlow. destruct (Hcov r Hr) as (x & Hx & Hk). exists x.
    split; [done|]. rewrite Hk. unfold ch_key. by rewrite Hlow.
  - intros x Hx. cbv zeta. rewrite Hp in Hx.
    destruct (proj1 (list_elem_of_lookup _ _) Hx) as [i Hi].
    destruct (Forall2_lookup_r _ _ _ _ _ Hf Hi) as (s & Hs & Hout).
    rewrite list_lookup_fmap in Hs. apply fmap_Some in Hs as ([k s'] & Hks & ->).
    simpl in Hout.
    assert ((k, s') ∈ by_ch str_lower rows) as Hin by by eapply list_elem_of_lookup_2.
    destruct (Hent k s' Hin) as (r0 & g & Hg & Hk & Hs & Hc).
    destruct (ch_out_fields s' x Hout)
      as (E1 & -> & -> & -> & -> & -> & -> & H5 & H9 & ->).
    rewrite E1, Hc, Hg.
    destruct (ch_fold_fields (ch_new str_lower r0) (r0 :: g))
      as (_ & F2 & F3 & F4 & F5 & F6 & F7 & F8).
    rewrite <- Hs in F2, F3, F4, F5, F6, F7, F8.
    simpl in F2, F3, F4, F5, F6, F7, F8.
    rewrite F8 in H5, H9. rewrite F2, F3, F4, F5, F6, F7.
    split; [rewrite <- Hk; apply ch_key_nonempty|].
    split; [done|]. repeat (split; [done|]).
    assert (Hz : ∀ vals p c, channel_cell vals p = Returned c → c ≠ CInt 0).
    { intros vals p c. unfold channel_cell.
      destruct (_pct vals p) as [[v|]|]; simpl; [|by intros [= <-]|done].
      destruct (v =? 0) eqn:E; intros [= <-]; [done|].
      apply Z.eqb_neq in E. congruence. }
    split; [by eapply Hz|]. split; [by eapply Hz|].
    replace (_ =? 0) with false; [done|].
    symmetry. apply Z.eqb_neq. simpl length. lia.
  - pose proof (sorted_lt_sorted ch_sort_key out0) as Hs.
    eapply StronglySorted_weaken; [|exact Hs].
    intros a b Hab. unfold ch_sort_key in Hab. by apply key_le_inv in Hab.
Qed.
End Channel.

Lemma channel_summary_groups_witness :
  ∃ out, aggregate_channel_summary ascii_lower_text sample_rows = Returned out
         ∧ NoDup (h_channel <$> out)
         ∧ ∃ x, x ∈ out ∧ h_channel x = lit "unknown".
Proof.
  destruct (aggregate_channel_summary ascii_lower_text sample_rows) as [out|e] eqn:E;
    [|by vm_compute in E].
  exists out. split; [reflexivity|].
  destruct (channel_summary_groups ascii_lower_text sample_rows out E) as (H1 & _ & H3 & _).
  split; [exact H1|].
  apply (H3 {| channel := []; manager_id := None; manager_name := [];
               metrics := sample_metrics 1 0 None 1 |});
    [right; left|reflexivity].
Defined.
End SummaryFacts.
(* ===================================================================== *)
(** * Redaction and snippets, further *)
(* ===================================================================== *)

Section RedactionMore.
Import Py Re behavior_digest Spec SpecMore.
Local Open Scope nat_scope.

(** A match reads a character of every class the pattern asks for. *)
Lemma matches_needs (pat : pattern) (p : char → bool) prev s n :
  (Cls p ∈ pat ∨ ∃ lo hi, Rep p (S lo) hi ∈ pat) →
  matches pat prev s n → ∃ c, c ∈ s ∧ p c = true.
Proof.
  revert prev s n. induction pat as [|a pat IH]; intros prev s n Hin Hm.
  - destruct Hin as [Hin|(? & ? & Hin)]; by apply elem_of_nil in Hin.
  - assert (Hrest : ∀ prev' s' n', matches pat prev' s' n' →
              (Cls p ∈ pat ∨ ∃ lo hi, Rep p (S lo) hi ∈ pat) → ∃ c, c ∈ s' ∧ p c = true)
      by (intros; by eapply IH).
    destruct a as [q|q lo hi|]; simpl in Hm.
    + destruct Hm as (c & s' & n' & -> & Hq & -> & Hm).
      destruct Hin as [[[= ->]|Hin]%elem_of_cons|(lo & hi & [[=]|Hin]%elem_of_cons)].
      * exists c. split; [by left|done].
      * destruct (Hrest _ _ _ Hm) as (c' & ? & ?); [by left|]. exists c'. split; [by right|done].
      * destruct (Hrest _ _ _ Hm) as (c' & ? & ?); [right; by eauto|].
        exists c'. split; [by right|done].
    + destruct Hm as (j & n' & -> & Hlo & Hhi & Hj & Hall & Hm).
      assert (Hdrop : ∀ c, c ∈ drop j s → c ∈ s).
      { intros c Hc. rewrite <- (take_drop j s). apply elem_of_app. by right. }
      destruct Hin as [[[=]|Hin]%elem_of_cons|(lo' & hi' & [Heq|Hin]%elem_of_cons)].
      * destruct (Hrest _ _ _ Hm) as (c' & ? & ?); [by left|]. exists c'. split; [by apply Hdrop|done].
      * injection Heq as -> <- _.
        destruct s as [|c s]; [simpl in Hj; lia|]. destruct j as [|j]; [lia|].
        simpl in Hall. apply Forall_cons in Hall as [Hc _]. exists c. split; [by left|done].
      * destruct (Hrest _ _ _ Hm) as (c' & ? & ?); [right; by eauto|].
        exists c'. split; [by apply Hdrop|done].
    + destruct Hm as [_ Hm].
      destruct Hin as [[[=]|Hin]%elem_of_cons|(lo' & hi' & [[=]|Hin]%elem_of_cons)].
      * destruct (Hrest _ _ _ Hm) as (c' & ? & ?); [by left|]. by exists c'.
      * destruct (Hrest _ _ _ Hm) as (c' & ? & ?); [right; by eauto|]. by exists c'.
Qed.

(** Without a match anywhere, [sub] copies its input. *)
Lemma sub_go_no_match pat repl prev s :
  (∀ prev' t n, (∀ c, c ∈ t → c ∈ s) → match_here pat prev' t ≠ Some n) →
  sub_go pat repl prev 0 s = s.
Proof.
  revert prev. induction s as [|c s IH]; intros prev Hno; [done|].
  simpl. destruct (match_here pat prev (c :: s)) as [[|n]|] eqn:E.
  - exfalso. by eapply (Hno prev (c :: s) 0).
  - exfalso. by eapply (Hno prev (c :: s) (S n)).
  - f_equal. apply IH. intros prev' t n Hsub. apply Hno.
    intros c' Hc'. right. by apply Hsub.
Qed.

Lemma sub_absent (pat : pattern) (p : char → bool) repl s :
  (Cls p ∈ pat ∨ ∃ lo hi, Rep p (S lo) hi ∈ pat) →
  (∀ c, c ∈ s → p c = false) →
  sub pat repl s = s.
Proof.
  intros Hin Hno. apply sub_go_no_match. intros prev t n Hsub Hm.
  apply match_here_sound in Hm.
  destruct (matches_needs pat p prev t n Hin Hm) as (c & Hc & Hp).
  rewrite (Hno c) in Hp; [done|by apply Hsub].
Qed.

(** Membership in a list written out. *)
Ltac in_list := repeat first [by left | right].



Lemma lstrip_head_nonspace (s : Py.text) (c : char) :
  head (lstrip s) = Some c → is_space c = false.
Proof.
  induction s as [|x s IH]; [done|]. simpl.
  destruct (is_space x) eqn:E; [done|]. by intros [= <-].
Qed.

(** A trimmed text starts and ends with a character that is not white
    space, and is a part of the text. *)
Lemma strip_ends (s : Py.text) :
  (∀ c, head (strip s) = Some c → is_space c = false)
  ∧ (∀ c, last (strip s) = Some c → is_space c = false).
Proof.
  split.
  - intros c Hc. destruct (lstrip_split (reverse (lstrip s))) as (a & Hr & _).
    assert (lstrip s = strip s ++ reverse a) as Hx.
    { unfold strip. rewrite <- reverse_app, <- Hr, reverse_involutive. done. }
    apply (lstrip_head_nonspace s). rewrite Hx.
    destruct (strip s); [done|]. done.
  - intros c Hc. unfold strip in Hc. rewrite last_reverse in Hc.
    by apply lstrip_head_nonspace in Hc.
Qed.

(** X15: a redacted text is a single line and does not start with white
    space; when nothing had to be cut it does not end with white space
    either. *)
Theorem redaction_single_line (s : Py.text) :
  (10%N ∉ _redact_text s)
  ∧ (∀ c, head (_redact_text s) = Some c → is_space c = false)
  ∧ (length (redacted_full s) ≤ 220 →
     ∀ c, last (_redact_text s) = Some c → is_space c = false).
Proof.
  assert (Hfull : _redact_text s = take 220 (redacted_full s)) by done.
  rewrite Hfull. unfold redacted_full.
  set (x := sub _RE_PHONE _ _).
  destruct (strip_ends (replace_nl x)) as [Hh Hl].
  split; [|split].
  - intros Hin.
    assert (10%N ∈ strip (replace_nl x)) as Hin'.
    { rewrite <- (take_drop 220 (strip (replace_nl x))). apply elem_of_app. by left. }
    apply strip_subset in Hin'. unfold replace_nl in Hin'.
    apply list_elem_of_fmap in Hin' as (c & Hc & _).
    destruct (N.eqb_spec c 10); [done|]. congruence.
  - intros c Hc. apply Hh. by destruct (strip (replace_nl x)).
  - intros Hlen c Hc. rewrite take_ge in Hc by done. by apply Hl.
Qed.

Lemma redaction_single_line_witness :
  last (_redact_text (lit " two
lines ")) = Some (chr "s") ∧ is_space (chr "s") = false.
Proof.
  split; [reflexivity|].
  destruct (redaction_single_line (lit " two
lines ")) as (_ & _ & H).
  apply H; [vm_compute; lia|reflexivity].
Defined.

(** The loop of [_chat_snippet] from any state: a snippet already found
    stays, one still empty becomes the first non-empty redaction. *)
Lemma snippet_loop_spec (msgs : list Msg) (i o : Py.text) :
  snippet_loop msgs i o
  = (if nonempty i then i else first_redaction quotable_in msgs,
     if nonempty o then o else first_redaction quotable_out msgs).
Proof.
  revert i o. induction msgs as [|m msgs IH]; intros i o.
  - simpl. unfold first_redaction. simpl. by destruct i, o.
  - cbn [snippet_loop]. cbv zeta.
    assert (Hfirst : ∀ p, first_redaction p (m :: msgs)
              = if p m && nonempty (_redact_text (text m)) then _redact_text (text m)
                else first_redaction p msgs).
    { intros p. unfold first_redaction. rewrite filter_cons.
      destruct (p m); [rewrite decide_True by done|rewrite decide_False by done]; [|done].
      rewrite fmap_cons, filter_cons.
      destruct (_redact_text (text m)) as [|c r] eqn:E.
      - by rewrite decide_False by (intros H; by apply H).
      - by rewrite decide_True by done. }
    rewrite !Hfirst. fold (quotable_in m). fold (quotable_out m).
    replace (negb (nonempty i) && _is_customer_msg m && _is_textish m && nonempty (text m))
      with (negb (nonempty i) && quotable_in m)
      by (unfold quotable_in; by rewrite !andb_assoc).
    replace (negb (nonempty o) && _is_manager_msg m && _is_textish m && nonempty (text m))
      with (negb (nonempty o) && quotable_out m)
      by (unfold quotable_out; by rewrite !andb_assoc).
    destruct (nonempty i) eqn:Ei, (nonempty o) eqn:Eo; simpl.
    + by rewrite Ei, Eo.
    + rewrite Ei. destruct (quotable_out m); simpl.
      * destruct (nonempty (_redact_text (text m))) eqn:Er; [done|].
        rewrite IH, Ei, Er. done.
      * rewrite Eo. simpl. rewrite IH, Ei, Eo. done.
    + destruct (quotable_in m); simpl.
      * destruct (nonempty (_redact_text (text m))) eqn:Er; rewrite ?Eo; simpl; [done|].
        rewrite IH, Er, Eo. done.
      * rewrite Ei. simpl. rewrite IH, Ei, Eo. done.
    + destruct (quotable_in m), (quotable_out m); simpl;
        try destruct (nonempty (_redact_text (text m))) eqn:Er; simpl;
        rewrite ?Ei, ?Eo, ?Er; simpl; rewrite ?IH, ?Ei, ?Eo, ?Er; done.
Qed.

(** X16: the inbound snippet of a chat is the first non-empty redaction
    among its customer messages of a textual type with a text, and the
    outbound snippet the first non-empty one among the manager's; each is
    independent of the messages of the other side, and empty when no
    such message has a non-empty redaction. *)
Theorem chat_snippet_first_redactions (ms : list Msg) :
  _chat_snippet ms = (first_redaction quotable_in ms, first_redaction quotable_out ms).
Proof. unfold _chat_snippet. by rewrite snippet_loop_spec. Qed.
End RedactionMore.

(* ===================================================================== *)
(** * The tables of [chats_raw] *)
(* ===================================================================== *)

Section ChatTables.
Import Py behavior_digest Spec SpecMore.

Lemma read_chats_snoc rows r : read_chats (rows ++ [r]) = read_chat (read_chats rows) r.
Proof. unfold read_chats. by rewrite foldl_app. Qed.

Lemma last_filter_snoc {A} (P : A → Prop) `{∀ x, Decision (P x)} (l : list A) (x : A) :
  last (filter P (l ++ [x])) = if decide (P x) then Some x else last (filter P l).
Proof.
  rewrite filter_app, filter_cons, filter_nil.
  destruct (decide (P x)); [by rewrite last_snoc|by rewrite app_nil_r].
Qed.

(** What one row does to each table. *)
Lemma read_chat_tables t r :
  let put {A} (v : A) (m : gmap string A) : gmap string A :=
    if decide (r_chat_id r = ""%string) then m else <[r_chat_id r := v]> m in
  chat_mgr_id (read_chat t r) = put (r_manager_id r) (chat_mgr_id t)
  ∧ chat_mgr_name (read_chat t r) = put (r_manager_name r) (chat_mgr_name t)
  ∧ chat_first_reply_sec (read_chat t r) = put (r_first_response_sec r) (chat_first_reply_sec t)
  ∧ chat_unanswered (read_chat t r) = put (r_unanswered_inbound r) (chat_unanswered t)
  ∧ chat_no_reply (read_chat t r) = put (no_reply_flag r) (chat_no_reply t)
  ∧ mgr_name_by_id (read_chat t r)
    = if decide (r_manager_id r ≠ ""%string ∧ r_manager_name r ≠ ""%string)
      then <[r_manager_id r := r_manager_name r]> (mgr_name_by_id t)
      else mgr_name_by_id t.
Proof.
  cbv zeta. unfold read_chat, no_reply_flag. cbv zeta.
  destruct (decide (r_chat_id r = ""%string)) as [Hc|Hc].
  - rewrite (bool_decide_eq_false_2 (r_chat_id r ≠ ""%string)) by (intros H; by apply H).
    destruct (decide (r_manager_id r ≠ ""%string ∧ r_manager_name r ≠ ""%string)) as [[H1 H2]|Hn].
    + rewrite (bool_decide_eq_true_2 _ H1), (bool_decide_eq_true_2 _ H2). done.
    + destruct (bool_decide (r_manager_id r ≠ ""%string)) eqn:E1;
        destruct (bool_decide (r_manager_name r ≠ ""%string)) eqn:E2; simpl; try done.
      apply bool_decide_eq_true in E1, E2. exfalso. by apply Hn.
  - rewrite (bool_decide_eq_true_2 (r_chat_id r ≠ ""%string)) by done.
    destruct (decide (r_manager_id r ≠ ""%string ∧ r_manager_name r ≠ ""%string)) as [[H1 H2]|Hn].
    + rewrite (bool_decide_eq_true_2 _ H1), (bool_decide_eq_true_2 _ H2). done.
    + destruct (bool_decide (r_manager_id r ≠ ""%string)) eqn:E1;
        destruct (bool_decide (r_manager_name r ≠ ""%string)) eqn:E2; simpl; try done.
      apply bool_decide_eq_true in E1, E2. exfalso. by apply Hn.
Qed.

(** A table filled by [put] holds, for a non-empty key, the value of the
    last row with that key. *)
Lemma put_lookup {A} (f : chat_row → A) (m : gmap string A) rows r cid :
  m !! cid = (if decide (cid = ""%string) then None else f <$> last_row_of cid rows) →
  (if decide (r_chat_id r = ""%string) then m else <[r_chat_id r := f r]> m) !! cid
  = if decide (cid = ""%string) then None else f <$> last_row_of cid (rows ++ [r]).
Proof.
  intros IH. unfold last_row_of in *. rewrite last_filter_snoc.
  destruct (decide (r_chat_id r = ""%string)) as [Hr|Hr].
  - rewrite IH. destruct (decide (cid = ""%string)) as [->|Hc]; [done|].
    rewrite decide_False by congruence. done.
  - destruct (decide (r_chat_id r = cid)) as [<-|Hne].
    + rewrite lookup_insert_eq. by rewrite decide_False by done.
    + rewrite lookup_insert_ne by done. exact IH.
Qed.

(** X17: the tables built from [chats_raw].  For a non-empty chat id, every
    per-chat table holds the value of the last row with that id: manager
    id, manager name, first response time, unanswered count, and the
    no-reply flag, which is 1 exactly when the row has inbound messages
    and no outbound one (a missing count is 0).  Rows without chat id add
    no chat.  The name of a manager id is the one of the last row that
    has both that id and a non-empty name; the empty id has no name. *)
Theorem read_chats_lookup (rows : list chat_row) (cid mid : string) :
  let t := read_chats rows in
  let at_last {A} (f : chat_row → A) : option A :=
    if decide (cid = ""%string) then None else f <$> last_row_of cid rows in
  chat_mgr_id t !! cid = at_last r_manager_id
  ∧ chat_mgr_name t !! cid = at_last r_manager_name
  ∧ chat_first_reply_sec t !! cid = at_last r_first_response_sec
  ∧ chat_unanswered t !! cid = at_last r_unanswered_inbound
  ∧ chat_no_reply t !! cid = at_last no_reply_flag
  ∧ mgr_name_by_id t !! mid
    = if decide (mid = ""%string) then None else r_manager_name <$> last_named mid rows.
Proof.
  cbv zeta. induction rows as [|r rows IH] using rev_ind.
  - unfold read_chats, last_row_of, last_named. simpl. rewrite !lookup_empty.
    by destruct (decide (cid = ""%string)), (decide (mid = ""%string)).
  - destruct IH as (I1 & I2 & I3 & I4 & I5 & I6).
    rewrite read_chats_snoc.
    destruct (read_chat_tables (read_chats rows) r) as (-> & -> & -> & -> & -> & ->).
    split; [by apply put_lookup|]. split; [by apply put_lookup|].
    split; [by apply put_lookup|]. split; [by apply put_lookup|].
    split; [by apply put_lookup|].
    unfold last_named in *. rewrite last_filter_snoc.
    destruct (decide (r_manager_id r ≠ ""%string ∧ r_manager_name r ≠ ""%string)) as [[H1 H2]|Hn].
    + destruct (decide (r_manager_id r = mid)) as [<-|Hne].
      * rewrite lookup_insert_eq, decide_False by done.
        by rewrite decide_True by done.
      * rewrite lookup_insert_ne by done. rewrite I6.
        destruct (decide (mid = ""%string)); [done|].
        rewrite decide_False; [done|]. by intros [? _].
    + rewrite I6. destruct (decide (mid = ""%string)) as [->|Hm]; [done|].
      rewrite decide_False; [done|]. intros [<- ?]. by apply Hn.
Qed.

Lemma read_chats_lookup_witness :
  chat_no_reply (sample_tables (Some 30)) !! "c1"%string = Some 0
  ∧ mgr_name_by_id (sample_tables (Some 30)) !! "7"%string = Some "Ann"%string.
Proof.
  pose proof (read_chats_lookup
    [ {| r_chat_id := "c1"; r_manager_id := "7"; r_manager_name := "Ann";
         r_first_response_sec := Some 30; r_unanswered_inbound := Some 0;
         r_inbound_count := Some 1; r_outbound_count := Some 1 |} ]
    "c1"%string "7"%string) as (_ & _ & _ & _ & H5 & H6).
  split; [exact H5|exact H6].
Defined.
End ChatTables.

(* ===================================================================== *)
(** * The candidates of the example categories *)
(* ===================================================================== *)

Section SortedByStable.
Import Py.
Context {A : Type} (key : A → Z).

(** Sorting a list whose keys are all equal leaves it as it is. *)
Lemma sorted_by_const (reverse : bool) (k : Z) (l : list A) :
  (∀ x, x ∈ l → key x = k) → sorted_by key reverse l = l.
Proof.
  unfold sorted_by. induction l as [|x l IH]; intros Hk; [done|].
  cbn [foldr]. rewrite IH by (intros y Hy; apply Hk; by right).
  destruct l as [|y l]; [by destruct reverse|].
  assert (key x = k) as Hx by (apply Hk; by left).
  assert (key y = k) as Hy by (apply Hk; right; by left).
  destruct reverse; simpl; rewrite Hx, Hy, Z.ltb_irrefl; done.
Qed.
End SortedByStable.

Section Candidates.
Import Py behavior_digest Spec SpecMore.
Variables (kw_intent kw_nextstep re_interrogative : Py.text → bool).

Local Abbreviation step := (process_chat kw_intent kw_nextstep re_interrogative).
Local Abbreviation run := (process_chats kw_intent kw_nextstep re_interrogative).

Lemma run_snoc t l e : run t (l ++ [e]) = step t (run t l) e.
Proof. unfold process_chats. by rewrite foldl_app. Qed.

Lemma chats_of_snoc {A} t mid test (mk : string * list Msg → A) l e :
  chats_of t mid test mk (l ++ [e])
  = chats_of t mid test mk l
    ++ (if decide (resolve_mid t e.1 e.2 = mid ∧ test e = true) then [mk e] else []).
Proof.
  unfold chats_of. rewrite filter_app, filter_cons, filter_nil, fmap_app.
  by destruct (decide _).
Qed.

Lemma default_some_if_nonempty {A} (l : list A) : default [] (some_if_nonempty l) = l.
Proof. by destruct l. Qed.

(** An accumulator that one chat extends under a test holds, per manager,
    the values of the manager's chats that pass the test, in order. *)
Lemma acc_fold_lookup {A} (proj : digest_state → gmap string (list A))
    (test : string * list Msg → bool) (mk : string * list Msg → A) t :
  proj empty_state = ∅ →
  (∀ st e, proj (step t st e)
           = if test e then setdefault_append (proj st) (resolve_mid t e.1 e.2) (mk e)
             else proj st) →
  ∀ l mid, proj (run t l) !! mid = some_if_nonempty (chats_of t mid test mk l).
Proof.
  intros H0 Hstep l mid. induction l as [|e l IH] using rev_ind.
  - unfold process_chats. simpl. by rewrite H0, lookup_empty.
  - rewrite run_snoc, Hstep, chats_of_snoc.
    destruct (test e) eqn:Et.
    + rewrite setdefault_append_lookup.
      destruct (decide (resolve_mid t e.1 e.2 = mid)) as [Hm|Hm].
      * rewrite decide_True by done. rewrite Hm, IH, default_some_if_nonempty.
        by destruct (chats_of t mid test mk l).
      * rewrite decide_False by (by intros [? _]). by rewrite app_nil_r.
    + rewrite decide_False by (by intros [_ ?]). by rewrite app_nil_r.
Qed.

Lemma step_fields t st e :
  first_reply_values_by_mgr (step t st e)
  = (if has_positive_reply t e
     then setdefault_append (first_reply_values_by_mgr st) (resolve_mid t e.1 e.2)
            (first_reply_value t e)
     else first_reply_values_by_mgr st)
  ∧ cand_no_reply (step t st e)
    = (if flagged_no_reply t e
       then setdefault_append (cand_no_reply st) (resolve_mid t e.1 e.2) (cand_of 100 e)
       else cand_no_reply st)
  ∧ cand_slow (step t st e)
    = (if is_slow_chat t e
       then setdefault_append (cand_slow st) (resolve_mid t e.1 e.2) (slow_cand t e)
       else cand_slow st)
  ∧ cand_no_next (step t st e)
    = (if is_no_next_chat kw_intent kw_nextstep e
       then setdefault_append (cand_no_next st) (resolve_mid t e.1 e.2) (cand_of 50 e)
       else cand_no_next st).
Proof.
  destruct e as [cid ms]. unfold process_chat, has_positive_reply, flagged_no_reply,
    is_slow_chat, is_no_next_chat, slow_cand, first_reply_value, cand_of, stored_first_reply.
  cbv zeta. cbn [fst snd]. destruct (_chat_snippet ms) as [sn_in sn_out]. done.
Qed.

Lemma fmap_some_if_nonempty_take {A} (f : list A → list A) (l : list A) :
  (l ≠ [] → f l ≠ []) → f <$> some_if_nonempty l = some_if_nonempty (f l) ∨ l = [].
Proof.
  intros Hf. destruct l as [|x l]; [by right|]. left. simpl.
  destruct (f (x :: l)) eqn:E; [by destruct (Hf ltac:(done))|done].
Qed.

(** X18: the examples of the categories with a constant score.  For every
    manager, the no-reply examples are the first three chats of the
    manager, in the order of [by_chat], whose row of [chats_raw] has the
    no-reply flag; the examples of interest without next step are the
    first three chats of the manager where a customer text shows
    interest, the manager responded and the last outbound text has no
    next-step cue.  (The sort by score is stable.) *)
Theorem constant_score_examples t (by_chat : list (string * list Msg)) (mid : string) :
  top_no_reply (run t by_chat) !! mid
  = some_if_nonempty (take 3 (chats_of t mid (flagged_no_reply t) (cand_of 100) by_chat))
  ∧ top_no_next (run t by_chat) !! mid
    = some_if_nonempty
        (take 3 (chats_of t mid (is_no_next_chat kw_intent kw_nextstep) (cand_of 50) by_chat)).
Proof.
  assert (Hconst : ∀ k test (l : list (string * list Msg)),
            (λ items, take 3 (sorted_by cand_score true items))
              <$> some_if_nonempty (chats_of t mid test (cand_of k) l)
            = some_if_nonempty (take 3 (chats_of t mid test (cand_of k) l))).
  { intros k test l.
    assert (Hk : ∀ c, c ∈ chats_of t mid test (cand_of k) l → cand_score c = k).
    { intros c Hc. unfold chats_of in Hc.
      apply list_elem_of_fmap in Hc as (e & -> & _). done. }
    destruct (chats_of t mid test (cand_of k) l) as [|x L]; [done|].
    cbn [some_if_nonempty fmap option_fmap option_map].
    by rewrite (sorted_by_const cand_score true k) by exact Hk. }
  unfold top_no_reply, top_no_next. rewrite !pick_top_lookup. split.
  - rewrite (acc_fold_lookup cand_no_reply (flagged_no_reply t) (cand_of 100) t);
      [apply Hconst|done|]. intros st e. apply step_fields.
  - rewrite (acc_fold_lookup cand_no_next (is_no_next_chat kw_intent kw_nextstep)
               (cand_of 50) t); [apply Hconst|done|]. intros st e. apply step_fields.
Qed.

(** X19: the slow-reply examples.  For every manager they are the (at most
    three) chats of the manager with the greatest stored first response
    time among those of at least 30 minutes: each example scores its
    stored time, which is at least 1800 s, and no slow chat left out
    scores more than an example. *)
Theorem slow_examples t (by_chat : list (string * list Msg)) (mid : string) items :
  top_slow (run t by_chat) !! mid = Some items →
  (length items ≤ 3)%nat
  ∧ ∃ rest,
      items ++ rest ≡ₚ chats_of t mid (is_slow_chat t) (slow_cand t) by_chat
      ∧ StronglySorted (by_key_ge cand_score) (items ++ rest)
      ∧ (rest ≠ [] → length items = 3%nat)
      ∧ ∀ c, c ∈ items ++ rest →
             30 * 60 <= cand_score c
             ∧ ∃ e, e ∈ by_chat ∧ resolve_mid t e.1 e.2 = mid ∧ cand_chat c = e.1
                    ∧ stored_first_reply t e.1 = Some (cand_score c).
Proof.
  unfold top_slow. rewrite pick_top_lookup.
  rewrite (acc_fold_lookup cand_slow (is_slow_chat t) (slow_cand t) t);
    [|done|intros st e; apply step_fields].
  remember (chats_of t mid (is_slow_chat t) (slow_cand t) by_chat) as L eqn:EL.
  intros H.
  assert (items = take 3 (sorted_by cand_score true L)) as ->.
  { destruct L; [done|]. simpl in H. by injection H as <-. }
  clear H.
  set (S := sorted_by cand_score true L).
  assert (HS : StronglySorted (by_key_ge cand_score) S) by apply sorted_by_desc_sorted.
  assert (HP : S ≡ₚ L) by apply sorted_by_perm.
  split; [rewrite length_take; lia|].
  exists (drop 3 S). rewrite take_drop. split; [done|]. split; [done|]. split.
  { intros Hne. rewrite length_take.
    destruct (decide (3 ≤ length S)%nat); [lia|]. rewrite drop_ge in Hne by lia. done. }
  intros c Hc. rewrite HP, EL in Hc. unfold chats_of in Hc.
  apply list_elem_of_fmap in Hc as (e & -> & He).
  apply list_elem_of_filter in He as [[Hm Hslow] He].
  unfold is_slow_chat in Hslow. apply andb_true_iff in Hslow as [Hpos Hge].
  unfold slow_cand, cand_of, first_reply_value. cbn [cand_score cand_chat fst snd].
  split; [rewrite Z.geb_leb in Hge; by apply Z.leb_le in Hge|].
  exists e. split; [done|]. split; [done|]. split; [done|].
  unfold has_first_reply in Hpos. by destruct (stored_first_reply t e.1).
Qed.

(** X20: the sample of the snapshot.  The first response times of a
    manager, over which the snapshot takes median and p90, are the stored
    times of the manager's chats that are present and positive, in the
    order of [by_chat]; a manager without such a chat has no sample, and
    then both cells are empty. *)
Theorem snapshot_sample t (by_chat : list (string * list Msg)) (mid : string) :
  let sample := chats_of t mid (has_positive_reply t) (first_reply_value t) by_chat in
  first_reply_values_by_mgr (run t by_chat) !! mid = some_if_nonempty sample
  ∧ snapshot_median (run t by_chat) mid = digest_median sample
  ∧ snapshot_p90 (run t by_chat) mid = digest_p90 sample
  ∧ (∀ v, v ∈ sample → 0 < v)
  ∧ (sample = [] →
     snapshot_median (run t by_chat) mid = Returned None
     ∧ snapshot_p90 (run t by_chat) mid = Returned None).
Proof.
  cbv zeta.
  assert (H : first_reply_values_by_mgr (run t by_chat) !! mid
              = some_if_nonempty (chats_of t mid (has_positive_reply t)
                                    (first_reply_value t) by_chat)).
  { apply (acc_fold_lookup first_reply_values_by_mgr); [done|].
    intros st e. apply step_fields. }
  split; [done|]. unfold snapshot_median, snapshot_p90.
  rewrite H, default_some_if_nonempty. split; [done|]. split; [done|]. split.
  - intros v Hv. unfold chats_of in Hv. apply list_elem_of_fmap in Hv as (e & -> & He).
    apply list_elem_of_filter in He as [[_ Hpos] _].
    unfold has_positive_reply, has_first_reply, first_reply_value in *.
    destruct (stored_first_reply t e.1) as [v|]; [|done]. simpl.
    rewrite Z.gtb_ltb in Hpos. by apply Z.ltb_lt.
  - intros ->. done.
Qed.
End Candidates.

Section CandidatesWitnesses.
Import Py behavior_digest Spec SpecMore.

Lemma slow_examples_witness :
  ∃ items, top_slow (sample_run (Some 2000)) !! "7"%string = Some items
           ∧ (length items ≤ 3)%nat.
Proof.
  eexists. split; [reflexivity|].
  destruct (slow_examples quiet has_qmark quiet (sample_tables (Some 2000))
              [("c1"%string, sample_chat)] "7"%string _ eq_refl) as [H _].
  exact H.
Defined.
End CandidatesWitnesses.

(* ===================================================================== *)
(** * The baseline, further *)
(* ===================================================================== *)

Section BaselineMore.
Import Py behavior_digest Spec SpecMore.
Context {V : Type}.

Local Abbreviation hrow := (@row V).

Lemma baseline_place_step cutoff (l : list hrow) b r0 :
  baseline_place_inv cutoff l b →
  baseline_place_inv cutoff (l ++ [r0]) (baseline_step cutoff b r0).
Proof.
  intros Hinv mid. specialize (Hinv mid).
  (* the row leaves the entry of [mid] as it is *)
  assert (Hkeep :
    baseline (baseline_step cutoff b r0) !! mid = baseline b !! mid →
    best_ts (baseline_step cutoff b r0) !! mid = best_ts b !! mid →
    (∀ ts0, eligible cutoff mid r0 ts0 →
            ∃ ts, best_ts b !! mid = Some ts ∧ ts0 <= ts) →
    match baseline (baseline_step cutoff b r0) !! mid with
    | Some r =>
        ∃ l1 l2 ts,
          l ++ [r0] = l1 ++ r :: l2 ∧ eligible cutoff mid r ts
          ∧ best_ts (baseline_step cutoff b r0) !! mid = Some ts
          ∧ (∀ r' ts', r' ∈ l1 → eligible cutoff mid r' ts' → ts' < ts)
          ∧ (∀ r' ts', r' ∈ l2 → eligible cutoff mid r' ts' → ts' <= ts)
    | None =>
        best_ts (baseline_step cutoff b r0) !! mid = None
        ∧ ∀ r' ts', r' ∈ l ++ [r0] → ¬ eligible cutoff mid r' ts'
    end).
  { intros -> -> Hr0. destruct (baseline b !! mid) as [r|].
    - destruct Hinv as (l1 & l2 & ts & -> & He & Hb & H1 & H2).
      exists l1, (l2 ++ [r0]), ts. split; [by rewrite <- app_assoc|].
      split; [done|]. split; [done|]. split; [done|].
      intros r' ts' [Hin|Hin]%elem_of_app He'; [by eapply H2|].
      apply list_elem_of_singleton in Hin as ->.
      destruct (Hr0 ts' He') as (ts'' & Hb' & Hle). congruence.
    - destruct Hinv as [Hb Hn]. split; [done|].
      intros r' ts' [Hin|Hin]%elem_of_app He'; [by eapply Hn|].
      apply list_elem_of_singleton in Hin as ->.
      destruct (Hr0 ts' He') as (ts'' & Hb' & _). congruence. }
  unfold baseline_step in *.
  destruct (run_ts r0) as [ts0|] eqn:Ets; [|apply Hkeep; [done|done|]].
  2: { intros ts1 (_ & Hts & _). congruence. }
  destruct (ts0 >? cutoff) eqn:Ecut.
  { apply Hkeep; [done|done|]. intros ts1 (_ & Hts & Hle).
    rewrite Z.gtb_ltb in Ecut. apply Z.ltb_lt in Ecut. assert (ts1 = ts0) by congruence. lia. }
  rewrite Z.gtb_ltb in Ecut. apply Z.ltb_ge in Ecut.
  destruct (decide (row_manager_id r0 = mid)) as [Hm|Hm].
  - subst mid.
    destruct (best_ts b !! row_manager_id r0) as [best|] eqn:Ebest.
    + destruct (ts0 >? best) eqn:Egt.
      * rewrite Z.gtb_ltb in Egt. apply Z.ltb_lt in Egt.
        simpl. rewrite !lookup_insert_eq.
        exists l, [], ts0. split; [done|]. split; [done|]. split; [done|]. split.
        -- intros r' ts' Hin He'. destruct (baseline b !! row_manager_id r0) as [r|].
           ++ destruct Hinv as (l1 & l2 & ts & -> & He & Hb & H1 & H2).
              assert (ts = best) as -> by congruence.
              apply elem_of_app in Hin as [Hin|[->|Hin]%elem_of_cons].
              ** specialize (H1 _ _ Hin He'). lia.
              ** destruct He as (_ & Hr & _), He' as (_ & Hr' & _).
                 assert (ts' = best) by congruence. lia.
              ** specialize (H2 _ _ Hin He'). lia.
           ++ destruct Hinv as [Hb _]. congruence.
        -- intros r' ts' Hin. by apply elem_of_nil in Hin.
      * rewrite Z.gtb_ltb in Egt. apply Z.ltb_ge in Egt.
        apply Hkeep; [done|done|]. intros ts1 (_ & Hts & _).
        exists best. split; [done|]. assert (ts1 = ts0) by congruence. lia.
    + simpl. rewrite !lookup_insert_eq.
      exists l, [], ts0. split; [done|]. split; [done|]. split; [done|]. split.
      * intros r' ts' Hin He'. destruct (baseline b !! row_manager_id r0) as [r|].
        -- destruct Hinv as (? & ? & ? & _ & _ & Hb & _). congruence.
        -- destruct Hinv as [_ Hn]. by destruct (Hn r' ts' Hin).
      * intros r' ts' Hin. by apply elem_of_nil in Hin.
  - assert (Hne : ∀ ts1, ¬ eligible cutoff mid r0 ts1) by (intros ts1 [? _]; done).
    destruct (match best_ts b !! row_manager_id r0 with
              | Some best => ts0 >? best
              | None => true
              end).
    + assert (Hgoal := Hkeep). simpl in Hgoal |- *.
      rewrite !lookup_insert_ne in Hgoal |- * by done.
      apply Hgoal; [done|done|]. intros ts1 He. by destruct (Hne ts1).
    + apply Hkeep; [done|done|]. intros ts1 He. by destruct (Hne ts1).
Qed.

Lemma select_baseline_place now (hist : list hrow) :
  baseline_place_inv (now - timedelta_days 6) hist (select_baseline now hist).
Proof.
  unfold select_baseline.
  assert (Hgen : ∀ (l l0 : list hrow) (b : @baseline_state V),
            baseline_place_inv (now - timedelta_days 6) l0 b →
            baseline_place_inv (now - timedelta_days 6) (l0 ++ l)
              (foldl (baseline_step (now - timedelta_days 6)) b l)).
  { induction l as [|r l IH]; intros l0 b Hinv; simpl.
    - by rewrite app_nil_r.
    - replace (l0 ++ r :: l) with ((l0 ++ [r]) ++ l) by by rewrite <- app_assoc.
      apply IH. by apply baseline_place_step. }
  apply (Hgen hist [] _). intros mid. simpl. rewrite !lookup_empty.
  split; [done|]. intros r' ts' Hr'. by apply elem_of_nil in Hr'.
Qed.

(** X21: which row is the baseline when several qualify.  The baseline of
    a manager is a row of the history with a readable stamp at or before
    the cutoff; every qualifying row of the manager above it in the sheet
    has a strictly earlier stamp, and every one below it an earlier or
    equal stamp: among rows with the same, latest stamp the first one in
    the sheet is taken.  A manager has a baseline exactly when a row of
    the manager qualifies. *)
Theorem baseline_first_of_latest (now : Z) (hist : list hrow) (mid : string) :
  let cutoff := now - timedelta_days 6 in
  (∀ r, baseline (select_baseline now hist) !! mid = Some r →
        ∃ l1 l2 ts,
          hist = l1 ++ r :: l2 ∧ eligible cutoff mid r ts
          ∧ (∀ r' ts', r' ∈ l1 → eligible cutoff mid r' ts' → ts' < ts)
          ∧ (∀ r' ts', r' ∈ l2 → eligible cutoff mid r' ts' → ts' <= ts))
  ∧ (baseline (select_baseline now hist) !! mid = None ↔
     ∀ r' ts', r' ∈ hist → ¬ eligible cutoff mid r' ts').
Proof.
  cbv zeta. pose proof (select_baseline_place now hist mid) as H. split.
  - intros r Hr. rewrite Hr in H.
    destruct H as (l1 & l2 & ts & Hl & He & _ & H1 & H2). by exists l1, l2, ts.
  - destruct (baseline (select_baseline now hist) !! mid) as [r|].
    + destruct H as (l1 & l2 & ts & -> & He & _). split; [done|].
      intros Hn. exfalso. apply (Hn r ts); [|done].
      apply elem_of_app. right. by left.
    + by destruct H as [_ Hn].
Qed.

(** X22: rows that cannot be a baseline, because their stamp is unreadable
    or after the cutoff, have no influence: the selection is the same
    with those rows removed from the history. *)
Theorem baseline_ignores_ineligible (now : Z) (hist : list hrow) :
  select_baseline now hist
  = select_baseline now
      (List.filter (is_eligible (now - timedelta_days 6)) hist).
Proof.
  unfold select_baseline. generalize ({| baseline := ∅; best_ts := ∅ |} : @baseline_state V).
  induction hist as [|r hist IH]; intros b; [done|].
  cbn [List.filter foldl]. unfold is_eligible at 1.
  destruct (run_ts r) as [ts|] eqn:Ets.
  - destruct (ts <=? now - timedelta_days 6) eqn:E.
    + cbn [foldl]. apply IH.
    + rewrite <- IH. f_equal. unfold baseline_step. rewrite Ets.
      apply Z.leb_gt in E.
      by replace (ts >? now - timedelta_days 6) with true
        by (symmetry; rewrite Z.gtb_ltb; by apply Z.ltb_lt).
  - rewrite <- IH. f_equal. unfold baseline_step. by rewrite Ets.
Qed.
End BaselineMore.

(* ===================================================================== *)
(** * Tables read from and written to a sheet *)
(* ===================================================================== *)

Section Tables.
Import Py PyStr behavior_digest sheets digest_input Spec SpecMore.

Lemma last_pos_from_spec (i : nat) (k : Py.text) (header : list Py.text) :
  match last_pos_from i k header with
  | Some j => (i ≤ j)%nat ∧ header !! (j - i)%nat = Some k
              ∧ ∀ j', (j - i < j')%nat → header !! j' ≠ Some k
  | None => k ∉ header
  end.
Proof.
  revert i. induction header as [|h header IH]; intros i; simpl.
  - apply not_elem_of_nil.
  - specialize (IH (S i)). destruct (last_pos_from (S i) k header) as [j|].
    + destruct IH as (Hle & Hj & Hlast). split; [lia|]. split.
      * replace (j - i)%nat with (S (j - S i)) by lia. done.
      * intros j' Hj'. destruct j' as [|j']; [lia|]. simpl.
        apply Hlast. lia.
    + destruct (decide (h = k)) as [->|Hne].
      * split; [lia|]. split; [by replace (i - i)%nat with O by lia|].
        intros j' Hj'. destruct j' as [|j']; [lia|]. simpl.
        intros Hk. apply IH. by eapply list_elem_of_lookup_2.
      * intros [->|Hin]%elem_of_cons; done.
Qed.

(** The dict of a line: a name that is not empty maps to the cell of its
    last column, or to the empty string when the line is too short. *)
Lemma fill_row_lookup (i : nat) header row d k :
  fill_row i header row d !! k
  = match (if decide (k = []) then None else last_pos_from i k header) with
    | Some j => Some (default [] (row !! j))
    | None => d !! k
    end.
Proof.
  revert i d. induction header as [|h header IH]; intros i d; simpl.
  - by destruct (decide (k = [])).
  - rewrite IH. destruct (decide (k = [])) as [->|Hk].
    + destruct h; simpl; [done|]. by rewrite lookup_insert_ne.
    + destruct (last_pos_from (S i) k header) as [j|]; [done|].
      destruct (decide (h = k)) as [->|Hne].
      * destruct k; [done|]. simpl. by rewrite lookup_insert_eq.
      * destruct h; simpl; [done|]. by rewrite lookup_insert_ne.
Qed.

(** X23: [_read_table] gives one dict per line below the header (none for
    an empty sheet); in each dict a column name that is not empty maps to
    the cell of the last column with that name, or to the empty string
    when the line is shorter, and no other key is present: columns
    without name are dropped, cells beyond the header are ignored. *)
Theorem read_table_cells (header : list Py.text) (rows : list (list Py.text)) :
  _read_table [] = []
  ∧ length (_read_table (header :: rows)) = length rows
  ∧ ∀ j row, rows !! j = Some row →
      ∃ d, _read_table (header :: rows) !! j = Some d
           ∧ ∀ k, d !! k
                  = if decide (k = []) then None
                    else (λ i, default [] (row !! i)) <$> last_pos k header.
Proof.
  split; [done|]. split; [simpl; by rewrite length_fmap|].
  intros j row Hj. simpl. rewrite list_lookup_fmap, Hj. simpl.
  eexists. split; [done|]. intros k. rewrite fill_row_lookup. unfold last_pos.
  destruct (decide (k = [])); [apply lookup_empty|].
  destruct (last_pos_from 0 k header); [done|apply lookup_empty].
Qed.

(** X24: a table written by [dicts_to_table] and read back by
    [_read_table] gives, for every dict, the dict restricted to the
    names of the header that are not empty, with the empty string for a
    name the dict does not have. *)
Theorem table_round_trip (header : list Py.text) (dict_rows : list (gmap Py.text Py.text)) :
  length (_read_table (dicts_to_table dict_rows header)) = length dict_rows
  ∧ ∀ j r, dict_rows !! j = Some r →
      ∃ d, _read_table (dicts_to_table dict_rows header) !! j = Some d
           ∧ ∀ k, d !! k = if decide (k ∈ header ∧ k ≠ [])
                           then Some (default [] (r !! k)) else None.
Proof.
  unfold dicts_to_table. split; [simpl; by rewrite !length_fmap|].
  intros j r Hj. simpl. rewrite !list_lookup_fmap, Hj. simpl.
  eexists. split; [done|]. intros k. rewrite fill_row_lookup.
  destruct (decide (k = [])) as [->|Hk].
  - rewrite lookup_empty. rewrite decide_False; [done|]. by intros [_ ?].
  - pose proof (last_pos_from_spec 0 k header) as H.
    destruct (last_pos_from 0 k header) as [i|].
    + destruct H as (_ & Hi & _). rewrite Nat.sub_0_r in Hi.
      rewrite list_lookup_fmap, Hi. simpl.
      rewrite decide_True; [done|]. split; [by eapply list_elem_of_lookup_2|done].
    + rewrite lookup_empty. rewrite decide_False; [done|]. by intros [? _].
Qed.
End Tables.

(* ===================================================================== *)
(** * The env file *)
(* ===================================================================== *)

Section EnvFile.
Import Py Re PyStr behavior_digest digest_input Spec SpecMore.

Lemma lstrip_by_space (s : Py.text) : lstrip s = lstrip_by is_space s.
Proof. induction s as [|c s IH]; [done|]. simpl. by rewrite IH. Qed.

Lemma strip_by_space (s : Py.text) : strip s = strip_by is_space s.
Proof. unfold strip, strip_by. by rewrite !lstrip_by_space. Qed.

Lemma lstrip_by_head (p : char → bool) (s : Py.text) :
  (∀ c, head s = Some c → p c = false) → lstrip_by p s = s.
Proof. destruct s as [|c s]; [done|]. intros H. simpl. by rewrite (H c). Qed.

Lemma lstrip_by_all (p : char → bool) (a s : Py.text) :
  Forall (λ c, p c = true) a → lstrip_by p (a ++ s) = lstrip_by p s.
Proof. induction 1 as [|c a Hc _ IH]; [done|]. simpl. by rewrite Hc. Qed.

(** Trimming by a class removes the characters of the class around a
    text that neither starts nor ends with one. *)
Lemma strip_by_padded (p : char → bool) (a b s : Py.text) :
  Forall (λ c, p c = true) a → Forall (λ c, p c = true) b →
  trimmed p s → s ≠ [] →
  strip_by p (a ++ s ++ b) = s.
Proof.
  intros Ha Hb [Hh Hl] Hne. unfold strip_by.
  rewrite lstrip_by_all by done.
  assert (lstrip_by p (s ++ b) = s ++ b) as ->.
  { apply lstrip_by_head. intros c Hc. apply Hh. by destruct s. }
  rewrite reverse_app, lstrip_by_all by by apply Forall_reverse.
  rewrite lstrip_by_head; [by rewrite reverse_involutive|].
  intros c Hc. apply Hl. by rewrite <- head_reverse.
Qed.

Lemma strip_by_trimmed (p : char → bool) (s : Py.text) :
  trimmed p s → strip_by p s = s.
Proof.
  intros Ht. destruct (decide (s = [])) as [->|Hne]; [done|].
  pose proof (strip_by_padded p [] [] s) as H.
  rewrite app_nil_l, app_nil_r in H. by apply H.
Qed.

Lemma strip_by_all (p : char → bool) (a : Py.text) :
  Forall (λ c, p c = true) a → strip_by p a = [].
Proof.
  intros Ha. unfold strip_by.
  pose proof (lstrip_by_all p a [] Ha) as H. rewrite app_nil_r in H. by rewrite H.
Qed.

Lemma split_once_present (c : char) (s : Py.text) :
  c ∈ s → ∃ a b, split_once c s = (a, Some b) ∧ s = a ++ c :: b ∧ c ∉ a.
Proof.
  induction s as [|x s IH]; intros Hin; [by apply elem_of_nil in Hin|].
  simpl. destruct (N.eqb_spec x c) as [->|Hne].
  - exists [], s. split; [done|]. split; [done|]. apply not_elem_of_nil.
  - apply elem_of_cons in Hin as [->|Hin]; [done|].
    destruct (IH Hin) as (a & b & -> & -> & Ha). exists (x :: a), b.
    split; [done|]. split; [done|]. intros [->|?]%elem_of_cons; done.
Qed.

Lemma env_line_returns env line : ∃ env', env_line env line = Returned env'.
Proof.
  unfold env_line. cbv zeta.
  destruct (negb (nonempty (strip line))); [by eexists|].
  destruct (startswith (chr "#") (strip line)); [by eexists|].
  unfold contains. destruct (bool_decide (chr "=" ∈ strip line)) eqn:E; [|by eexists].
  apply bool_decide_eq_true in E.
  destruct (split_once_present _ _ E) as (a & b & -> & _). simpl. by eexists.
Qed.

Lemma env_lines_app env l1 l2 :
  env_lines env (l1 ++ l2) = env_lines env l1 ≫= (λ env', env_lines env' l2).
Proof.
  revert env. induction l1 as [|line l1 IH]; intros env; [done|].
  simpl. destruct (env_line env line) as [env'|e]; [|done].
  cbn [mbind outcome_bind bind]. apply IH.
Qed.

Lemma env_lines_returns env lines : ∃ env', env_lines env lines = Returned env'.
Proof.
  revert env. induction lines as [|line lines IH]; intros env; [by eexists|].
  simpl. destruct (env_line_returns env line) as [env' ->]. apply IH.
Qed.

Lemma env_line_ignorable env line : ignorable line → env_line env line = Returned env.
Proof.
  intros Hig. unfold env_line. cbv zeta.
  destruct Hig as [Hb|[(a & b & Ha & ->)|Hn]].
  - rewrite strip_by_space, strip_by_all by done. done.
  - assert (strip (a ++ chr "#" :: b) = strip (chr "#" :: b)) as ->.
    { unfold strip. by rewrite lstrip_blank. }
    destruct (strip_keeps (chr "#") [] b eq_refl) as (a' & b' & Hs & Ha' & _).
    change ([] ++ chr "#" :: b) with (chr "#" :: b) in Hs. rewrite Hs.
    destruct a' as [|c a']; [done|].
    exfalso. by apply (not_elem_of_nil c), Ha'; left.
  - unfold contains. rewrite (bool_decide_eq_false_2 (chr "=" ∈ strip line)).
    + by rewrite !orb_true_r.
    + intros H. by apply Hn, strip_subset.
Qed.

Lemma trimmed_weaken (p q : char → bool) (s : Py.text) :
  (∀ c, q c = true → p c = true) → trimmed p s → trimmed q s.
Proof.
  intros Hpq [Hh Hl]. split; intros c Hc.
  - specialize (Hh c Hc). destruct (q c) eqn:E; [|done]. by rewrite (Hpq c E) in Hh.
  - specialize (Hl c Hc). destruct (q c) eqn:E; [|done]. by rewrite (Hpq c E) in Hl.
Qed.

Lemma blank_no_eq (b : Py.text) : blank b → Forall (λ c, c ≠ chr "=") b.
Proof. intros H. eapply Forall_impl; [exact H|]. by intros c Hc ->. Qed.

(** One assignment line: the key and the raw value lose the white space
    around them, and the raw value then its quotes. *)
Lemma env_line_assign env (a k b c w d : Py.text) :
  env_key k → blank a → blank b → blank c → blank d → trimmed is_space w →
  env_line env (assignment a k b c w d)
  = Returned (<[k := strip_chr 39%N (strip_chr 34%N w)]> env).
Proof.
  intros (Hk & Heq & Hhash & Hkt) Ha Hb Hc Hd Hw.
  set (r := if decide (w = []) then [] else c ++ w).
  assert (Hr : strip r = w).
  { unfold r. destruct (decide (w = [])) as [->|Hne]; [done|].
    rewrite strip_by_space. pose proof (strip_by_padded is_space c [] w) as H.
    rewrite app_nil_r in H. by apply H. }
  set (s := k ++ b ++ [chr "="] ++ r).
  assert (Hline : ∃ d', blank d' ∧ assignment a k b c w d = a ++ s ++ d').
  { unfold assignment, s, r. destruct (decide (w = [])) as [->|Hne].
    - exists (c ++ d). split; [by apply Forall_app|].
      by rewrite !app_nil_r, <- !app_assoc.
    - exists d. split; [done|]. by rewrite <- !app_assoc. }
  destruct Hline as (d' & Hd' & ->).
  assert (Hst : trimmed is_space s).
  { destruct Hkt as [Hkh Hkl]. split; intros x Hx.
    - apply Hkh. unfold s in Hx. by destruct k.
    - unfold s, r in Hx. destruct (decide (w = [])) as [->|Hne].
      + rewrite app_nil_r, !app_assoc, last_snoc in Hx. by injection Hx as <-.
      + destruct Hw as [_ Hwl]. apply Hwl.
        rewrite !app_assoc in Hx. rewrite last_app in Hx.
        destruct (last w) eqn:E; [done|]. by apply last_None in E. }
  assert (Hsne : s ≠ []) by (unfold s; by destruct k).
  unfold env_line. cbv zeta.
  rewrite strip_by_space, strip_by_padded by done.
  assert (nonempty s = true) as -> by (by destruct s).
  assert (startswith (chr "#") s = false) as ->.
  { unfold s. destruct k as [|x k]; [done|]. simpl.
    apply N.eqb_neq. intros ->. by apply Hhash. }
  assert (Hsplit : split_once (chr "=") s = (k ++ b, Some r)).
  { unfold s. rewrite app_assoc. apply split_once_app.
    apply Forall_app. split; [|by apply blank_no_eq].
    apply Forall_forall. by intros x Hx ->. }
  assert (contains (chr "=") s = true) as ->.
  { apply bool_decide_eq_true. unfold s. rewrite !elem_of_app. right. right. left. by left. }
  rewrite Hsplit. cbn [unpack2 mbind outcome_bind bind mret outcome_ret orb negb].
  assert (strip (k ++ b) = k) as ->.
  { rewrite strip_by_space. pose proof (strip_by_padded is_space [] b k) as H.
    rewrite app_nil_l in H. by apply H. }
  by rewrite Hr.
Qed.

Lemma unquote_plain (v : Py.text) :
  env_value v → strip_chr 39%N (strip_chr 34%N v) = v.
Proof.
  intros Hv. unfold strip_chr.
  rewrite (strip_by_trimmed (λ c', (c' =? 34)%N)).
  - apply strip_by_trimmed. revert Hv. apply trimmed_weaken.
    intros c ->. by rewrite orb_true_r.
  - revert Hv. apply trimmed_weaken. intros c ->. by rewrite orb_true_r.
Qed.

Lemma unquote_double_quoted (v : Py.text) :
  quote_free_ends v → strip_chr 39%N (strip_chr 34%N (double_quoted v)) = v.
Proof.
  intros Hv. unfold strip_chr, double_quoted.
  destruct (decide (v = [])) as [->|Hne]; [done|].
  change (34%N :: v ++ [34%N]) with ([34%N] ++ v ++ [34%N]).
  rewrite strip_by_padded.
  - apply strip_by_trimmed. revert Hv. apply trimmed_weaken.
    intros c ->. by rewrite orb_true_r.
  - by constructor.
  - by constructor.
  - revert Hv. apply trimmed_weaken. by intros c ->.
  - done.
Qed.

Lemma double_quoted_trimmed (v : Py.text) : trimmed is_space (double_quoted v).
Proof.
  unfold double_quoted. split; intros c Hc.
  - by injection Hc as <-.
  - change (34%N :: v ++ [34%N]) with ((34%N :: v) ++ [34%N]) in Hc.
    rewrite last_snoc in Hc. by injection Hc as <-.
Qed.

Lemma load_env_snoc lines line :
  _load_env (lines ++ [line]) = _load_env lines ≫= (λ env, env_line env line).
Proof.
  unfold _load_env. rewrite env_lines_app.
  destruct (env_lines ∅ lines) as [env|e]; [|done].
  cbn [mbind outcome_bind bind env_lines].
  by destruct (env_line env line).
Qed.

(** X25: reading an env file never fails, and a blank line, a comment or a
    line without ["="] changes nothing, wherever it stands. *)
Theorem load_env_skips (l1 l2 : list Py.text) (line : Py.text) :
  (∃ env, _load_env (l1 ++ line :: l2) = Returned env)
  ∧ (ignorable line → _load_env (l1 ++ line :: l2) = _load_env (l1 ++ l2)).
Proof.
  split; [apply env_lines_returns|].
  intros Hig. unfold _load_env. rewrite !env_lines_app.
  destruct (env_lines ∅ l1) as [env|e]; [|done].
  cbn [mbind outcome_bind bind env_lines].
  by rewrite (env_line_ignorable env line Hig).
Qed.

(** X26: a final line [K = V] sets the key to the value, whatever white
    space surrounds its parts, and so does [K = "V"]; the other keys
    keep what the lines before gave them. *)
Theorem load_env_assignment (lines : list Py.text) (a k b c d v : Py.text) :
  env_key k → blank a → blank b → blank c → blank d →
  ∃ env, _load_env lines = Returned env
    ∧ (env_value v →
       _load_env (lines ++ [assignment a k b c v d]) = Returned (<[k := v]> env))
    ∧ (quote_free_ends v →
       _load_env (lines ++ [assignment a k b c (double_quoted v) d])
       = Returned (<[k := v]> env)).
Proof.
  intros Hk Ha Hb Hc Hd.
  destruct (env_lines_returns ∅ lines) as [env Henv]. exists env.
  split; [done|]. split; intros Hv; rewrite load_env_snoc; unfold _load_env;
    rewrite Henv; cbn [mbind outcome_bind bind].
  - rewrite env_line_assign; [by rewrite unquote_plain|done..|].
    revert Hv. apply trimmed_weaken. intros x ->. done.
  - rewrite env_line_assign; [by rewrite unquote_double_quoted|done..|].
    apply double_quoted_trimmed.
Qed.
End EnvFile.

(* ===================================================================== *)
(** * The messages of each chat *)
(* ===================================================================== *)

Section MessageGroups.
Import Py PyStr behavior_digest digest_input SpecMore.

Lemma foldl_snoc_id {A} (l0 l : list A) : foldl (λ ms m, ms ++ [m]) l0 l = l0 ++ l.
Proof.
  revert l0. induction l as [|x l IH]; intros l0; simpl; [by rewrite app_nil_r|].
  by rewrite IH, <- app_assoc.
Qed.

Lemma group_messages_fold (rows : list Msg) :
  group_messages rows
  = group_fold chat_id (λ _, []) (λ ms m, ms ++ [m])
      (filter (λ m, chat_id m ≠ ""%string) rows).
Proof.
  unfold group_messages, group_fold. generalize (@nil (string * list Msg)).
  induction rows as [|m rows IH]; intros d; [done|].
  cbn [foldl]. rewrite filter_cons.
  destruct (decide (chat_id m ≠ ""%string)) as [Hne|He].
  - rewrite bool_decide_eq_false_2 by done. cbn [foldl]. apply IH.
  - apply dec_stable in He. rewrite bool_decide_eq_true_2 by done. apply IH.
Qed.

Lemma filter_chat_of_named (rows : list Msg) (cid : string) :
  cid ≠ ""%string →
  filter (λ m, chat_id m = cid) (filter (λ m, chat_id m ≠ ""%string) rows)
  = filter (λ m, chat_id m = cid) rows.
Proof.
  intros Hcid. induction rows as [|m rows IH]; [done|].
  rewrite (filter_cons (λ m, chat_id m ≠ ""%string)).
  destruct (decide (chat_id m ≠ ""%string)) as [Hne|He].
  - rewrite !filter_cons, IH. done.
  - apply dec_stable in He. rewrite filter_cons, IH.
    rewrite decide_False; [done|]. intros H. by rewrite H in He.
Qed.

(** X27: the grouping loop keeps one entry per chat id, in the order in
    which the ids first appear; an entry is never empty and holds exactly
    the rows of its chat, in the order of the sheet; rows without chat id
    are in no entry. *)
Theorem messages_by_chat (rows : list Msg) :
  (group_messages rows).*1
  = first_seen (filter (λ cid, cid ≠ ""%string) (chat_id <$> rows))
  ∧ NoDup (group_messages rows).*1
  ∧ (∀ cid ms, (cid, ms) ∈ group_messages rows →
       cid ≠ ""%string ∧ ms ≠ [] ∧ ms = filter (λ m, chat_id m = cid) rows)
  ∧ (∀ m, m ∈ rows → chat_id m ≠ ""%string →
       ∃ ms, (chat_id m, ms) ∈ group_messages rows ∧ m ∈ ms).
Proof.
  rewrite group_messages_fold.
  set (named := filter (λ m, chat_id m ≠ ""%string) rows).
  assert (Helem : ∀ cid ms,
    (cid, ms) ∈ group_fold chat_id (λ _ : Msg, []) (λ ms m, ms ++ [m]) named →
    cid ≠ ""%string ∧ ms ≠ [] ∧ ms = filter (λ m, chat_id m = cid) rows).
  { intros cid ms Hin. apply group_fold_elem in Hin as (r0 & g & Hg & ->).
    rewrite foldl_snoc_id, app_nil_l.
    assert (Hr0 : r0 ∈ filter (λ r, chat_id r = cid) named) by (rewrite Hg; by left).
    apply list_elem_of_filter in Hr0 as [Hk Hr0].
    apply list_elem_of_filter in Hr0 as [Hne _]. rewrite Hk in Hne.
    split; [done|]. split; [done|]. rewrite <- Hg. by apply filter_chat_of_named. }
  split; [|split; [apply group_fold_NoDup|split; [done|]]].
  - rewrite group_fold_keys. f_equal. unfold named.
    clear Helem named. induction rows as [|m rows IH]; [done|].
    rewrite fmap_cons, !filter_cons.
    destruct (decide (chat_id m ≠ ""%string)); [by rewrite fmap_cons, IH|done].
  - intros m Hm Hne.
    destruct (group_fold_covers chat_id (λ _ : Msg, []) (λ ms m, ms ++ [m]) named m)
      as [ms Hms].
    { apply list_elem_of_filter. by split. }
    exists ms. split; [done|].
    destruct (Helem _ _ Hms) as (_ & _ & ->). apply list_elem_of_filter. by split.
Qed.
End MessageGroups.

(* ===================================================================== *)
(** * The aggregates per manager *)
(* ===================================================================== *)

Section Aggregates.
Import Py PyStr behavior_digest digest_agg SpecMore.
Variables (kw_intent kw_nextstep re_interrogative kw_upsell kw_spin : Py.text → bool).

Local Abbreviation agg := (aggregate kw_intent kw_nextstep re_interrogative kw_upsell kw_spin).
Local Abbreviation add := (agg_add kw_intent kw_nextstep re_interrogative kw_upsell kw_spin).
Local Abbreviation questions := (questions_of re_interrogative).
Local Abbreviation next_step := (next_step_of kw_nextstep).
Local Abbreviation spin := (spin_of re_interrogative kw_spin).
Local Abbreviation upsell := (upsell_of kw_upsell).
Local Abbreviation high_intent := (high_intent_of kw_intent).

Lemma or_str_empty (a : string) : or_str a "" = a.
Proof. unfold or_str. by destruct (bool_decide_reflect (a = ""%string)). Qed.

Lemma resolve_names_mid (t : chat_tables) (cid : string) (ms : list Msg) :
  (resolve_names t cid ms).1 = resolve_mid t cid ms.
Proof.
  unfold resolve_names, resolve_mid. cbv zeta. rewrite !or_str_empty.
  set (mid0 := default ""%string (chat_mgr_id t !! cid)).
  set (mid := if bool_decide (mid0 = ""%string) then _ else mid0).
  destruct (bool_decide_reflect (mid = ""%string)) as [He|Hne]; [|by rewrite andb_false_l].
  destruct (_ && _); simpl; by rewrite ?He.
Qed.

Lemma agg_fold_fields (t : chat_tables) (s : agg_entry) (g : list (string * list Msg)) :
  let s' := foldl (add t) s g in
  g_manager_id s' = g_manager_id s ∧ g_manager_name s' = g_manager_name s
  ∧ g_chats s' = g_chats s + Z.of_nat (length g)
  ∧ g_responded_chats s' = g_responded_chats s + count (λ e, responded_of e.2) g
  ∧ g_no_reply_chats s' = g_no_reply_chats s + count (no_reply_of t) g
  ∧ g_questions_sum s' = g_questions_sum s + total (λ e, questions e.2) g
  ∧ g_next_step_hits s' = g_next_step_hits s + count (λ e, next_step e.2) g
  ∧ g_spin_hits s' = g_spin_hits s + count (λ e, spin e.2) g
  ∧ g_upsell_hits s' = g_upsell_hits s + count (λ e, upsell e.2) g
  ∧ g_follow_gap_hits s' = g_follow_gap_hits s + count (λ e, follow_gap_of e.2) g
  ∧ g_high_intent s' = g_high_intent s + count (λ e, high_intent e.2) g.
Proof.
  revert s. induction g as [|e g IH]; intros s; cbv zeta.
  - simpl. unfold total, count. simpl. repeat split; lia.
  - cbn [foldl].
    destruct (IH (add t s e)) as (H1 & H2 & H3 & H4 & H5 & H6 & H7 & H8 & H9 & H10 & H11).
    rewrite H1, H2, H3, H4, H5, H6, H7, H8, H9, H10, H11.
    rewrite !total_cons, !count_cons.
    cbn [agg_add g_manager_id g_manager_name g_chats g_responded_chats g_no_reply_chats
      g_questions_sum g_next_step_hits g_spin_hits g_upsell_hits g_follow_gap_hits
      g_high_intent]. rewrite !bump_eq.
    repeat split; try done; try (simpl length; lia).
Qed.

(** An entry of the aggregates, next to the chats it was built from. *)
Lemma aggregate_entry (t : chat_tables) (by_chat : list (string * list Msg)) mid a :
  (mid, a) ∈ agg t by_chat →
  ∃ e0 g, chats_of_manager t mid by_chat = e0 :: g
          ∧ a = foldl (add t) (agg_new t e0) (e0 :: g).
Proof.
  intros Hin. unfold aggregate in Hin. apply group_fold_elem in Hin as (e0 & g & Hg & ->).
  exists e0, g. split; [|done]. rewrite <- Hg. unfold chats_of_manager.
  apply list_filter_iff. intros e. by rewrite resolve_names_mid.
Qed.

Lemma total_pointwise {A} (f h : A → Z) (l : list A) :
  (∀ x, x ∈ l → f x <= h x) → total f l <= total h l.
Proof.
  induction l as [|x l IH]; intros H; [done|]. rewrite !total_cons.
  pose proof (H x ltac:(by left)). pose proof (IH (λ y Hy, H y ltac:(by right))). lia.
Qed.

Lemma count_mono {A} (p q : A → bool) (l : list A) :
  (∀ x, x ∈ l → p x = true → q x = true) → count p l <= count q l.
Proof.
  intros H. rewrite <- !total_indicator. apply total_pointwise.
  intros x Hx. specialize (H x Hx). destruct (p x), (q x); try done.
  by specialize (H eq_refl).
Qed.

Lemma count_weighted {A} (p : A → bool) (f : A → Z) (n : Z) (l : list A) :
  (∀ x, x ∈ l → 0 <= f x) → (∀ x, x ∈ l → p x = true → n <= f x) →
  n * count p l <= total f l.
Proof.
  intros H0 Hn. rewrite <- total_indicator.
  induction l as [|x l IH]; [unfold total; simpl; lia|]. rewrite !total_cons.
  pose proof (IH (λ y Hy, H0 y ltac:(by right)) (λ y Hy, Hn y ltac:(by right))).
  pose proof (H0 x ltac:(by left)). pose proof (Hn x ltac:(by left)).
  destruct (p x); lia.
Qed.

Lemma count_questions_nonneg (txt : Py.text) : 0 <= _count_questions re_interrogative txt.
Proof.
  unfold _count_questions, count_qmarks.
  destruct (negb (nonempty txt)); [done|]. destruct (re_interrogative txt); lia.
Qed.

Lemma questions_nonneg (ms : list Msg) : 0 <= questions ms.
Proof.
  unfold questions_of. induction (manager_texts ms) as [|x l IH]; [done|].
  rewrite fmap_cons. cbn [foldr]. pose proof (count_questions_nonneg x). lia.
Qed.

Lemma manager_text_responded (ms : list Msg) (m : Msg) :
  In m ms → _is_manager_msg m && _is_textish m && nonempty (text m) = true →
  responded_of ms = true.
Proof.
  intros Hin Hm. unfold responded_of. apply existsb_exists. exists m.
  split; [done|]. by apply andb_true_iff in Hm as [-> _].
Qed.

Lemma texts_responded (kw : Py.text → bool) (ms : list Msg) :
  existsb kw (manager_texts ms) = true → responded_of ms = true.
Proof.
  intros H. apply existsb_exists in H as (x & Hx & _).
  unfold manager_texts in Hx. apply list_elem_of_In, list_elem_of_fmap in Hx as (m & _ & Hm).
  apply list_elem_of_In, filter_In in Hm as [Hin Hm]. by apply (manager_text_responded ms m).
Qed.

Lemma next_step_responded (ms : list Msg) : next_step ms = true → responded_of ms = true.
Proof.
  unfold next_step_of, last_out_of. cbv zeta.
  destruct (List.find _ (reverse ms)) as [m|] eqn:E; [|done]. intros _.
  apply find_some in E as [Hin Hm].
  apply (manager_text_responded ms m); [|done].
  apply list_elem_of_In. apply list_elem_of_In in Hin. by rewrite elem_of_reverse in Hin.
Qed.

Lemma spin_responded (ms : list Msg) : spin ms = true → responded_of ms = true.
Proof. unfold spin_of. intros [_ H]%andb_true_iff. by apply (texts_responded kw_spin). Qed.

Lemma spin_questions (ms : list Msg) : spin ms = true → 2 <= questions ms.
Proof. unfold spin_of. intros [H _]%andb_true_iff. lia. Qed.

(** X28: the aggregates hold one entry per manager, in the order in which
    the managers first appear in [by_chat], under the key the example
    candidates use; an entry carries the name resolved for the manager's
    first chat, and each of its counters is the count over the manager's
    chats of the feature it stands for. *)
Theorem manager_aggregates (t : chat_tables) (by_chat : list (string * list Msg)) :
  (agg t by_chat).*1 = first_seen ((λ e, resolve_mid t e.1 e.2) <$> by_chat)
  ∧ ∀ mid a, (mid, a) ∈ agg t by_chat →
      let g := chats_of_manager t mid by_chat in
      g_manager_id a = mid
      ∧ (∃ e0, head g = Some e0 ∧ g_manager_name a = (resolve_names t e0.1 e0.2).2)
      ∧ g_chats a = Z.of_nat (length g)
      ∧ g_responded_chats a = count (λ e, responded_of e.2) g
      ∧ g_no_reply_chats a = count (no_reply_of t) g
      ∧ g_questions_sum a = total (λ e, questions e.2) g
      ∧ g_next_step_hits a = count (λ e, next_step e.2) g
      ∧ g_spin_hits a = count (λ e, spin e.2) g
      ∧ g_upsell_hits a = count (λ e, upsell e.2) g
      ∧ g_follow_gap_hits a = count (λ e, follow_gap_of e.2) g
      ∧ g_high_intent a = count (λ e, high_intent e.2) g.
Proof.
  split.
  - unfold aggregate. rewrite group_fold_keys. f_equal.
    apply list_fmap_ext. intros _ e _. apply resolve_names_mid.
  - intros mid a Hin. cbv zeta.
    destruct (aggregate_entry t by_chat mid a Hin) as (e0 & g & Hg & ->). rewrite Hg.
    destruct (agg_fold_fields t (agg_new t e0) (e0 :: g))
      as (H1 & H2 & H3 & H4 & H5 & H6 & H7 & H8 & H9 & H10 & H11).
    rewrite H1, H2, H3, H4, H5, H6, H7, H8, H9, H10, H11. cbn [agg_new g_manager_id
      g_manager_name g_chats g_responded_chats g_no_reply_chats g_questions_sum
      g_next_step_hits g_spin_hits g_upsell_hits g_follow_gap_hits g_high_intent].
    assert (He0 : e0 ∈ chats_of_manager t mid by_chat) by (rewrite Hg; by left).
    apply list_elem_of_filter in He0 as [He0 _].
    split; [by rewrite resolve_names_mid|]. split; [by exists e0|].
    repeat split; lia.
Qed.

(** X29: every chat is counted for one manager, an entry counts at least
    one chat, and its counters are ordered as the rates built from them
    need: next-step, SPIN and upsell hits are chats with a reply, the
    chats with a reply, without reply, with interest and with a follow-up
    gap are chats of the manager, and a SPIN hit brings two questions. *)
Theorem manager_aggregate_bounds (t : chat_tables) (by_chat : list (string * list Msg)) :
  total g_chats (agg t by_chat).*2 = Z.of_nat (length by_chat)
  ∧ ∀ mid a, (mid, a) ∈ agg t by_chat →
      1 <= g_chats a
      ∧ 0 <= g_next_step_hits a <= g_responded_chats a
      ∧ 0 <= g_spin_hits a <= g_responded_chats a
      ∧ 0 <= g_upsell_hits a <= g_responded_chats a
      ∧ g_responded_chats a <= g_chats a
      ∧ 0 <= g_no_reply_chats a <= g_chats a
      ∧ 0 <= g_high_intent a <= g_chats a
      ∧ 0 <= g_follow_gap_hits a <= g_chats a
      ∧ 2 * g_spin_hits a <= g_questions_sum a.
Proof.
  split.
  - unfold aggregate. rewrite (group_fold_total _ _ _ g_chats (λ _, 1)); [apply total_ones|done|].
    intros s e. done.
  - intros mid a Hin.
    destruct (aggregate_entry t by_chat mid a Hin) as (e0 & g & _ & ->).
    destruct (agg_fold_fields t (agg_new t e0) (e0 :: g))
      as (_ & _ & H3 & H4 & H5 & H6 & H7 & H8 & H9 & H10 & H11).
    rewrite H3, H4, H5, H6, H7, H8, H9, H10, H11. cbn [agg_new g_chats g_responded_chats
      g_no_reply_chats g_questions_sum g_next_step_hits g_spin_hits g_upsell_hits
      g_follow_gap_hits g_high_intent].
    set (G := e0 :: g).
    pose proof (count_bounds (λ e : string * list Msg, responded_of e.2) G).
    pose proof (count_bounds (no_reply_of t) G).
    pose proof (count_bounds (λ e : string * list Msg, next_step e.2) G).
    pose proof (count_bounds (λ e : string * list Msg, spin e.2) G).
    pose proof (count_bounds (λ e : string * list Msg, upsell e.2) G).
    pose proof (count_bounds (λ e : string * list Msg, follow_gap_of e.2) G).
    pose proof (count_bounds (λ e : string * list Msg, high_intent e.2) G).
    pose proof (count_mono (λ e : string * list Msg, next_step e.2)
                  (λ e, responded_of e.2) G (λ e _, next_step_responded e.2)).
    pose proof (count_mono (λ e : string * list Msg, spin e.2)
                  (λ e, responded_of e.2) G (λ e _, spin_responded e.2)).
    pose proof (count_mono (λ e : string * list Msg, upsell e.2)
                  (λ e, responded_of e.2) G (λ e _, texts_responded kw_upsell e.2)).
    pose proof (count_weighted (λ e : string * list Msg, spin e.2) (λ e, questions e.2) 2 G
                  (λ e _, questions_nonneg e.2) (λ e _, spin_questions e.2)).
    assert (Z.of_nat (length G) = 1 + Z.of_nat (length g)) by (unfold G; simpl length; lia).
    lia.
Qed.
End Aggregates.

Section FollowGap.
Import Py PyStr behavior_digest digest_agg SpecMore.

Lemma omap_reverse {A B} (f : A → option B) (l : list A) :
  omap f (reverse l) = reverse (omap f l).
Proof.
  induction l as [|x l IH]; [done|].
  rewrite reverse_cons, omap_app, IH.
  change (omap f (x :: l)) with (match f x with Some y => y :: omap f l | None => omap f l end).
  change (omap f [x]) with (match f x with Some y => [y] | None => [] end).
  destruct (f x); [by rewrite reverse_cons|by rewrite app_nil_r].
Qed.

(** The backward scan keeps the first customer stamp it meets, whether or
    not it stops early. *)
Lemma last_stamps_customer (l : list Msg) (lc lm : option Z) :
  (last_stamps l lc lm).1
  = match lc with
    | Some x => Some x
    | None => head (customer_stamps l)
    end.
Proof.
  revert lc lm. induction l as [|m l IH]; intros lc lm; [by destruct lc|].
  cbn [last_stamps]. unfold customer_stamps.
  change (omap ?f (m :: l)) with (match f m with Some y => y :: omap f l | None => omap f l end).
  fold (customer_stamps l).
  destruct lc as [x|]; cbn [is_some negb andb].
  - match goal with |- (if ?b then _ else _).1 = _ => destruct b end; [done|].
    exact (IH (Some x) _).
  - destruct (_is_customer_msg m); cbn [andb].
    + destruct (sent_at m) as [y|]; cbn [is_some andb head].
      * match goal with |- (if ?b then _ else _).1 = _ => destruct b end; [done|].
        exact (IH (Some y) _).
      * exact (IH None _).
    + exact (IH None _).
Qed.

(** X30: a chat counts as a follow-up gap exactly when a customer message
    has a stamp and no manager message, of whatever type, has a stamp
    after that of the last stamped customer message of the list; the
    length of the silence plays no role. *)
Theorem follow_gap_spec (ms : list Msg) :
  follow_gap_of ms = true
  ↔ ∃ t, last (customer_stamps ms) = Some t ∧ no_manager_stamp_after t ms.
Proof.
  unfold follow_gap_of. rewrite last_stamps_customer.
  unfold customer_stamps at 1. rewrite omap_reverse, head_reverse. fold (customer_stamps ms).
  destruct (last (customer_stamps ms)) as [t|]; [|split; [done|by intros (t & Ht & _)]].
  rewrite negb_true_iff. split.
  - intros Hex. exists t. split; [done|]. intros m t' Hm Hmgr Hst.
    destruct (Z.leb_spec t' t) as [Hle|Hgt]; [done|]. exfalso.
    assert (existsb (λ m, _is_manager_msg m
              && match sent_at m with Some t0 => t0 >? t | None => false end) ms = true)
      as Htrue; [|by rewrite Htrue in Hex].
    apply existsb_exists. exists m. split; [by apply list_elem_of_In|].
    rewrite Hmgr, Hst. simpl. lia.
  - intros (t0 & [= <-] & Hno). apply not_true_is_false. intros Hex.
    apply existsb_exists in Hex as (m & Hm & Hp). apply andb_true_iff in Hp as [Hmgr Hp].
    destruct (sent_at m) as [t'|] eqn:Hst; [|done].
    pose proof (Hno m t' ltac:(by apply list_elem_of_In) Hmgr Hst). lia.
Qed.
End FollowGap.

Section MoreWitnesses.
Import Py Re PyStr behavior_digest digest_input digest_agg Spec SpecMore.

Lemma load_env_skips_witness :
  _load_env ([lit "A=1"] ++ lit "# A=2" :: [lit "B=3"])
  = _load_env ([lit "A=1"] ++ [lit "B=3"]).
Proof.
  apply (load_env_skips [lit "A=1"] [lit "B=3"] (lit "# A=2")).
  right; left. exists [], (lit " A=2"). split; [constructor|reflexivity].
Defined.

Lemma load_env_assignment_witness :
  ∃ env, _load_env [lit "TZ=UTC"] = Returned env
    ∧ _load_env ([lit "TZ=UTC"] ++ [assignment (lit " ") (lit "TZ") (lit " ") (lit " ")
                                       (double_quoted (lit "Europe/Moscow")) []])
      = Returned (<[lit "TZ" := lit "Europe/Moscow"]> env).
Proof.
  destruct (load_env_assignment [lit "TZ=UTC"] (lit " ") (lit "TZ") (lit " ") (lit " ") []
              (lit "Europe/Moscow")) as (env & Henv & _ & Hq).
  - split; [discriminate|]. split.
    + intros H. repeat (apply elem_of_cons in H as [H|H]; [discriminate H|]).
      by apply elem_of_nil in H.
    + split; [discriminate|].
      split; intros c Hc; vm_compute in Hc; injection Hc as <-; reflexivity.
  - repeat constructor.
  - repeat constructor.
  - repeat constructor.
  - constructor.
  - exists env. split; [exact Henv|]. apply Hq.
    split; intros c Hc; vm_compute in Hc; injection Hc as <-; reflexivity.
Defined.

Lemma messages_by_chat_witness :
  ∃ ms, ("c1"%string, ms) ∈ group_messages
          (sample_chat ++ [ {| chat_id := ""; sent_at := None; direction := "in";
                               manager_id := ""; message_type := "TEXT";
                               author_type := "customer"; text := lit "?" |} ])
        ∧ ms = sample_chat.
Proof.
  set (rows := sample_chat ++ _).
  destruct (messages_by_chat rows) as (_ & _ & H3 & H4).
  destruct (H4 (sample_msg "in" "customer" (lit "hello"))) as (ms & Hms & _);
    [left|discriminate|].
  exists ms. split; [exact Hms|]. by destruct (H3 _ _ Hms) as (_ & _ & ->).
Defined.

Lemma manager_aggregates_witness :
  ∃ a, od_get (aggregate quiet has_qmark quiet quiet quiet (sample_tables (Some 30))
                 [("c1"%string, sample_chat); ("c2"%string, [])]) "7"%string = Some a
       ∧ g_manager_id a = "7"%string ∧ g_chats a = 1 ∧ g_next_step_hits a = 1.
Proof.
  set (by_chat := [("c1"%string, sample_chat); ("c2"%string, [])]).
  destruct (od_get (aggregate quiet has_qmark quiet quiet quiet (sample_tables (Some 30))
                      by_chat) "7"%string) as [a|] eqn:E; [|by vm_compute in E].
  exists a. split; [reflexivity|]. apply od_get_elem in E.
  destruct (manager_aggregates quiet has_qmark quiet quiet quiet (sample_tables (Some 30))
              by_chat) as [_ H].
  destruct (H _ _ E) as (H1 & _ & H3 & _ & _ & _ & H7 & _).
  split; [exact H1|]. split; [exact H3|exact H7].
Defined.

Lemma manager_aggregate_bounds_witness :
  ∃ a, od_get (aggregate quiet has_qmark quiet quiet quiet (sample_tables (Some 30))
                 [("c1"%string, sample_chat); ("c2"%string, [])]) ""%string = Some a
       ∧ 1 <= g_chats a ∧ g_responded_chats a <= g_chats a.
Proof.
  set (by_chat := [("c1"%string, sample_chat); ("c2"%string, [])]).
  destruct (od_get (aggregate quiet has_qmark quiet quiet quiet (sample_tables (Some 30))
                      by_chat) ""%string) as [a|] eqn:E; [|by vm_compute in E].
  exists a. split; [reflexivity|]. apply od_get_elem in E.
  destruct (manager_aggregate_bounds quiet has_qmark quiet quiet quiet
              (sample_tables (Some 30)) by_chat) as [_ H].
  destruct (H _ _ E) as (H1 & _ & _ & _ & H5 & _).
  split; [exact H1|exact H5].
Defined.

Lemma follow_gap_spec_witness : follow_gap_of sample_chat = true.
Proof.
  apply (follow_gap_spec sample_chat). exists 0. split; [reflexivity|].
  intros m t' Hm _ Hst.
  repeat (apply elem_of_cons in Hm as [->|Hm]; [injection Hst as <-; reflexivity|]).
  by apply elem_of_nil in Hm.
Defined.
End MoreWitnesses.
